(** * dt-mergebot: derivation of the pull-request state (src/pr-info.ts)

    A shallow embedding of [deriveStateForPR] and of the helpers it is built
    from: the file classifier, the owner resolver, the review reconciler, the
    timeline extractors and the danger and popularity classifiers.

    Conventions of the embedding.
    - A JavaScript string is a [string]; one [ascii] stands for one code unit,
      so the line terminators U+2028 and U+2029 are not representable and the
      pattern [.] excludes line feed and carriage return only.
    - [null] and [undefined] are both [None].
    - A [Set] and a [Map] are insertion-ordered lists, as in JavaScript.
    - An [async] function is a computation in the monad [M]: it threads the
      log of the files requested from the fetch collaborator and either
      completes normally or throws. *)

From Stdlib Require Import ZArith String Ascii List Bool Lia.
From stdpp Require Import base tactics option list strings pretty.
Import ListNotations.

Local Open Scope string_scope.
Local Open Scope Z_scope.

(** ** JavaScript built-ins *)

Module JS.

(** [s.length] *)
Definition length (s : string) : Z := Z.of_nat (String.length s).

(** [s.startsWith(p)] *)
Definition startsWith (s p : string) : bool := String.prefix p s.

(** [s.includes(t)] *)
Fixpoint includes (s t : string) : bool :=
  String.prefix t s ||
  match s with
  | EmptyString => false
  | String _ s' => includes s' t
  end.

(** [s.split(c)] for a separator that is one character. *)
Fixpoint split_go (c : ascii) (s : string) (cur : string -> string) : list string :=
  match s with
  | EmptyString => [cur EmptyString]
  | String a s' =>
      if Ascii.eqb a c then cur EmptyString :: split_go c s' (fun x => x)
      else split_go c s' (fun x => cur (String a x))
  end.

Definition split (c : ascii) (s : string) : list string := split_go c s (fun x => x).

(** [[a, b].sort()[1]]: the default sort orders strings by code units and
    is stable, so the element at index 1 is [a] exactly when [b < a]. *)
Definition sort2_snd (a b : string) : string :=
  if String.ltb b a then a else b.

(** A [Set] of strings: its elements in insertion order. *)
Abbreviation JSSet := (list string).

Definition Set_has (s : JSSet) (x : string) : bool := bool_decide (x ∈ s).

Definition Set_add (s : JSSet) (x : string) : JSSet :=
  if Set_has s x then s else (s ++ [x])%list.

(** [new Set(xs)] *)
Definition Set_of (xs : list string) : JSSet := fold_left Set_add xs [].

(** A [Map] with string keys: its entries in insertion order.  [set] on a
    key already present replaces the value and keeps the position. *)
Abbreviation JSMap V := (list (string * V)).

Fixpoint Map_set {V} (m : JSMap V) (k : string) (v : V) : JSMap V :=
  match m with
  | [] => [(k, v)]
  | (k', v') :: m' =>
      if String.eqb k' k then (k', v) :: m' else (k', v') :: Map_set m' k v
  end.

Fixpoint Map_get {V} (m : JSMap V) (k : string) : option V :=
  match m with
  | [] => None
  | (k', v') :: m' => if String.eqb k' k then Some v' else Map_get m' k
  end.

(** A JavaScript number that is an integer, or [Infinity]. *)
Inductive number :=
| Num (z : Z)
| Infinity.

(** [Math.min(...xs)]: [Infinity] for no argument. *)
Definition Math_min (xs : list Z) : number :=
  fold_left (fun acc x =>
               match acc with
               | Infinity => Num x
               | Num a => Num (Z.min a x)
               end) xs Infinity.

(** A [Date]: its time value in milliseconds, or an invalid date (whose
    time value is [NaN]). *)
Inductive Date :=
| ValidDate (t : Z)
| InvalidDate.

(** [a > b] on two dates, and [a.getTime() > b.getTime()]: false as soon
    as one side is [NaN]. *)
Definition Date_gt (a b : Date) : bool :=
  match a, b with
  | ValidDate x, ValidDate y => bool_decide (y < x)
  | _, _ => false
  end.

(** *** Regular expressions

    The fragment of the ECMAScript pattern language that the source uses,
    with the backtracking semantics of the language: a matcher takes the
    continuation that must accept the rest of the input. *)

Inductive charset :=
| CChar (a : ascii)        (* a literal character *)
| CDot                     (* [.] *)
| CNot (a : ascii).        (* [[^a]] *)

Inductive regex :=
| REps                                 (* the empty pattern *)
| RStart                               (* [^] *)
| REnd                                 (* [$] *)
| ROne (c : charset)                   (* one character of a class *)
| RStarLazy (c : charset)              (* [c*?] *)
| RStarGreedy (c : charset)            (* [c*] *)
| RSeq (r1 r2 : regex)
| RAlt (r1 r2 : regex)
| ROpt (r : regex)                     (* [r?], greedy *)
| RGroup (i : nat) (r : regex).        (* the [i]-th capturing group *)

Definition lineTerminator (a : ascii) : bool :=
  Ascii.eqb a "010"%char || Ascii.eqb a "013"%char.

Definition inClass (c : charset) (a : ascii) : bool :=
  match c with
  | CChar b => Ascii.eqb a b
  | CDot => negb (lineTerminator a)
  | CNot b => negb (Ascii.eqb a b)
  end.

(** The captures of a match: the text of each group that took part. *)
Definition captures := list (nat * string).

Fixpoint capture (cs : captures) (i : nat) : option string :=
  match cs with
  | [] => None
  | (j, s) :: cs' => if Nat.eqb j i then Some s else capture cs' i
  end.

(** The first [n] characters of [s]. *)
Fixpoint stake (n : nat) (s : string) : string :=
  match n, s with
  | S n', String a s' => String a (stake n' s')
  | _, _ => EmptyString
  end.

Section Matcher.
Context {R : Type}.

(** A continuation receives the number of characters consumed so far,
    the rest of the input and the captures. *)
Definition cont := nat -> string -> captures -> option R.

Fixpoint starLazy (c : charset) (pos : nat) (s : string) (cs : captures)
    (k : cont) : option R :=
  match k pos s cs with
  | Some r => Some r
  | None =>
      match s with
      | String a s' => if inClass c a then starLazy c (S pos) s' cs k else None
      | EmptyString => None
      end
  end.

Fixpoint starGreedy (c : charset) (pos : nat) (s : string) (cs : captures)
    (k : cont) : option R :=
  match s with
  | String a s' =>
      if inClass c a then
        match starGreedy c (S pos) s' cs k with
        | Some r => Some r
        | None => k pos s cs
        end
      else k pos s cs
  | EmptyString => k pos s cs
  end.

Fixpoint rmatch (r : regex) (pos : nat) (s : string) (cs : captures)
    (k : cont) : option R :=
  match r with
  | REps => k pos s cs
  | RStart => if Nat.eqb pos 0 then k pos s cs else None
  | REnd => match s with EmptyString => k pos s cs | _ => None end
  | ROne c =>
      match s with
      | String a s' => if inClass c a then k (S pos) s' cs else None
      | EmptyString => None
      end
  | RStarLazy c => starLazy c pos s cs k
  | RStarGreedy c => starGreedy c pos s cs k
  | RSeq r1 r2 =>
      rmatch r1 pos s cs (fun pos' s' cs' => rmatch r2 pos' s' cs' k)
  | RAlt r1 r2 =>
      match rmatch r1 pos s cs k with
      | Some x => Some x
      | None => rmatch r2 pos s cs k
      end
  | ROpt r1 =>
      match rmatch r1 pos s cs k with
      | Some x => Some x
      | None => k pos s cs
      end
  | RGroup i r1 =>
      rmatch r1 pos s cs
        (fun pos' s' cs' => k pos' s' ((i, stake (pos' - pos) s) :: cs'))
  end.
End Matcher.

(** A match: where it starts, where it ends, and its captures. *)
Record matched := { m_start : nat; m_end : nat; m_captures : captures }.

(** The match that starts at position [pos], [s] being the input from
    there on. *)
Definition matchAt (r : regex) (pos : nat) (s : string) : option matched :=
  rmatch r pos s []
    (fun pos' _ cs => Some {| m_start := pos; m_end := pos'; m_captures := cs |}).

(** [re.exec(s)] without the global flag: the leftmost match. *)
Fixpoint execFrom (r : regex) (pos : nat) (s : string) : option matched :=
  match matchAt r pos s with
  | Some m => Some m
  | None =>
      match s with
      | String _ s' => execFrom r (S pos) s'
      | EmptyString => None
      end
  end.

Definition exec (r : regex) (s : string) : option matched := execFrom r 0 s.

(** The rest of [s] from position [n] on. *)
Fixpoint sdrop (n : nat) (s : string) : string :=
  match n, s with
  | S n', String _ s' => sdrop n' s'
  | _, _ => s
  end.

(** [s.replace(re, "")] without the global flag. *)
Definition replace_empty (r : regex) (s : string) : string :=
  match exec r s with
  | Some m => stake (m_start m) s +:+ sdrop (m_end m) s
  | None => s
  end.

(** A literal run of characters. *)
Fixpoint lit (s : string) : regex :=
  match s with
  | EmptyString => REps
  | String a s' => RSeq (ROne (CChar a)) (lit s')
  end.

End JS.


(** ** The query result (src/queries/schema/PR, graphql-global-types)

    The generated schema types are not part of the sources at hand; the
    records below have the fields that pr-info.ts reads.  A connection that is
    itself nullable and whose [nodes] are nullable ([reviews?.nodes],
    [files?.nodes]) is one [option]. *)

Inductive PullRequestState := OPEN | CLOSED | MERGED.

Inductive MergeableState := CONFLICTING | MERGEABLE | UNKNOWN.

Inductive PullRequestReviewState :=
| APPROVED | CHANGES_REQUESTED | COMMENTED | DISMISSED | PENDING.

Inductive CommentAuthorAssociation :=
| COLLABORATOR | CONTRIBUTOR | FIRST_TIMER | FIRST_TIME_CONTRIBUTOR
| MANNEQUIN | MEMBER | NONE | OWNER.

Inductive CheckConclusionState :=
| ACTION_REQUIRED | CANCELLED | FAILURE | NEUTRAL | SKIPPED | STALE
| STARTUP_FAILURE | SUCCESS | TIMED_OUT.

#[global] Instance PullRequestState_eq_dec : EqDecision PullRequestState.
Proof. solve_decision. Defined.
#[global] Instance MergeableState_eq_dec : EqDecision MergeableState.
Proof. solve_decision. Defined.
#[global] Instance PullRequestReviewState_eq_dec : EqDecision PullRequestReviewState.
Proof. solve_decision. Defined.
#[global] Instance CommentAuthorAssociation_eq_dec : EqDecision CommentAuthorAssociation.
Proof. solve_decision. Defined.
#[global] Instance CheckConclusionState_eq_dec : EqDecision CheckConclusionState.
Proof. solve_decision. Defined.

Record Actor := { login : string }.

Record App := { app_name : option string }.

Record CheckSuite := {
  cs_app : option App;
  cs_conclusion : option CheckConclusionState;
  cs_url : string }.

Record Commit := {
  oid : string;
  abbreviatedOid : string;
  pushedDate : string;
  checkSuites_nodes : option (list (option CheckSuite)) }.

Record CommitNode := { commit : Commit }.

Record FileNode := { fn_path : string }.

(** The commit that a review was made on. *)
Record ReviewCommit := {
  rv_oid : string;
  rv_abbreviatedOid : string }.

Record ReviewComment := {
  rc_author : option Actor;
  rc_createdAt : string }.

Record Review := {
  r_author : option Actor;
  r_commit : option ReviewCommit;
  r_submittedAt : string;
  r_state : PullRequestReviewState;
  r_authorAssociation : CommentAuthorAssociation;
  r_comments_nodes : option (list (option ReviewComment)) }.

(** A timeline item: [__typename], [createdAt], and the [author] or [actor]
    that the bot predicate looks at. *)
Record TimelineItem := {
  typename : string;
  createdAt : string;
  ti_actor : option Actor }.

Record IssueComment := {
  c_author : option Actor;
  c_body : string }.

Record PullRequest := {
  number : Z;
  pr_author : option Actor;
  headRefOid : string;
  commits_nodes : option (list (option CommitNode));
  state : PullRequestState;
  isDraft : bool;
  files_nodes : option (list (option FileNode));
  authorAssociation : CommentAuthorAssociation;
  reviews_nodes : option (list (option Review));
  timelineItems_nodes : option (list (option TimelineItem));
  comments_nodes : option (list (option IssueComment));
  mergeable : MergeableState }.

Record Repository := { pullRequest : option PullRequest }.

(** [info.data] of the Apollo query result. *)
Record PRQueryResult := { repository : option Repository }.

(** ** The results *)

Inductive FileKind :=
| test | definition | markdown | package_meta | package_meta_ok | infrastructure.

#[global] Instance FileKind_eq_dec : EqDecision FileKind.
Proof. solve_decision. Defined.

Record FileInfo := {
  path : string;
  kind : FileKind;
  package : option string }.

Inductive DangerLevel :=
| ScopedAndTested
| ScopedAndUntested
| ScopedAndConfiguration
| MultiplePackagesEdited
| Infrastructure.

Inductive PopularityLevel :=
| Well_liked_by_everyone
| Popular
| Critical.

(** src/util/CIResult is absent from the sources at hand; its four members
    are the ones pr-info.ts names. *)
Inductive CIResult := Pass | Fail | Pending | Missing.

Module ApprovalFlags.
Definition None_ : Z := 0.
Definition Other : Z := Z.shiftl 1 0.
Definition Owner : Z := Z.shiftl 1 1.
Definition Maintainer : Z := Z.shiftl 1 2.
End ApprovalFlags.

Definition CriticalPopularityThreshold : Z := 5000000.
Definition NormalPopularityThreshold : Z := 200000.

Record StaleReview := {
  reviewer : string;
  reviewedAbbrOid : string;
  date : string }.

(** What [getReopenedDate] returns, the value of
    [lastItem && lastItem.createdAt && new Date(lastItem.createdAt)]:
    [undefined] when there is no such item, the [createdAt] of the item
    when it is the empty string, and else a date. *)
Inductive ReopenedDate :=
| NotReopened
| EmptyCreatedAt
| ReopenedAt (d : JS.Date).

(** The date that [date || lastPushDate] keeps: [undefined] and the empty
    string are falsy, a date is not. *)
Definition truthyDate (date : ReopenedDate) : option JS.Date :=
  match date with
  | ReopenedAt d => Some d
  | NotReopened | EmptyCreatedAt => None
  end.

Record PrInfo := {
  now : string;
  pr_number : Z;
  headCommitOid : string;
  headCommitAbbrOid : string;
  authorIsOwner : bool;
  author : string;
  owners : list string;
  mergeIsRequested : bool;
  ciResult : CIResult;
  ciUrl : option string;
  hasMergeConflict : bool;
  lastPushDate : JS.Date;
  lastCommentDate : JS.Date;
  lastReviewDate : option JS.Date;
  reopenedDate : ReopenedDate;
  reviewersWithStaleReviews : list StaleReview;
  reviewLink : string;
  isChangesRequested : bool;
  approvalFlags : Z;
  dangerLevel : DangerLevel;
  stalenessInDays : JS.number;
  anyPackageIsNew : bool;
  maintainerBlessed : bool;
  hasDismissedReview : bool;
  isFirstContribution : bool;
  popularityLevel : PopularityLevel;
  packages : list string;
  files : list FileInfo }.

(** The five variants that [deriveStateForPR] resolves to: [BotFail],
    [BotError], [BotEnsureRemovedFromProject], [BotNoPackages] and
    [PrInfo]. *)
Inductive Result :=
| BotFail (message : string)                                       (* type: "fail" *)
| BotError (pr_number : Z) (message : string) (author : option string) (* type: "error" *)
| BotEnsureRemovedFromProject (pr_number : Z) (message : string)   (* type: "remove" *)
| BotNoPackages (pr_number : Z)                                    (* type: "no_packages" *)
| Info (i : PrInfo).                                               (* type: "info" *)

(** ** Exceptions and asynchronous computations *)

(** A thrown value, of which the code reads [message] only. *)
Record exn := { message : string }.

Inductive Completion (A : Type) :=
| Normal (a : A)
| Throw (e : exn).
Arguments Normal {A} a.
Arguments Throw {A} e.

(** One call of the fetch collaborator: the revisioned path and the
    optional byte limit. *)
Definition FetchCall : Type := string * option Z.

(** A computation: from the calls made so far to a completion and the calls
    made by the end. *)
Definition M (A : Type) : Type := list FetchCall -> Completion A * list FetchCall.

Definition ret {A} (a : A) : M A := fun log => (Normal a, log).

Definition bind {A B} (m : M A) (k : A -> M B) : M B :=
  fun log =>
    match m log with
    | (Normal a, log') => k a log'
    | (Throw e, log') => (Throw e, log')
    end.

Definition throw {A} (e : exn) : M A := fun log => (Throw e, log).

(** [try { m } catch (e) { h e }] *)
Definition tryCatch {A} (m : M A) (h : exn -> M A) : M A :=
  fun log =>
    match m log with
    | (Normal a, log') => (Normal a, log')
    | (Throw e, log') => h e log'
    end.

(** A synchronous call that may throw, seen as a computation. *)
Definition lift {A} (c : Completion A) : M A := fun log => (c, log).

Notation "'let*' x ':=' m 'in' k" := (bind m (fun x => k))
  (at level 10, x name, m at level 100, k at level 200).

(** [Promise.all(ms)] for promises created in the order of [ms].  Each
    [async] call runs up to its first suspension as soon as it is made, so
    every computation of [ms] issues its requests whether or not another one
    rejects; the rejection reported is that of the first one in [ms]. *)
Fixpoint Promise_all {A} (ms : list (M A)) : M (list A) :=
  match ms with
  | [] => ret []
  | m :: ms' =>
      fun log =>
        let '(c, log1) := m log in
        let '(cs, log2) := Promise_all ms' log1 in
        (match c, cs with
         | Normal a, Normal l => Normal (a :: l)
         | Throw e, _ => Throw e
         | Normal _, Throw e => Throw e
         end, log2)
  end.

(** ** Collaborators and library functions

    What pr-info.ts imports or is handed: the header parser of
    definitelytyped-header-parser, [JSON], the [Date] constructor and
    [toISOString], the string methods that depend on Unicode tables, and the
    helpers of src/util, which are absent from the sources at hand. *)
Record Host := {
  (** [HeaderParser.parseHeaderOrFail(content)]: for each contributor its
      [githubUsername], if it has one; or a throw. *)
  parseHeaderOrFail : string -> Completion (list (option string));
  (** the values of JSON *)
  JSValue : Type;
  JSON_parse : string -> Completion JSValue;
  JSON_stringify : JSValue -> string;
  (** [new Date(s)] *)
  Date_new : string -> JS.Date;
  (** [d.toISOString()] for a valid time value *)
  toISOString : Z -> string;
  toLowerCase : string -> string;
  trim : string -> string;
  (** src/util/util: [daysSince(date, now)] *)
  daysSince : JS.Date -> string -> Z;
  (** src/util/util: [authorNotBot(item)] *)
  authorNotBot : TimelineItem -> bool;
  (** src/util/npm: [getMonthlyDownloadCount(p)] *)
  getMonthlyDownloadCount : string -> Z }.

(** The fetch collaborator ([fetchFile], by default src/util/fetchFile):
    the content of a file at a revision, cut at the byte limit if there is
    one, or absent. *)
Definition FetchFile : Type := string -> option Z -> option string.

Definition callFetch (fetchFile : FetchFile) (p : string) (maxBytes : option Z)
    : M (option string) :=
  fun log => (Normal (fetchFile p maxBytes), (log ++ [(p, maxBytes)])%list).

(** ** Helpers of src/util/util *)

(** Modelled from the spec: [findLast] of src/util/util is absent from the
    sources at hand.  The spec describes it as the one reusable "find last
    element satisfying predicate" operation over an ordered sequence, used
    for the "last" event of each timeline extraction; a missing sequence has
    no such element. *)
Definition findLast {T} (arr : option (list T)) (predicate : T -> bool) : option T :=
  match arr with
  | None => None
  | Some l => List.find predicate (rev l)
  end.

Fixpoint firstDefined {T U} (action : T -> option U) (l : list T) : option U :=
  match l with
  | [] => None
  | x :: l' =>
      match action x with
      | Some u => Some u
      | None => firstDefined action l'
      end
  end.

(** Modelled from the spec: [forEachReverse] of src/util/util is absent from
    the sources at hand.  The spec has the reviews scanned newest-first for
    the first one whose action yields a result. *)
Definition forEachReverse {T U} (arr : option (list T)) (action : T -> option U) : option U :=
  match arr with
  | None => None
  | Some l => firstDefined action (rev l)
  end.

(** ** src/pr-info.ts *)

Definition noNulls {T} (arr : option (list (option T))) : list T :=
  match arr with
  | None => []
  | Some l => omap id l
  end.

Definition getHeadCommit (pr : PullRequest) : option Commit :=
  match commits_nodes pr with
  | None => None
  | Some nodes =>
      match List.filter (fun c => match c with
                                  | Some c => String.eqb (oid (commit c)) (headRefOid pr)
                                  | None => false
                                  end) nodes with
      | Some c :: _ => Some (commit c)
      | _ => None
      end
  end.

(** [/^types\/(.*?)\/.*?[^\/](?:\.(d\.ts|tsx?|md))?$/] *)
Definition packageRoot : JS.regex :=
  JS.RSeq JS.RStart
  (JS.RSeq (JS.lit "types/")
  (JS.RSeq (JS.RGroup 1 (JS.RStarLazy JS.CDot))
  (JS.RSeq (JS.ROne (JS.CChar "/"))
  (JS.RSeq (JS.RStarLazy JS.CDot)
  (JS.RSeq (JS.ROne (JS.CNot "/"))
  (JS.RSeq (JS.ROpt (JS.RSeq (JS.ROne (JS.CChar "."))
              (JS.RGroup 2
                 (JS.RAlt (JS.lit "d.ts")
                 (JS.RAlt (JS.RSeq (JS.lit "ts") (JS.ROpt (JS.ROne (JS.CChar "x"))))
                          (JS.lit "md"))))))
           JS.REnd)))))).

(** [/.*\//] *)
Definition upToSlash : JS.regex :=
  JS.RSeq (JS.RStarGreedy JS.CDot) (JS.ROne (JS.CChar "/")).

(** [/^\.+$/] *)
Definition allDots : JS.regex :=
  JS.RSeq JS.RStart
  (JS.RSeq (JS.ROne (JS.CChar "."))
  (JS.RSeq (JS.RStarGreedy (JS.CChar ".")) JS.REnd)).

(** [JSON.stringify({ "extends": "dtslint/dt.json" })] *)
Definition recommendedTslint : string :=
  "{" +:+ String "034" "extends" +:+ String "034" ":" +:+
  String "034" "dtslint/dt.json" +:+ String "034" "}".

Definition getPackagesTouched (files : list FileInfo) : list string :=
  JS.Set_of (omap package files).

(** [partition(arr, sorter)]: the elements of each key in the order of
    [arr], the keys in the order of their first element. *)
Fixpoint partition_add {T K} `{EqDecision K} (res : list (K * list T)) (key : K) (el : T)
    : list (K * list T) :=
  match res with
  | [] => [(key, [el])]
  | (k, target) :: res' =>
      if decide (k = key) then (k, target ++ [el])%list :: res'
      else (k, target) :: partition_add res' key el
  end.

Definition partition {T K} `{EqDecision K} (arr : list T) (sorter : T -> K)
    : list (K * list T) :=
  fold_left (fun res el => partition_add res (sorter el) el) arr [].

Fixpoint partition_get {T K} `{EqDecision K} (res : list (K * list T)) (key : K)
    : option (list T) :=
  match res with
  | [] => None
  | (k, target) :: res' => if decide (k = key) then Some target else partition_get res' key
  end.

Definition getDangerLevel (categorizedFiles : list FileInfo) : DangerLevel :=
  if existsb (fun f => bool_decide (kind f = infrastructure)) categorizedFiles then
    Infrastructure
  else
    let packagesTouched := getPackagesTouched categorizedFiles in
    if (List.length packagesTouched =? 0)%nat then Infrastructure
    else if (1 <? List.length packagesTouched)%nat then MultiplePackagesEdited
    else if existsb (fun f => bool_decide (kind f = package_meta)) categorizedFiles then
      ScopedAndConfiguration
    else if existsb (fun f => bool_decide (kind f = test)) categorizedFiles then
      ScopedAndTested
    else ScopedAndUntested.

(** The loop of [getPopularityLevelFromDownloads] over the entries that
    remain, [popularityLevel] being the level reached so far. *)
Fixpoint popularityLoop (downloads : list Z) (popularityLevel : PopularityLevel)
    : PopularityLevel :=
  match downloads with
  | [] => popularityLevel
  | d :: rest =>
      if CriticalPopularityThreshold <? d then Critical
      else if NormalPopularityThreshold <? d then popularityLoop rest Popular
      else popularityLoop rest popularityLevel
  end.

(** [downloadsPerPackage] is the record as [for ... in] enumerates it. *)
Definition getPopularityLevelFromDownloads (downloadsPerPackage : JS.JSMap Z)
    : PopularityLevel :=
  popularityLoop (map snd downloadsPerPackage) Well_liked_by_everyone.

(** The result of [getCIResult]. *)
Record CIInfo := { ci_ciResult : CIResult; ci_ciUrl : option string }.

Definition getCIResult (headCommit : Commit) : CIInfo :=
  let totalStatusChecks :=
    match checkSuites_nodes headCommit with
    | None => None
    | Some nodes =>
        List.find (fun check =>
                     match check with
                     | Some {| cs_app := Some {| app_name := Some name |} |} =>
                         JS.includes name "GitHub Actions"
                     | _ => false
                     end) nodes
    end in
  match totalStatusChecks with
  | Some (Some check) =>
      match cs_conclusion check with
      | Some SUCCESS => {| ci_ciResult := Pass; ci_ciUrl := None |}
      | Some FAILURE | Some SKIPPED | Some TIMED_OUT =>
          {| ci_ciResult := Fail; ci_ciUrl := Some (cs_url check) |}
      | _ => {| ci_ciResult := Pending; ci_ciUrl := None |}
      end
  | _ => {| ci_ciResult := Missing; ci_ciUrl := None |}
  end.

(** The value of [staleReviewAuthorsByCommit] at a commit. *)
Record StaleInfo := { si_reviewer : string; si_date : string }.

(** The variables of the loop of [analyzeReviews]. *)
Record ReviewState := {
  hasUpToDateReview : JS.JSSet;
  staleReviewAuthorsByCommit : JS.JSMap StaleInfo;
  rs_lastReviewDate : option JS.Date;
  rs_isChangesRequested : bool;
  rs_approvalFlags : Z }.

(** What [analyzeReviews] returns. *)
Record ReviewAnalysis := {
  ra_lastReviewDate : option JS.Date;
  ra_reviewersWithStaleReviews : list StaleReview;
  ra_approvalFlags : Z;
  ra_isChangesRequested : bool }.

(** What [getOwnersOfPackages] returns. *)
Record OwnerInfo := {
  oi_error : option string;
  oi_allOwners : list string;
  oi_anyPackageIsNew : bool }.

Section Derivation.
Variable H : Host.

(** Either: when the PR was last opened, or switched to ready from draft.
    For an item whose [createdAt] is the empty string the [&&] chain stops
    at that string and returns it. *)
Definition getReopenedDate (timelineItems : option (list (option TimelineItem)))
    : ReopenedDate :=
  let lastItem :=
    findLast timelineItems
      (fun item => match item with
                   | Some item => String.eqb (typename item) "ReopenedEvent"
                                  || String.eqb (typename item) "ReadyForReviewEvent"
                   | None => false
                   end) in
  match lastItem with
  | Some (Some lastItem) =>
      if String.eqb (createdAt lastItem) "" then EmptyCreatedAt
      else ReopenedAt (Date_new H (createdAt lastItem))
  | _ => NotReopened
  end.

Definition getLastCommentishActivityDate
    (timelineItems : option (list (option TimelineItem)))
    (reviews : option (list (option Review))) : option JS.Date :=
  let lastIssueComment :=
    mjoin (findLast timelineItems
      (fun item => match item with
                   | Some item => String.eqb (typename item) "IssueComment"
                                  && authorNotBot H item
                   | None => false
                   end)) in
  let lastReviewComment :=
    forEachReverse reviews
      (fun review =>
         mjoin (findLast (review ≫= r_comments_nodes)
           (fun comment => match comment ≫= rc_author with
                           | Some a => negb (String.eqb (login a) "")
                           | None => false
                           end))) in
  match lastIssueComment, lastReviewComment with
  | Some i, Some r =>
      Some (Date_new H (JS.sort2_snd (createdAt i) (rc_createdAt r)))
  | Some i, None => Some (Date_new H (createdAt i))
  | None, Some r => Some (Date_new H (rc_createdAt r))
  | None, None => None
  end.

Definition getLastMaintainerBlessingDate
    (timelineItems : option (list (option TimelineItem))) : option JS.Date :=
  let lastColumnChange :=
    findLast timelineItems
      (fun item => match item with
                   | Some item => String.eqb (typename item) "MovedColumnsInProjectEvent"
                                  && authorNotBot H item
                   | None => false
                   end) in
  match lastColumnChange with
  | Some (Some lastColumnChange) => Some (Date_new H (createdAt lastColumnChange))
  | _ => None
  end.

(** The two rules registered on [configOK].  Only these own properties are
    modelled: a basename that names a property which every function object
    inherits is outside the model. *)
Definition configOK_OTHER_FILES (contents : string) : Completion bool :=
  (* not empty, all path parts are not empty and not all dots *)
  Normal ((0 <? JS.length contents) &&
          forallb (fun line =>
                     String.eqb line "" ||
                     forallb (fun part =>
                                (0 <? JS.length part) &&
                                negb (bool_decide (is_Some (JS.exec allDots part))))
                             (JS.split "/" line))
                  (JS.split "010" contents)).

Definition configOK_tslint (contents : string) : Completion bool :=
  (* just the recommended form *)
  match JSON_parse H contents with
  | Throw e => Throw e
  | Normal v => Normal (String.eqb (JSON_stringify H v) recommendedTslint)
  end.

Definition configOK_rules : JS.JSMap (string -> Completion bool) :=
  [("OTHER_FILES.txt", configOK_OTHER_FILES); ("tslint.json", configOK_tslint)].

Definition configOK (path : string) (getContents : M (option string)) : M bool :=
  let basename := JS.replace_empty upToSlash path in
  match JS.Map_get configOK_rules basename with
  | None => ret false
  | Some rule =>
      let* text := getContents in
      match text with
      | None => ret false
      | Some text => lift (rule text)
      end
  end.

Definition categorizeFile (path : string) (contents : M (option string)) : M FileInfo :=
  match JS.exec packageRoot path with
  | None => ret {| path := path; kind := infrastructure; package := None |}
  | Some m =>
      let pkg := JS.capture (JS.m_captures m) 1 in
      let suffix := default "" (JS.capture (JS.m_captures m) 2) in
      if String.eqb suffix "d.ts" then
        ret {| path := path; kind := definition; package := pkg |}
      else if String.eqb suffix "ts" || String.eqb suffix "tsx" then
        ret {| path := path; kind := test; package := pkg |}
      else if String.eqb suffix "md" then
        ret {| path := path; kind := markdown; package := pkg |}
      else
        let* ok := configOK path contents in
        ret {| path := path;
               kind := if ok : bool then package_meta_ok else package_meta;
               package := pkg |}
  end.

Definition authorSaysReadyToMerge (info : PullRequest) : bool :=
  match comments_nodes info with
  | None => false
  | Some nodes =>
      existsb (fun comment =>
                 match comment with
                 | Some comment =>
                     bool_decide (login <$> c_author comment = login <$> pr_author info)
                     && JS.startsWith (toLowerCase H (trim H (c_body comment))) "ready to merge"
                 | None => false
                 end) nodes
  end.

(** One turn of the loop of [analyzeReviews].  [authorLogin] is
    [prInfo.author!.login]. *)
Definition analyzeReviews_step (headCommitOid authorLogin : string)
    (isOwner : string -> bool) (st : ReviewState) (r : option Review) : ReviewState :=
  match r with
  | Some {| r_commit := Some c; r_author := Some a; r_submittedAt := submittedAt;
            r_state := rstate; r_authorAssociation := assoc |} =>
      (* Skip nulls *)
      if String.eqb (login a) "" then st
      (* Skip self-reviews *)
      else if String.eqb (login a) authorLogin then st
      else if negb (String.eqb (rv_oid c) headCommitOid) then
        (* Stale review *)
        (* Reviewers with reviews of the current commit are not stale *)
        if negb (JS.Set_has (hasUpToDateReview st) (login a)) then
          {| hasUpToDateReview := hasUpToDateReview st;
             staleReviewAuthorsByCommit :=
               JS.Map_set (staleReviewAuthorsByCommit st) (rv_abbreviatedOid c)
                 {| si_reviewer := login a; si_date := submittedAt |};
             rs_lastReviewDate := rs_lastReviewDate st;
             rs_isChangesRequested := rs_isChangesRequested st;
             rs_approvalFlags := rs_approvalFlags st |}
        else st
      else if negb (JS.Set_has (hasUpToDateReview st) (login a)) then
        (* Most recent review of head commit for this author *)
        let reviewDate := Date_new H submittedAt in
        {| hasUpToDateReview := JS.Set_add (hasUpToDateReview st) (login a);
           staleReviewAuthorsByCommit := staleReviewAuthorsByCommit st;
           rs_lastReviewDate :=
             match rs_lastReviewDate st with
             | Some lastReviewDate =>
                 if JS.Date_gt lastReviewDate reviewDate then Some lastReviewDate
                 else Some reviewDate
             | None => Some reviewDate
             end;
           rs_isChangesRequested :=
             if decide (rstate = CHANGES_REQUESTED) then true
             else rs_isChangesRequested st;
           rs_approvalFlags :=
             if decide (rstate = CHANGES_REQUESTED) then rs_approvalFlags st
             else if decide (rstate = APPROVED) then
               if bool_decide (assoc = MEMBER) || bool_decide (assoc = OWNER) then
                 Z.lor (rs_approvalFlags st) ApprovalFlags.Maintainer
               else if isOwner (login a) then
                 Z.lor (rs_approvalFlags st) ApprovalFlags.Owner
               else Z.lor (rs_approvalFlags st) ApprovalFlags.Other
             else rs_approvalFlags st |}
      else st
  | _ => st
  end.

Definition analyzeReviews_init : ReviewState :=
  {| hasUpToDateReview := [];
     staleReviewAuthorsByCommit := [];
     rs_lastReviewDate := None;
     rs_isChangesRequested := false;
     rs_approvalFlags := ApprovalFlags.None_ |}.

(** The loop of [analyzeReviews], over the reviews in reverse order. *)
Definition analyzeReviews_loop (headCommitOid authorLogin : string)
    (isOwner : string -> bool) (reviews : list (option Review)) : ReviewState :=
  fold_left (analyzeReviews_step headCommitOid authorLogin isOwner) reviews
    analyzeReviews_init.

Definition analyzeReviews (prInfo : PullRequest) (authorLogin : string)
    (isOwner : string -> bool) : ReviewAnalysis :=
  let headCommitOid := headRefOid prInfo in
  (* Do this in reverse order so we can detect up-to-date-reviews correctly *)
  let reviews := rev (default [] (reviews_nodes prInfo)) in
  let st := analyzeReviews_loop headCommitOid authorLogin isOwner reviews in
  {| ra_lastReviewDate := rs_lastReviewDate st;
     ra_reviewersWithStaleReviews :=
       map (fun '(commit, info) =>
              {| reviewedAbbrOid := commit;
                 reviewer := si_reviewer info;
                 date := si_date info |})
           (staleReviewAuthorsByCommit st);
     ra_approvalFlags := rs_approvalFlags st;
     ra_isChangesRequested := rs_isChangesRequested st |}.

Fixpoint getPopularityLevel_loop (packagesTouched : list string)
    (popularityLevel : PopularityLevel) : PopularityLevel :=
  match packagesTouched with
  | [] => popularityLevel
  | p :: rest =>
      let downloads := getMonthlyDownloadCount H p in
      if CriticalPopularityThreshold <? downloads then Critical
      else if NormalPopularityThreshold <? downloads then
        getPopularityLevel_loop rest Popular
      else getPopularityLevel_loop rest popularityLevel
  end.

Definition getPopularityLevel (packagesTouched : list string) : PopularityLevel :=
  getPopularityLevel_loop packagesTouched Well_liked_by_everyone.

Definition getOwnersForPackage (packageName : string) (fetchFile : FetchFile)
    : M (option (list string)) :=
  let indexDts := "master:types/" +:+ packageName +:+ "/index.d.ts" in
  let* indexDtsContent := callFetch fetchFile indexDts (Some 10240) in (* grab at most 10k *)
  match indexDtsContent with
  | None => ret None
  | Some indexDtsContent =>
      let* parsed := lift (parseHeaderOrFail H indexDtsContent) in
      ret (Some (omap id parsed))
  end.

(** The loop of [getOwnersOfPackages] over the packages that remain.  The
    [try] block holds the call of [getOwnersForPackage] only; its [catch]
    sets [error] and leaves the loop. *)
Fixpoint getOwnersOfPackages_loop (packages : list string) (fetchFile : FetchFile)
    (allOwners : JS.JSSet) (anyPackageIsNew : bool) : M OwnerInfo :=
  match packages with
  | [] => ret {| oi_error := None; oi_allOwners := allOwners;
                 oi_anyPackageIsNew := anyPackageIsNew |}
  | p :: rest =>
      let* attempt :=
        tryCatch (let* owners := getOwnersForPackage p fetchFile in ret (inl owners))
                 (fun e => ret (inr ("error parsing owners: " +:+ message e))) in
      match attempt with
      | inr error =>
          ret {| oi_error := Some error; oi_allOwners := allOwners;
                 oi_anyPackageIsNew := anyPackageIsNew |}
      | inl None => getOwnersOfPackages_loop rest fetchFile allOwners true
      | inl (Some owners) =>
          getOwnersOfPackages_loop rest fetchFile
            (fold_left JS.Set_add owners allOwners) anyPackageIsNew
      end
  end.

Definition getOwnersOfPackages (packages : list string) (fetchFile : FetchFile)
    : M OwnerInfo :=
  getOwnersOfPackages_loop packages fetchFile [] false.

(** [isOwner] of [deriveStateForPR], over the owners it closes on. *)
Definition isOwner (allOwners : list string) (login : string) : bool :=
  existsb (fun k => String.eqb (toLowerCase H k) (toLowerCase H login)) allOwners.

(** The classification of the changed files by [deriveStateForPR]. *)
Definition categorizeFiles (prInfo : PullRequest) (headCommit : Commit)
    (fetchFile : FetchFile) : M (list FileInfo) :=
  Promise_all
    (map (fun f => categorizeFile (fn_path f)
                     (callFetch fetchFile (oid headCommit +:+ ":" +:+ fn_path f) None))
         (noNulls (files_nodes prInfo))).

(** The [info] result, once the files are classified and the owners
    resolved without error. *)
Definition assembleInfo (prInfo : PullRequest) (author : Actor) (headCommit : Commit)
    (getDownloads : option (list string -> JS.JSMap Z)) (getNow : Z)
    (categorizedFiles : list FileInfo) (packages : list string)
    (anyPackageIsNew : bool) (allOwners : list string) : PrInfo :=
  let authorIsOwner := isOwner allOwners (login author) in
  let isFirstContribution :=
    bool_decide (authorAssociation prInfo = FIRST_TIME_CONTRIBUTOR) in
  let freshReviewsByState := partition (noNulls (reviews_nodes prInfo)) r_state in
  let hasDismissedReview :=
    match partition_get freshReviewsByState DISMISSED with
    | Some l => negb (List.length l =? 0)%nat
    | None => false
    end in
  let lastPushDate := Date_new H (pushedDate headCommit) in
  let lastCommentDate :=
    default lastPushDate
      (getLastCommentishActivityDate (timelineItems_nodes prInfo) (reviews_nodes prInfo)) in
  let reopenedDate := getReopenedDate (timelineItems_nodes prInfo) in
  let now := toISOString H getNow in
  let reviewAnalysis := analyzeReviews prInfo (login author) (isOwner allOwners) in
  let lastBlessing := getLastMaintainerBlessingDate (timelineItems_nodes prInfo) in
  let ci := getCIResult headCommit in
  {| now := now;
     pr_number := number prInfo;
     author := login author;
     owners := allOwners;
     dangerLevel := getDangerLevel categorizedFiles;
     headCommitAbbrOid := abbreviatedOid headCommit;
     headCommitOid := oid headCommit;
     mergeIsRequested := authorSaysReadyToMerge prInfo;
     stalenessInDays :=
       JS.Math_min
         (map (fun date => daysSince H (default lastPushDate date) now)
              [Some lastPushDate; Some lastCommentDate; truthyDate reopenedDate;
               ra_lastReviewDate reviewAnalysis]);
     lastPushDate := lastPushDate;
     reopenedDate := reopenedDate;
     lastCommentDate := lastCommentDate;
     maintainerBlessed :=
       match lastBlessing with
       | Some lastBlessing => JS.Date_gt lastBlessing lastPushDate
       | None => false
       end;
     reviewLink :=
       "https://github.com/DefinitelyTyped/DefinitelyTyped/pull/"
       +:+ pretty (number prInfo) +:+ "/files";
     hasMergeConflict := bool_decide (mergeable prInfo = CONFLICTING);
     authorIsOwner := authorIsOwner;
     isFirstContribution := isFirstContribution;
     popularityLevel :=
       match getDownloads with
       | Some getDownloads => getPopularityLevelFromDownloads (getDownloads packages)
       | None => getPopularityLevel packages
       end;
     anyPackageIsNew := anyPackageIsNew;
     packages := packages;
     files := categorizedFiles;
     hasDismissedReview := hasDismissedReview;
     ciResult := ci_ciResult ci;
     ciUrl := ci_ciUrl ci;
     lastReviewDate := ra_lastReviewDate reviewAnalysis;
     reviewersWithStaleReviews := ra_reviewersWithStaleReviews reviewAnalysis;
     approvalFlags := ra_approvalFlags reviewAnalysis;
     isChangesRequested := ra_isChangesRequested reviewAnalysis |}.

(** The GQL response => Useful data for us.  [getNow] is the time value of
    the date that the clock returns.  The partition of the approvals by
    role, which the source computes and never reads, is left out.  The
    content accessor, [getDownloads], the download counter and the clock
    are functions that return: the source awaits or calls them without a
    catch, and a rejection of theirs, which would reject the derivation, is
    outside the model. *)
Definition deriveStateForPR (info : PRQueryResult) (fetchFile : FetchFile)
    (getDownloads : option (list string -> JS.JSMap Z)) (getNow : Z) : M Result :=
  match repository info ≫= pullRequest with
  | None => ret (BotFail "No PR with this number exists")
  | Some prInfo =>
      let botError pr_number message :=
        BotError pr_number message (login <$> pr_author prInfo) in
      match pr_author prInfo with
      | None => ret (botError (number prInfo) "PR author does not exist")
      | Some author =>
          match getHeadCommit prInfo with
          | None => ret (botError (number prInfo) "No head commit found")
          | Some headCommit =>
              if negb (bool_decide (state prInfo = OPEN)) then
                ret (BotEnsureRemovedFromProject (number prInfo) "PR is not active")
              else if isDraft prInfo then
                ret (BotEnsureRemovedFromProject (number prInfo) "PR is a draft")
              else
                let* categorizedFiles := categorizeFiles prInfo headCommit fetchFile in
                let packages := getPackagesTouched categorizedFiles in
                if (List.length packages =? 0)%nat then ret (BotNoPackages (number prInfo))
                else
                  let* ownerInfo := getOwnersOfPackages packages fetchFile in
                  match oi_error ownerInfo with
                  | Some error => ret (botError (number prInfo) error)
                  | None =>
                      ret (Info (assembleInfo prInfo author headCommit getDownloads
                                   getNow categorizedFiles packages
                                   (oi_anyPackageIsNew ownerInfo)
                                   (oi_allOwners ownerInfo)))
                  end
          end
      end
  end.

End Derivation.

(** ** The notions that the properties are stated with *)

(** A review that the loop of [analyzeReviews] does not skip: it has a commit
    [c] and an author [a] with a login, and is not a self-review. *)
Definition counted (authorLogin : string) (r : Review) (a : Actor) (c : ReviewCommit) : Prop :=
  r_commit r = Some c ∧ r_author r = Some a ∧ login a ≠ "" ∧ login a ≠ authorLogin.

(** Among [reviews] there is a counted review of the head commit by [x]. *)
Definition currentIn (headCommitOid authorLogin : string)
    (reviews : list (option Review)) (x : string) : Prop :=
  ∃ r a c, Some r ∈ reviews ∧ counted authorLogin r a c ∧
           login a = x ∧ rv_oid c = headCommitOid.

(** The entry of [reviewersWithStaleReviews] that a review gives. *)
Definition staleEntry (r : Review) (a : Actor) (c : ReviewCommit) : StaleReview :=
  {| reviewer := login a;
     reviewedAbbrOid := rv_abbreviatedOid c;
     date := r_submittedAt r |}.

(** The reading of the review reconciler under which the first qualifying
    review met in reverse order stays the stale review of its commit: a
    counted review [r] of a commit other than the head, whose author has no
    later counted review of the head commit, and that no later review of
    the same commit precedes in reverse order, is the one listed. *)
Definition first_seen_in_reverse_wins : Prop :=
  ∀ (H : Host) (prInfo : PullRequest) (authorLogin : string) (isOwner : string → bool)
    (pre post : list (option Review)) (r : Review) (a : Actor) (c : ReviewCommit),
    reviews_nodes prInfo = Some (pre ++ Some r :: post)%list →
    counted authorLogin r a c →
    rv_oid c ≠ headRefOid prInfo →
    ¬ currentIn (headRefOid prInfo) authorLogin post (login a) →
    (∀ r' c', Some r' ∈ post → r_commit r' = Some c' →
              rv_abbreviatedOid c' ≠ rv_abbreviatedOid c) →
    staleEntry r a c ∈
      ra_reviewersWithStaleReviews (analyzeReviews H prInfo authorLogin isOwner).

(** A timeline item that counts as a maintainer blessing. *)
Definition blessing (H : Host) (item : TimelineItem) : Prop :=
  typename item = "MovedColumnsInProjectEvent" ∧ authorNotBot H item = true.

(** The header of a package as the owner resolver reads it: absent, the
    handles it declares, or a throw of the header parser. *)
Definition ownersOf (H : Host) (fetchFile : FetchFile) (p : string)
    : Completion (option (list string)) :=
  match fetchFile ("master:types/" +:+ p +:+ "/index.d.ts") (Some 10240) with
  | None => Normal None
  | Some content =>
      match parseHeaderOrFail H content with
      | Throw e => Throw e
      | Normal contributors => Normal (Some (omap id contributors))
      end
  end.

(** The request that the owner resolver makes for a package. *)
Definition ownersCall (p : string) : FetchCall :=
  ("master:types/" +:+ p +:+ "/index.d.ts", Some 10240).

(** The handles declared for a package, none if it has no header. *)
Definition declaredOwners (H : Host) (fetchFile : FetchFile) (p : string) : list string :=
  match ownersOf H fetchFile p with
  | Normal (Some owners) => owners
  | _ => []
  end.

Definition isNewPackage (H : Host) (fetchFile : FetchFile) (p : string) : bool :=
  match ownersOf H fetchFile p with
  | Normal None => true
  | _ => false
  end.

(** ** A host and snapshots for the examples *)

Module Example.

(** The value of a string of decimal digits. *)
Fixpoint digits (s : string) (acc : Z) : option Z :=
  match s with
  | EmptyString => Some acc
  | String a s' =>
      let n := Z.of_nat (nat_of_ascii a) in
      if (48 <=? n) && (n <=? 57) then digits s' (10 * acc + (n - 48)) else None
  end.

(** Dates are written as a number of milliseconds. *)
Definition newDate (s : string) : JS.Date :=
  match s with
  | EmptyString => JS.InvalidDate
  | _ => match digits s 0 with
         | Some t => JS.ValidDate t
         | None => JS.InvalidDate
         end
  end.

Definition lower (a : ascii) : ascii :=
  let n := nat_of_ascii a in
  if ((65 <=? n) && (n <=? 90))%nat then ascii_of_nat (n + 32) else a.

Fixpoint lowerCase (s : string) : string :=
  match s with
  | EmptyString => EmptyString
  | String a s' => String (lower a) (lowerCase s')
  end.

(** Leading spaces only: the examples have no trailing ones. *)
Fixpoint trimStart (s : string) : string :=
  match s with
  | String " " s' => trimStart s'
  | _ => s
  end.

(** A header is a list of handles separated by commas; one that starts
    with [!] does not parse. *)
Definition parseHeader (content : string) : Completion (list (option string)) :=
  if String.prefix "!" content then Throw {| message := "Could not parse header" |}
  else Normal (map Some (JS.split "," content)).

(** A JSON that has one document, the recommended lint configuration. *)
Definition parseJSON (text : string) : Completion string :=
  if String.eqb text recommendedTslint then Normal text
  else Throw {| message := "Unexpected end of JSON input" |}.

Definition days (d : JS.Date) (now : string) : Z :=
  match d, newDate now with
  | JS.ValidDate t, JS.ValidDate n => (n - t) / 86400000
  | _, _ => 0
  end.

Definition host : Host :=
  {| parseHeaderOrFail := parseHeader;
     JSValue := string;
     JSON_parse := parseJSON;
     JSON_stringify := fun v => v;
     Date_new := newDate;
     toISOString := pretty;
     toLowerCase := lowerCase;
     trim := trimStart;
     daysSince := days;
     authorNotBot := fun item =>
       negb (bool_decide (login <$> ti_actor item = Some "typescript-bot"));
     getMonthlyDownloadCount := fun _ => 1000 |}.

(** The repository: two packages with a header, one whose header does not
    parse, and a lint configuration that is cut short. *)
Definition fetchFile : FetchFile := fun p _ =>
  if String.eqb p "master:types/foo/index.d.ts" then Some "ann,bob"
  else if String.eqb p "master:types/bar/index.d.ts" then Some "bob,cat"
  else if String.eqb p "master:types/bad/index.d.ts" then Some "!"
  else if String.eqb p "h2:types/foo/tslint.json" then Some "{"
  else None.

Definition headCommit (o : string) (pushed : string) : option CommitNode :=
  Some {| commit := {| oid := o; abbreviatedOid := o; pushedDate := pushed;
                       checkSuites_nodes := None |} |}.

Definition review (who : string) (on : string) (at_ : string)
    (st : PullRequestReviewState) : option Review :=
  Some {| r_author := Some {| login := who |};
          r_commit := Some {| rv_oid := on; rv_abbreviatedOid := on |};
          r_submittedAt := at_;
          r_state := st;
          r_authorAssociation := CONTRIBUTOR;
          r_comments_nodes := None |}.

Definition moved (who : string) (at_ : string) : option TimelineItem :=
  Some {| typename := "MovedColumnsInProjectEvent"; createdAt := at_;
          ti_actor := Some {| login := who |} |}.

(** Pull request 42 at head commit [h2], pushed at time 5000. *)
Definition pr (who : option Actor) (st : PullRequestState) (draft : bool)
    (paths : list string) (reviews : list (option Review))
    (timeline : list (option TimelineItem)) : PullRequest :=
  {| number := 42;
     pr_author := who;
     headRefOid := "h2";
     commits_nodes := Some [headCommit "h1" "1000"; headCommit "h2" "5000"];
     state := st;
     isDraft := draft;
     files_nodes := Some (map (fun p => Some {| fn_path := p |}) paths);
     authorAssociation := CONTRIBUTOR;
     reviews_nodes := Some reviews;
     timelineItems_nodes := Some timeline;
     comments_nodes := None;
     mergeable := MERGEABLE |}.

Definition snapshot (p : PullRequest) : PRQueryResult :=
  {| repository := Some {| pullRequest := Some p |} |}.

Definition dana : option Actor := Some {| login := "dana" |}.

(** An open pull request by [dana] on package [foo], reviewed by [ann] on
    the commit before the head and then on the head, and blessed at time
    9000. *)
Definition ordinary : PullRequest :=
  pr dana OPEN false ["types/foo/index.d.ts"; "types/foo/foo-tests.ts"]
     [review "ann" "h1" "2000" APPROVED; review "ann" "h2" "6000" APPROVED]
     [moved "rex" "9000"].

(** Two reviews of commit [h1] by [ann], none of the head. *)
Definition twiceStale : PullRequest :=
  pr dana OPEN false ["types/foo/index.d.ts"]
     [review "ann" "h1" "2000" COMMENTED; review "ann" "h1" "3000" COMMENTED] [].

Definition run (p : PullRequest) : Completion Result * list FetchCall :=
  deriveStateForPR host (snapshot p) fetchFile None 100000 [].

Definition h2 : Commit :=
  {| oid := "h2"; abbreviatedOid := "h2"; pushedDate := "5000";
     checkSuites_nodes := None |}.

(** The [info] result of [ordinary]. *)
Definition ordinaryInfo : PrInfo :=
  assembleInfo host ordinary {| login := "dana" |} h2 None 100000
    [{| path := "types/foo/index.d.ts"; kind := definition; package := Some "foo" |};
     {| path := "types/foo/foo-tests.ts"; kind := test; package := Some "foo" |}]
    ["foo"] false ["ann"; "bob"].

End Example.

(** ** src/queries/recently-merged-prs-project.ts *)

Record Card := { card_id : string; card_updatedAt : string }.

Record ProjectColumn := {
  column_name : string;
  cards_nodes : option (list (option Card)) }.

Record Project := { columns_nodes : option (list (option ProjectColumn)) }.

Record ProjectRepository := { project : option Project }.

(** The result of the project query: [errors], which only its truthiness
    and [JSON.stringify] look at, and [data.repository]. *)
Record ProjectQueryResult (H : Host) := {
  errors : option (JSValue H);
  pq_repository : option ProjectRepository }.
Arguments errors {H} _.
Arguments pq_repository {H} _.

(** [l.join(sep)] *)
Fixpoint Array_join (sep : string) (l : list string) : string :=
  match l with
  | [] => ""
  | [x] => x
  | x :: l' => x +:+ sep +:+ Array_join sep l'
  end.

(** The text of [nodes?.map(n => n?.name)] inside a template literal:
    [undefined] for no array, and else the names joined by commas, a
    missing name being empty. *)
Definition templateNames (names : option (list (option string))) : string :=
  match names with
  | None => "undefined"
  | Some l => Array_join "," (map (default "") l)
  end.

(** [getRecentlyUpdatedPRProjectBoardCards], from the result of the query
    on: the cards of the column "Recently Merged". *)
Definition getRecentlyUpdatedPRProjectBoardCards (H : Host)
    (results : ProjectQueryResult H) : Completion (option (list (option Card))) :=
  match errors results with
  | Some errs => Throw {| message := JSON_stringify H errs |}
  | None =>
      match pq_repository results ≫= project with
      | None => Throw {| message := "No project found" |}
      | Some project =>
          let recentlyMergedColumn :=
            match columns_nodes project with
            | None => None
            | Some nodes =>
                List.find (fun c => match c with
                                    | Some c => String.eqb (column_name c) "Recently Merged"
                                    | None => false
                                    end) nodes
            end in
          match recentlyMergedColumn with
          | Some (Some recentlyMergedColumn) => Normal (cards_nodes recentlyMergedColumn)
          | _ =>
              Throw {| message :=
                "Could not find the 'Recently Merged' column in " +:+
                templateNames
                  (option_map (map (option_map column_name)) (columns_nodes project)) |}
          end
      end
  end.

(** ** Further notions for the review reconciler *)

(** The bit that an approving review adds to [approvalFlags]; nothing for
    a review in another state. *)
Definition approvalOf (isOwner : string → bool) (r : Review) (a : Actor) : Z :=
  if decide (r_state r = APPROVED) then
    if bool_decide (r_authorAssociation r = MEMBER)
       || bool_decide (r_authorAssociation r = OWNER) then ApprovalFlags.Maintainer
    else if isOwner (login a) then ApprovalFlags.Owner
    else ApprovalFlags.Other
  else ApprovalFlags.None_.

(** [lastReviewDate && lastReviewDate > reviewDate ? lastReviewDate : reviewDate] *)
Definition laterDate (lastReviewDate : option JS.Date) (reviewDate : JS.Date) : JS.Date :=
  match lastReviewDate with
  | Some lastReviewDate =>
      if JS.Date_gt lastReviewDate reviewDate then lastReviewDate else reviewDate
  | None => reviewDate
  end.

(** In the turns of [l] from the state [st] on, the review [r] by [a] is
    the one that counts for the head commit: a counted review of the head
    commit whose author has no up-to-date review when its turn comes. *)
Definition effectiveIn (H : Host) (headCommitOid authorLogin : string)
    (isOwner : string → bool) (l : list (option Review)) (st : ReviewState)
    (r : Review) (a : Actor) : Prop :=
  ∃ l1 l2 c,
    l = (l1 ++ Some r :: l2)%list ∧ counted authorLogin r a c ∧
    rv_oid c = headCommitOid ∧
    login a ∉ hasUpToDateReview
      (fold_left (analyzeReviews_step H headCommitOid authorLogin isOwner) l1 st).

(** The review [r] by [a] is the most recent counted review of the head
    commit by its author. *)
Definition latestOnHead (headCommitOid authorLogin : string)
    (reviews : list (option Review)) (r : Review) (a : Actor) : Prop :=
  ∃ pre post c,
    reviews = (pre ++ Some r :: post)%list ∧ counted authorLogin r a c ∧
    rv_oid c = headCommitOid ∧
    ¬ currentIn headCommitOid authorLogin post (login a).

(** A review that the loop of [analyzeReviews] skips. *)
Definition skipped (authorLogin : string) (r : option Review) : Prop :=
  ∀ r0 a c, r = Some r0 → ¬ counted authorLogin r0 a c.

(** ** Further notions for the file classifier *)

(** Every character of [s] passes the test [P]. *)
Fixpoint sall (P : ascii → bool) (s : string) : bool :=
  match s with
  | EmptyString => true
  | String a s' => P a && sall P s'
  end.

(** A character that may occur in a package name or in the stem of a file
    name: not a slash and not a line terminator. *)
Definition segmentChar (a : ascii) : bool :=
  negb (Ascii.eqb a "/") && negb (JS.lineTerminator a).

(** The kind that [categorizeFile] gives for each of the suffixes it knows. *)
Definition suffixKinds : list (string * FileKind) :=
  [("d.ts", definition); ("ts", test); ("tsx", test); ("md", markdown)].

(** ** Further notions for the timeline and the checks *)

(** A timeline item that reopens the pull request or marks it ready. *)
Definition reopening (item : TimelineItem) : Prop :=
  typename item = "ReopenedEvent" ∨ typename item = "ReadyForReviewEvent".

(** A timeline item that is a comment by someone who is not a bot. *)
Definition humanComment (H : Host) (item : TimelineItem) : Prop :=
  typename item = "IssueComment" ∧ authorNotBot H item = true.

(** A review comment whose author has a login. *)
Definition signedComment (comment : ReviewComment) : Prop :=
  ∃ a, rc_author comment = Some a ∧ login a ≠ "".

(** A check suite of the GitHub Actions app. *)
Definition actionsSuite (check : CheckSuite) : Prop :=
  ∃ app name, cs_app check = Some app ∧ app_name app = Some name ∧
              JS.includes name "GitHub Actions" = true.

(** ** Further notions for the patterns *)

(** The part of the package-root pattern after the package and its slash:
    [.*?[^\/](?:\.(d\.ts|tsx?|md))?$] *)
Definition packageRootTail : JS.regex :=
  JS.RSeq (JS.RStarLazy JS.CDot)
  (JS.RSeq (JS.ROne (JS.CNot "/"))
  (JS.RSeq (JS.ROpt (JS.RSeq (JS.ROne (JS.CChar "."))
              (JS.RGroup 2
                 (JS.RAlt (JS.lit "d.ts")
                 (JS.RAlt (JS.RSeq (JS.lit "ts") (JS.ROpt (JS.ROne (JS.CChar "x"))))
                          (JS.lit "md"))))))
           JS.REnd)).

(** The indices of the capturing groups of a pattern. *)
Fixpoint groups (r : JS.regex) : list nat :=
  match r with
  | JS.RSeq r1 r2 | JS.RAlt r1 r2 => groups r1 ++ groups r2
  | JS.ROpt r1 => groups r1
  | JS.RGroup i r1 => i :: groups r1
  | _ => []
  end.

(** A pattern without [^]. *)
Fixpoint unanchored (r : JS.regex) : bool :=
  match r with
  | JS.RStart => false
  | JS.RSeq r1 r2 | JS.RAlt r1 r2 => unanchored r1 && unanchored r2
  | JS.ROpt r1 | JS.RGroup _ r1 => unanchored r1
  | _ => true
  end.

(** [path.replace(/.*\//, "")] *)
Definition basename (path : string) : string := JS.replace_empty upToSlash path.

(** The end of the package-root pattern, after the lazy star of its tail:
    [[^\/](?:\.(d\.ts|tsx?|md))?$] *)
Definition packageRootEnd : JS.regex :=
  JS.RSeq (JS.ROne (JS.CNot "/"))
  (JS.RSeq (JS.ROpt (JS.RSeq (JS.ROne (JS.CChar "."))
              (JS.RGroup 2
                 (JS.RAlt (JS.lit "d.ts")
                 (JS.RAlt (JS.RSeq (JS.lit "ts") (JS.ROpt (JS.ROne (JS.CChar "x"))))
                          (JS.lit "md"))))))
           JS.REnd).

(** [rest] ends with a character other than a slash, then a dot, then
    [suf]. *)
Fixpoint hasSuffix (rest suf : string) : bool :=
  match rest with
  | EmptyString => false
  | String c r =>
      negb (Ascii.eqb c "/") && String.eqb r ("." +:+ suf) || hasSuffix r suf
  end.

(** The kind that the end of a file name stands for, when it is one of the
    known suffixes. *)
Definition kindOfSuffix (rest : string) : option FileKind :=
  if hasSuffix rest "d.ts" then Some definition
  else if hasSuffix rest "ts" || hasSuffix rest "tsx" then Some test
  else if hasSuffix rest "md" then Some markdown
  else None.

(** The last character of a string. *)
Fixpoint slast (s : string) : option ascii :=
  match s with
  | EmptyString => None
  | String a EmptyString => Some a
  | String _ s' => slast s'
  end.

(** The property names that every function object has or inherits, by the
    language specification and its annex on web browsers.  [configOK] is a
    function object, and [basename in configOK] holds of these names too;
    the model of [configOK] leaves them out. *)
Definition functionProperties : list string :=
  ["length"; "name"; "prototype"; "arguments"; "caller";
   "apply"; "bind"; "call"; "constructor"; "toString";
   "hasOwnProperty"; "isPrototypeOf"; "propertyIsEnumerable";
   "toLocaleString"; "valueOf"; "__proto__";
   "__defineGetter__"; "__defineSetter__";
   "__lookupGetter__"; "__lookupSetter__"].

(** [rest] is not empty and does not end with a slash. *)
Definition endsInName (rest : string) : bool :=
  match slast rest with
  | Some c => negb (Ascii.eqb c "/")
  | None => false
  end.

(** [s] has no line terminator. *)
Definition oneLine (s : string) : bool := sall (JS.inClass JS.CDot) s.

(** A path [types/<pkg>/<rest>] of a file of the package [pkg]: [pkg] has
    no slash, there is no line terminator, and [rest] is not empty and does
    not end with a slash. *)
Definition packageFile (pkg rest : string) : bool :=
  sall segmentChar pkg && oneLine rest && endsInName rest.

(** A base name that has a rule on [configOK]. *)
Definition registered (H : Host) (name : string) : bool :=
  bool_decide (is_Some (JS.Map_get (configOK_rules H) name)).

(** A classified file whose content the classifier has asked for. *)
Definition readsContent (H : Host) (f : FileInfo) : bool :=
  (bool_decide (kind f = package_meta) || bool_decide (kind f = package_meta_ok))
  && registered H (basename (path f)).

(** [part] is made of dots. *)
Definition dotsOnly (part : string) : bool := sall (fun a => Ascii.eqb a ".") part.

(** What the rule of [OTHER_FILES.txt] asks of the content: it is not
    empty, and on each line that is not empty the parts between slashes
    are not empty and not made of dots. *)
Definition listedFiles (contents : string) : Prop :=
  contents ≠ "" ∧
  ∀ line, line ∈ JS.split "010" contents → line ≠ "" →
    ∀ part, part ∈ JS.split "/" line → part ≠ "" ∧ dotsOnly part = false.

(** ** Further snapshots for the examples *)

Module Samples.

(** An accessor that is not to be run. *)
Definition unreachable : M (option string) := throw {| message := "unreachable" |}.

(** A pull request whose only reviews are one by its author and a missing
    one. *)
Definition selfReviewed : PullRequest :=
  Example.pr Example.dana OPEN false ["types/foo/index.d.ts"]
    [Example.review "dana" "h2" "6000" APPROVED; None] [].

(** A pull request that changes a definition, a configuration without rule
    and the list of other files of package [foo]. *)
Definition configured : PullRequest :=
  Example.pr Example.dana OPEN false
    ["types/foo/index.d.ts"; "types/foo/tsconfig.json"; "types/foo/OTHER_FILES.txt"]
    [] [].

Definition configuredInfo : PrInfo :=
  assembleInfo Example.host configured {| login := "dana" |} Example.h2 None 100000
    [{| path := "types/foo/index.d.ts"; kind := definition; package := Some "foo" |};
     {| path := "types/foo/tsconfig.json"; kind := package_meta; package := Some "foo" |};
     {| path := "types/foo/OTHER_FILES.txt"; kind := package_meta; package := Some "foo" |}]
    ["foo"] false ["ann"; "bob"].

(** A pull request by [Bob], an owner of [foo] but for the letter case,
    with a dismissed review and a comment of its author that asks for the
    merge. *)
Definition flagged : PullRequest :=
  {| number := 43;
     pr_author := Some {| login := "Bob" |};
     headRefOid := "h2";
     commits_nodes := Some [Example.headCommit "h2" "5000"];
     state := OPEN;
     isDraft := false;
     files_nodes := Some [Some {| fn_path := "types/foo/index.d.ts" |}];
     authorAssociation := CONTRIBUTOR;
     reviews_nodes := Some [Example.review "ann" "h2" "6000" DISMISSED];
     timelineItems_nodes := None;
     comments_nodes :=
       Some [None;
             Some {| c_author := Some {| login := "Bob" |};
                     c_body := "  Ready to merge, thanks" |}];
     mergeable := MERGEABLE |}.

Definition flaggedInfo : PrInfo :=
  assembleInfo Example.host flagged {| login := "Bob" |} Example.h2 None 100000
    [{| path := "types/foo/index.d.ts"; kind := definition; package := Some "foo" |}]
    ["foo"] false ["ann"; "bob"].

(** A pull request that changes the lint configuration of [foo], whose
    content at the head commit is cut short. *)
Definition lintCut : PullRequest :=
  Example.pr Example.dana OPEN false ["types/foo/tslint.json"] [] [].

(** Two reviewers, [bob] and then [ann], have reviewed commit [h1], and
    none the head. *)
Definition twoStale : PullRequest :=
  Example.pr Example.dana OPEN false ["types/foo/index.d.ts"]
    [Example.review "bob" "h1" "2000" COMMENTED;
     Example.review "ann" "h1" "3000" COMMENTED] [].

End Samples.

(** ** Facts about sets, maps and the two classifiers *)

Lemma Set_has_true (s : list string) (x : string) : JS.Set_has s x = true ↔ x ∈ s.
Proof. unfold JS.Set_has. by rewrite bool_decide_eq_true. Qed.

Lemma Set_has_false (s : list string) (x : string) : JS.Set_has s x = false ↔ x ∉ s.
Proof. unfold JS.Set_has. by rewrite bool_decide_eq_false. Qed.

Lemma Set_add_elem (s : list string) (x y : string) :
  y ∈ JS.Set_add s x ↔ y ∈ s ∨ y = x.
Proof.
  unfold JS.Set_add. destruct (JS.Set_has s x) eqn:E.
  - apply Set_has_true in E. split; [by left | intros [?| ->]; done].
  - rewrite elem_of_app, list_elem_of_singleton. done.
Qed.

Lemma Set_add_NoDup (s : list string) (x : string) : NoDup s → NoDup (JS.Set_add s x).
Proof.
  intros Hs. unfold JS.Set_add. destruct (JS.Set_has s x) eqn:E; [done|].
  apply Set_has_false in E. apply NoDup_app. split; [done|]. split.
  - intros y Hy ->%list_elem_of_singleton. done.
  - apply NoDup_singleton.
Qed.

Lemma Set_fold_elem (xs s : list string) (y : string) :
  y ∈ fold_left JS.Set_add xs s ↔ y ∈ s ∨ y ∈ xs.
Proof.
  revert s. induction xs as [|x xs IH]; intros s; simpl.
  - rewrite elem_of_nil. tauto.
  - rewrite IH, Set_add_elem, elem_of_cons. tauto.
Qed.

Lemma Set_fold_NoDup (xs s : list string) : NoDup s → NoDup (fold_left JS.Set_add xs s).
Proof.
  revert s. induction xs as [|x xs IH]; intros s Hs; simpl; [done|].
  apply IH. by apply Set_add_NoDup.
Qed.

(** The packages touched are the packages of the files, each one once. *)
Lemma getPackagesTouched_spec (files : list FileInfo) :
  NoDup (getPackagesTouched files) ∧
  ∀ p, p ∈ getPackagesTouched files ↔ ∃ f, f ∈ files ∧ package f = Some p.
Proof.
  unfold getPackagesTouched, JS.Set_of. split.
  - apply Set_fold_NoDup, NoDup_nil_2.
  - intros p. rewrite Set_fold_elem, elem_of_nil, list_elem_of_omap. tauto.
Qed.

Lemma existsb_kind (k : FileKind) (files : list FileInfo) :
  existsb (fun f => bool_decide (kind f = k)) files = true ↔
  ∃ f, f ∈ files ∧ kind f = k.
Proof.
  rewrite existsb_exists. split; intros (f & Hf & Hk); exists f.
  - split; [by apply list_elem_of_In | by apply bool_decide_eq_true in Hk].
  - split; [by apply list_elem_of_In | by apply bool_decide_eq_true].
Qed.

Lemma existsb_kind_false (k : FileKind) (files : list FileInfo) :
  existsb (fun f => bool_decide (kind f = k)) files = false ↔
  ¬ ∃ f, f ∈ files ∧ kind f = k.
Proof. rewrite <- existsb_kind. destruct (existsb _ files); split; congruence. Qed.

(** C5. The danger level of a list of classified files is settled by the
    first test that holds, in this order: an [infrastructure] file or no
    package touched gives [Infrastructure]; more than one distinct package
    gives [MultiplePackagesEdited]; a [package-meta] file gives
    [ScopedAndConfiguration]; a [test] file gives [ScopedAndTested]; and
    [ScopedAndUntested] is what remains.  The packages touched are the
    distinct packages of the files.  One infrastructure file and one test
    file give [Infrastructure], in either order. *)
Theorem getDangerLevel_precedence (files : list FileInfo) :
  let has k := ∃ f, f ∈ files ∧ kind f = k in
  let touched := getPackagesTouched files in
  (NoDup touched ∧ ∀ p, p ∈ touched ↔ ∃ f, f ∈ files ∧ package f = Some p) ∧
  (has infrastructure ∨ touched = [] → getDangerLevel files = Infrastructure) ∧
  (¬ has infrastructure → (1 < List.length touched)%nat →
     getDangerLevel files = MultiplePackagesEdited) ∧
  (¬ has infrastructure → List.length touched = 1%nat → has package_meta →
     getDangerLevel files = ScopedAndConfiguration) ∧
  (¬ has infrastructure → List.length touched = 1%nat → ¬ has package_meta →
     has test → getDangerLevel files = ScopedAndTested) ∧
  (¬ has infrastructure → List.length touched = 1%nat → ¬ has package_meta →
     ¬ has test → getDangerLevel files = ScopedAndUntested) ∧
  (∀ f g, kind f = infrastructure → kind g = test →
     getDangerLevel [f; g] = Infrastructure ∧ getDangerLevel [g; f] = Infrastructure).
Proof.
  intros has touched. split; [apply getPackagesTouched_spec|].
  unfold getDangerLevel. fold touched.
  split_and!.
  - intros [Hi | Ht].
    + apply existsb_kind in Hi. by rewrite Hi.
    + rewrite Ht. simpl. by destruct (existsb _ files).
  - intros Hi%existsb_kind_false Hlen. rewrite Hi.
    destruct (Nat.eqb_spec (List.length touched) 0); [lia|].
    destruct (Nat.ltb_spec 1 (List.length touched)); [done | lia].
  - intros Hi%existsb_kind_false Hlen Hm%existsb_kind. rewrite Hi, Hlen, Hm. done.
  - intros Hi%existsb_kind_false Hlen Hm%existsb_kind_false Ht%existsb_kind.
    rewrite Hi, Hlen, Hm, Ht. done.
  - intros Hi%existsb_kind_false Hlen Hm%existsb_kind_false Ht%existsb_kind_false.
    rewrite Hi, Hlen, Hm, Ht. done.
  - intros f g Hf Hg. simpl. rewrite Hf, Hg. simpl. done.
Qed.

Lemma popularityLoop_spec (downloads : list Z) (level : PopularityLevel) :
  popularityLoop downloads level =
  if existsb (fun d => CriticalPopularityThreshold <? d) downloads then Critical
  else if existsb (fun d => NormalPopularityThreshold <? d) downloads then Popular
  else level.
Proof.
  revert level. induction downloads as [|d rest IH]; intros level; simpl; [done|].
  destruct (CriticalPopularityThreshold <? d) eqn:Ec; simpl; [done|].
  destruct (NormalPopularityThreshold <? d) eqn:En; simpl; rewrite IH; [|done].
  by repeat destruct (existsb _ rest).
Qed.

Lemma existsb_above (t : Z) (m : list (string * Z)) :
  existsb (fun d => t <? d) (map snd m) = true ↔ ∃ p d, (p, d) ∈ m ∧ t < d.
Proof.
  rewrite existsb_exists. split.
  - intros (d & Hd & Hlt). apply in_map_iff in Hd as ([p d'] & <- & Hin).
    exists p, d'. split; [by apply list_elem_of_In | by apply Z.ltb_lt].
  - intros (p & d & Hin & Hlt). exists d. split; [|by apply Z.ltb_lt].
    apply in_map_iff. exists (p, d). split; [done | by apply list_elem_of_In].
Qed.

Lemma Map_set_elem {V} (m : list (string * V)) (k : string) (v : V) :
  (k, v) ∈ JS.Map_set m k v.
Proof.
  induction m as [|[k' v'] m IH]; simpl.
  - apply list_elem_of_here.
  - destruct (String.eqb_spec k' k) as [->|]; [apply list_elem_of_here|].
    by apply list_elem_of_further.
Qed.

(** C6. The popularity level of a mapping from package to download count is
    [Critical] exactly when some package has more than 5,000,000 downloads;
    otherwise [Popular] exactly when some package has more than 200,000;
    otherwise "Well-liked by everyone".  Setting a package to a count above
    5,000,000 in any mapping gives [Critical]. *)
Theorem getPopularityLevelFromDownloads_thresholds (downloadsPerPackage : list (string * Z)) :
  let above t := ∃ p d, (p, d) ∈ downloadsPerPackage ∧ t < d in
  (getPopularityLevelFromDownloads downloadsPerPackage = Critical ↔ above 5000000) ∧
  (getPopularityLevelFromDownloads downloadsPerPackage = Popular ↔
     ¬ above 5000000 ∧ above 200000) ∧
  (getPopularityLevelFromDownloads downloadsPerPackage = Well_liked_by_everyone ↔
     ¬ above 5000000 ∧ ¬ above 200000) ∧
  (∀ p d, 5000000 < d →
     getPopularityLevelFromDownloads (JS.Map_set downloadsPerPackage p d) = Critical).
Proof.
  intros above.
  assert (Hc := existsb_above CriticalPopularityThreshold downloadsPerPackage).
  assert (Hn := existsb_above NormalPopularityThreshold downloadsPerPackage).
  fold (above CriticalPopularityThreshold) in Hc.
  fold (above NormalPopularityThreshold) in Hn.
  change 5000000 with CriticalPopularityThreshold.
  change 200000 with NormalPopularityThreshold.
  unfold getPopularityLevelFromDownloads.
  rewrite popularityLoop_spec.
  split_and!;
    [ destruct (existsb (fun d => CriticalPopularityThreshold <? d) _);
      destruct (existsb (fun d => NormalPopularityThreshold <? d) _);
      intuition congruence .. | ].
  - intros p d Hd. rewrite popularityLoop_spec.
    assert (existsb (fun d => CriticalPopularityThreshold <? d)
              (map snd (JS.Map_set downloadsPerPackage p d)) = true) as ->; [|done].
    apply existsb_above. exists p, d. split; [apply Map_set_elem | done].
Qed.

(** ** The file classifier *)

(** A pattern that starts with [^] matches at the start of the input or
    nowhere. *)
Lemma execFrom_anchored (r : JS.regex) (s : string) (pos : nat) :
  pos ≠ 0%nat → JS.execFrom (JS.RSeq JS.RStart r) pos s = None.
Proof.
  revert pos. induction s as [|a s IH]; intros pos Hpos; cbn;
    destruct (Nat.eqb_spec pos 0); try done.
  by apply IH.
Qed.

Lemma exec_anchored (r : JS.regex) (s : string) :
  JS.exec (JS.RSeq JS.RStart r) s = JS.matchAt (JS.RSeq JS.RStart r) 0 s.
Proof.
  unfold JS.exec. destruct s as [|a s]; cbn [JS.execFrom];
    destruct (JS.matchAt _ 0 _); try done.
  by apply execFrom_anchored.
Qed.

(** A literal matches the input that starts with it only. *)
Lemma lit_prefix {R} (l s : string) (pos : nat) (cs : JS.captures) (k : JS.cont) :
  JS.rmatch (R := R) (JS.lit l) pos s cs k ≠ None → String.prefix l s = true.
Proof.
  revert s pos. induction l as [|a l IH]; intros s pos; [by destruct s|].
  destruct s as [|b s]; [done|].
  cbn [JS.lit JS.rmatch JS.inClass String.prefix].
  destruct (Ascii.eqb_spec b a) as [->|Hne]; [|done].
  intros Hm. destruct (ascii_dec a a); [|done]. by eapply IH.
Qed.

(** The package-root pattern matches paths under [types/] only. *)
Lemma packageRoot_prefix (path : string) :
  String.prefix "types/" path = false → JS.exec packageRoot path = None.
Proof.
  intros Hprefix. unfold packageRoot. rewrite exec_anchored.
  unfold JS.matchAt. cbn [JS.rmatch Nat.eqb].
  match goal with |- ?m = None => destruct m eqn:E; [|done] end.
  assert (Hp : String.prefix "types/" path = true); [|congruence].
  eapply lit_prefix. rewrite E. done.
Qed.

(** C9. A path that the package-root pattern does not match is classified
    [infrastructure] with no package, whatever the content accessor is: the
    accessor is not run, so nothing is requested and nothing it would throw
    is thrown.  A path that is not under [types/] is such a path. *)
Theorem categorizeFile_unmatched_is_infrastructure (H : Host) (path : string) :
  (JS.exec packageRoot path = None →
   ∀ (contents : M (option string)) (log : list FetchCall),
     categorizeFile H path contents log =
     (Normal {| path := path; kind := infrastructure; package := None |}, log)) ∧
  (String.prefix "types/" path = false → JS.exec packageRoot path = None).
Proof.
  split.
  - intros Hno contents log. unfold categorizeFile. rewrite Hno. reflexivity.
  - apply packageRoot_prefix.
Qed.

Lemma categorizeFile_unmatched_is_infrastructure_witness :
  JS.exec packageRoot "types/foo" = None ∧
  categorizeFile Example.host "types/foo" (throw {| message := "never run" |}) [] =
  (Normal {| path := "types/foo"; kind := infrastructure; package := None |}, []).
Proof.
  split; [reflexivity|].
  apply (proj1 (categorizeFile_unmatched_is_infrastructure Example.host "types/foo")).
  reflexivity.
Defined.

Lemma exec_tslint :
  JS.exec packageRoot "types/foo/tslint.json" =
  Some {| JS.m_start := 0; JS.m_end := 21; JS.m_captures := [(1%nat, "foo")] |}.
Proof. vm_compute. reflexivity. Qed.

Lemma basename_tslint : JS.replace_empty upToSlash "types/foo/tslint.json" = "tslint.json".
Proof. vm_compute. reflexivity. Qed.

(** The lint configuration of package [foo], when its content does not
    parse: the classifier throws what [JSON.parse] throws. *)
Lemma categorizeFile_tslint_throw (H : Host) (fetchFile : FetchFile)
    (rev content : string) (e : exn) (log : list FetchCall) :
  fetchFile (rev +:+ ":" +:+ "types/foo/tslint.json") None = Some content →
  JSON_parse H content = Throw e →
  categorizeFile H "types/foo/tslint.json"
    (callFetch fetchFile (rev +:+ ":" +:+ "types/foo/tslint.json") None) log =
  (Throw e, (log ++ [(rev +:+ ":" +:+ "types/foo/tslint.json", None)])%list).
Proof.
  intros Hfetch Hparse. unfold categorizeFile. rewrite exec_tslint.
  cbn [JS.m_captures JS.capture Nat.eqb default]. cbn [String.eqb Ascii.eqb Bool.eqb orb].
  unfold configOK. rewrite basename_tslint.
  unfold bind, callFetch, lift, configOK_rules. cbn. rewrite Hfetch. cbn.
  unfold configOK_tslint. rewrite Hparse. reflexivity.
Qed.

(** C3 (the code departs from it). The lint configuration of a package whose
    content [JSON.parse] rejects is not classified [package-meta]: the
    classifier throws, and so does the whole derivation of a pull request
    that changes this file. *)
Theorem categorizeFile_unparsable_tslint_throws (H : Host) (fetchFile : FetchFile)
    (content : string) (e : exn) :
  JSON_parse H content = Throw e →
  (∀ rev log,
     fetchFile (rev +:+ ":" +:+ "types/foo/tslint.json") None = Some content →
     categorizeFile H "types/foo/tslint.json"
       (callFetch fetchFile (rev +:+ ":" +:+ "types/foo/tslint.json") None) log =
     (Throw e, (log ++ [(rev +:+ ":" +:+ "types/foo/tslint.json", None)])%list)) ∧
  (∀ info prInfo author headCommit getDownloads getNow log,
     repository info ≫= pullRequest = Some prInfo →
     pr_author prInfo = Some author →
     getHeadCommit prInfo = Some headCommit →
     state prInfo = OPEN →
     isDraft prInfo = false →
     files_nodes prInfo = Some [Some {| fn_path := "types/foo/tslint.json" |}] →
     fetchFile (oid headCommit +:+ ":" +:+ "types/foo/tslint.json") None = Some content →
     deriveStateForPR H info fetchFile getDownloads getNow log =
     (Throw e, (log ++ [(oid headCommit +:+ ":" +:+ "types/foo/tslint.json", None)])%list)).
Proof.
  intros Hparse. split.
  - intros rev log Hfetch.
    exact (categorizeFile_tslint_throw H fetchFile rev content e log Hfetch Hparse).
  - intros info prInfo author headCommit getDownloads getNow log
      Hpr Hauthor Hhead Hopen Hdraft Hfiles Hfetch.
    unfold deriveStateForPR. rewrite Hpr, Hauthor, Hhead, Hopen, Hdraft.
    cbn [bool_decide negb]. rewrite bool_decide_eq_true_2 by done. cbn [negb].
    unfold bind at 1. unfold categorizeFiles. rewrite Hfiles.
    cbn -[categorizeFile callFetch String.append].
    rewrite (categorizeFile_tslint_throw H fetchFile (oid headCommit) content e log Hfetch Hparse).
    reflexivity.
Qed.

Lemma categorizeFile_unparsable_tslint_throws_witness :
  Example.run (Example.pr Example.dana OPEN false ["types/foo/tslint.json"] [] []) =
  (Throw {| message := "Unexpected end of JSON input" |},
   [("h2:types/foo/tslint.json", None)]).
Proof.
  pose (p := Example.pr Example.dana OPEN false ["types/foo/tslint.json"] [] []).
  apply (proj2 (categorizeFile_unparsable_tslint_throws Example.host Example.fetchFile "{"
                  {| message := "Unexpected end of JSON input" |} eq_refl)
           (Example.snapshot p) p {| login := "dana" |}
           {| oid := "h2"; abbreviatedOid := "h2"; pushedDate := "5000";
              checkSuites_nodes := None |} None 100000 []);
    reflexivity.
Defined.

(** ** The owner resolver *)

Lemma getOwnersForPackage_run (H : Host) (fetchFile : FetchFile) (p : string)
    (log : list FetchCall) :
  getOwnersForPackage H p fetchFile log =
  (ownersOf H fetchFile p, (log ++ [ownersCall p])%list).
Proof.
  unfold getOwnersForPackage, ownersOf, ownersCall, bind, callFetch, lift, ret.
  destruct (fetchFile _ _); [|done].
  by destruct (parseHeaderOrFail H _).
Qed.

(** One turn of the loop, by what the header of the package is. *)
Lemma getOwnersOfPackages_loop_cons (H : Host) (fetchFile : FetchFile)
    (p : string) (rest : list string) (allOwners : list string) (anyNew : bool)
    (log : list FetchCall) :
  getOwnersOfPackages_loop H (p :: rest) fetchFile allOwners anyNew log =
  match ownersOf H fetchFile p with
  | Throw e =>
      (Normal {| oi_error := Some ("error parsing owners: " +:+ message e);
                 oi_allOwners := allOwners; oi_anyPackageIsNew := anyNew |},
       (log ++ [ownersCall p])%list)
  | Normal None =>
      getOwnersOfPackages_loop H rest fetchFile allOwners true
        (log ++ [ownersCall p])%list
  | Normal (Some owners) =>
      getOwnersOfPackages_loop H rest fetchFile
        (fold_left JS.Set_add owners allOwners) anyNew (log ++ [ownersCall p])%list
  end.
Proof.
  cbn [getOwnersOfPackages_loop]. unfold bind at 1. unfold tryCatch, bind.
  rewrite getOwnersForPackage_run.
  destruct (ownersOf H fetchFile p) as [[owners|]|e]; reflexivity.
Qed.

(** The loop when no header throws. *)
Lemma getOwnersOfPackages_loop_ok (H : Host) (fetchFile : FetchFile)
    (packages : list string) :
  (∀ p, p ∈ packages → ∀ e, ownersOf H fetchFile p ≠ Throw e) →
  ∀ allOwners anyNew log,
    getOwnersOfPackages_loop H packages fetchFile allOwners anyNew log =
    (Normal {| oi_error := None;
               oi_allOwners :=
                 fold_left JS.Set_add
                   (concat (map (declaredOwners H fetchFile) packages)) allOwners;
               oi_anyPackageIsNew :=
                 anyNew || existsb (isNewPackage H fetchFile) packages |},
     (log ++ map ownersCall packages)%list).
Proof.
  induction packages as [|p rest IH]; intros Hok allOwners anyNew log.
  - cbn. by rewrite orb_false_r, app_nil_r.
  - rewrite getOwnersOfPackages_loop_cons.
    assert (Hp := Hok p (list_elem_of_here _ _)).
    assert (Hrest : ∀ q, q ∈ rest → ∀ e, ownersOf H fetchFile q ≠ Throw e)
      by (intros q Hq; apply Hok; by apply list_elem_of_further).
    cbn [map concat existsb]. unfold declaredOwners at 1, isNewPackage at 1.
    destruct (ownersOf H fetchFile p) as [[owners|]|e].
    + rewrite IH by done. rewrite fold_left_app, <- app_assoc. reflexivity.
    + rewrite IH by done. rewrite <- app_assoc. cbn.
      by rewrite orb_true_r.
    + by destruct (Hp e).
Qed.

(** The loop when the header of [p] is the first one that throws. *)
Lemma getOwnersOfPackages_loop_throw (H : Host) (fetchFile : FetchFile)
    (pre : list string) (p : string) (post : list string) (e : exn) :
  (∀ q, q ∈ pre → ∀ e', ownersOf H fetchFile q ≠ Throw e') →
  ownersOf H fetchFile p = Throw e →
  ∀ allOwners anyNew log,
    getOwnersOfPackages_loop H (pre ++ p :: post) fetchFile allOwners anyNew log =
    (Normal {| oi_error := Some ("error parsing owners: " +:+ message e);
               oi_allOwners :=
                 fold_left JS.Set_add
                   (concat (map (declaredOwners H fetchFile) pre)) allOwners;
               oi_anyPackageIsNew :=
                 anyNew || existsb (isNewPackage H fetchFile) pre |},
     (log ++ map ownersCall (pre ++ [p]))%list).
Proof.
  intros Hok Hp. induction pre as [|q pre IH]; intros allOwners anyNew log.
  - cbn [app]. rewrite getOwnersOfPackages_loop_cons, Hp. cbn.
    by rewrite orb_false_r.
  - cbn [app]. rewrite getOwnersOfPackages_loop_cons.
    assert (Hq := Hok q (list_elem_of_here _ _)).
    assert (Hpre : ∀ q', q' ∈ pre → ∀ e', ownersOf H fetchFile q' ≠ Throw e')
      by (intros q' Hq'; apply Hok; by apply list_elem_of_further).
    cbn [map concat existsb]. unfold declaredOwners at 1, isNewPackage at 1.
    destruct (ownersOf H fetchFile q) as [[owners|]|e'].
    + rewrite IH by done. rewrite fold_left_app, <- app_assoc. reflexivity.
    + rewrite IH by done. rewrite <- app_assoc. cbn.
      by rewrite orb_true_r.
    + by destruct (Hq e').
Qed.

(** The owner resolver completes normally, whatever the headers are. *)
Lemma getOwnersOfPackages_loop_total (H : Host) (fetchFile : FetchFile)
    (packages : list string) :
  ∀ allOwners anyNew log,
    ∃ ownerInfo log',
      getOwnersOfPackages_loop H packages fetchFile allOwners anyNew log =
      (Normal ownerInfo, log').
Proof.
  induction packages as [|p rest IH]; intros allOwners anyNew log.
  - by eexists _, _.
  - rewrite getOwnersOfPackages_loop_cons.
    destruct (ownersOf H fetchFile p) as [[owners|]|e]; [apply IH | apply IH |].
    by eexists _, _.
Qed.

(** ** The orchestrator *)

(** The derivation once the pull request has passed the checks on its
    author, head commit, state and draft flag. *)
Lemma deriveStateForPR_active (H : Host) (info : PRQueryResult) (fetchFile : FetchFile)
    (getDownloads : option (list string → list (string * Z))) (getNow : Z)
    (prInfo : PullRequest) (author : Actor) (headCommit : Commit)
    (log : list FetchCall) :
  repository info ≫= pullRequest = Some prInfo →
  pr_author prInfo = Some author →
  getHeadCommit prInfo = Some headCommit →
  state prInfo = OPEN →
  isDraft prInfo = false →
  deriveStateForPR H info fetchFile getDownloads getNow log =
  match categorizeFiles H prInfo headCommit fetchFile log with
  | (Throw e, log1) => (Throw e, log1)
  | (Normal files, log1) =>
      if (List.length (getPackagesTouched files) =? 0)%nat then
        (Normal (BotNoPackages (number prInfo)), log1)
      else
        match getOwnersOfPackages H (getPackagesTouched files) fetchFile log1 with
        | (Throw e, log2) => (Throw e, log2)
        | (Normal ownerInfo, log2) =>
            (Normal
               match oi_error ownerInfo with
               | Some error => BotError (number prInfo) error (Some (login author))
               | None =>
                   Info (assembleInfo H prInfo author headCommit getDownloads getNow
                           files (getPackagesTouched files)
                           (oi_anyPackageIsNew ownerInfo) (oi_allOwners ownerInfo))
               end, log2)
        end
  end.
Proof.
  intros Hpr Hauthor Hhead Hopen Hdraft.
  unfold deriveStateForPR. rewrite Hpr, Hauthor, Hhead, Hopen, Hdraft.
  rewrite bool_decide_eq_true_2 by done. cbn [negb].
  unfold bind at 1.
  destruct (categorizeFiles H prInfo headCommit fetchFile log) as [[files|e] log1]; [|done].
  destruct (List.length (getPackagesTouched files) =? 0)%nat; [done|].
  unfold bind.
  destruct (getOwnersOfPackages H (getPackagesTouched files) fetchFile log1)
    as [[ownerInfo|e] log2]; [|done].
  by destruct (oi_error ownerInfo).
Qed.

Lemma getHeadCommit_None (prInfo : PullRequest) :
  getHeadCommit prInfo = None ↔
  ∀ nodes c, commits_nodes prInfo = Some nodes → Some c ∈ nodes →
             oid (commit c) ≠ headRefOid prInfo.
Proof.
  unfold getHeadCommit. destruct (commits_nodes prInfo) as [nodes|]; [|done].
  set (f := fun c : option CommitNode =>
              match c with
              | Some c => String.eqb (oid (commit c)) (headRefOid prInfo)
              | None => false
              end).
  destruct (List.filter f nodes) as [|x l] eqn:E.
  - split; [|done]. intros _ nodes' c [= <-] Hc Heq.
    assert (Hin : In (Some c) (List.filter f nodes)).
    { apply filter_In. split; [by apply list_elem_of_In | by apply String.eqb_eq]. }
    by rewrite E in Hin.
  - assert (Hx : In x (List.filter f nodes)) by (rewrite E; by left).
    apply filter_In in Hx as [Hx1 Hx2].
    destruct x as [c|]; [|done]. split; [done|]. intros Hall. exfalso.
    apply (Hall nodes c eq_refl); [by apply list_elem_of_In | by apply String.eqb_eq].
Qed.

(** C7. The owner resolver takes the packages in order and completes
    normally.  A package without an entry declaration file is one request,
    no owner and no error, and it makes [anyPackageIsNew] true.  When no
    header throws, the owners are the handles declared by the packages, each
    one once, and there is no error.  When the header of [p] is the first
    that throws, the error carries the message thrown, the requests made are
    those of the packages up to [p] and of no later one, and the derivation
    of a pull request that touches these packages is the [error] result with
    that message. *)
Theorem getOwnersOfPackages_resolution (H : Host) (fetchFile : FetchFile)
    (packages : list string) (log : list FetchCall) :
  (∃ ownerInfo log',
     getOwnersOfPackages H packages fetchFile log = (Normal ownerInfo, log')) ∧
  (∀ p log0, fetchFile ("master:types/" +:+ p +:+ "/index.d.ts") (Some 10240) = None →
     getOwnersForPackage H p fetchFile log0 = (Normal None, (log0 ++ [ownersCall p])%list) ∧
     declaredOwners H fetchFile p = [] ∧ isNewPackage H fetchFile p = true) ∧
  ((∀ p, p ∈ packages → ∀ e, ownersOf H fetchFile p ≠ Throw e) →
     getOwnersOfPackages H packages fetchFile log =
     (Normal {| oi_error := None;
                oi_allOwners :=
                  JS.Set_of (concat (map (declaredOwners H fetchFile) packages));
                oi_anyPackageIsNew := existsb (isNewPackage H fetchFile) packages |},
      (log ++ map ownersCall packages)%list)) ∧
  (∀ pre p post e,
     packages = (pre ++ p :: post)%list →
     (∀ q, q ∈ pre → ∀ e', ownersOf H fetchFile q ≠ Throw e') →
     ownersOf H fetchFile p = Throw e →
     getOwnersOfPackages H packages fetchFile log =
     (Normal {| oi_error := Some ("error parsing owners: " +:+ message e);
                oi_allOwners :=
                  JS.Set_of (concat (map (declaredOwners H fetchFile) pre));
                oi_anyPackageIsNew := existsb (isNewPackage H fetchFile) pre |},
      (log ++ map ownersCall (pre ++ [p]))%list) ∧
     ∀ info getDownloads getNow prInfo author headCommit files log0,
       repository info ≫= pullRequest = Some prInfo →
       pr_author prInfo = Some author →
       getHeadCommit prInfo = Some headCommit →
       state prInfo = OPEN →
       isDraft prInfo = false →
       categorizeFiles H prInfo headCommit fetchFile log0 = (Normal files, log) →
       getPackagesTouched files = packages →
       deriveStateForPR H info fetchFile getDownloads getNow log0 =
       (Normal (BotError (number prInfo)
                  ("error parsing owners: " +:+ message e) (Some (login author))),
        (log ++ map ownersCall (pre ++ [p]))%list)).
Proof.
  split_and!.
  - apply getOwnersOfPackages_loop_total.
  - intros p log0 Habsent. rewrite getOwnersForPackage_run.
    unfold declaredOwners, isNewPackage, ownersOf. by rewrite Habsent.
  - intros Hok. unfold getOwnersOfPackages.
    by rewrite getOwnersOfPackages_loop_ok.
  - intros pre p post e -> Hok Hp.
    assert (Hrun : getOwnersOfPackages H (pre ++ p :: post) fetchFile log =
      (Normal {| oi_error := Some ("error parsing owners: " +:+ message e);
                 oi_allOwners :=
                   JS.Set_of (concat (map (declaredOwners H fetchFile) pre));
                 oi_anyPackageIsNew := existsb (isNewPackage H fetchFile) pre |},
       (log ++ map ownersCall (pre ++ [p]))%list)).
    { unfold getOwnersOfPackages.
      by rewrite (getOwnersOfPackages_loop_throw H fetchFile pre p post e Hok Hp). }
    split; [done|].
    intros info getDownloads getNow prInfo author headCommit files log0
      Hpr Hauthor Hhead Hstate Hdraft Hfiles Hpk.
    rewrite (deriveStateForPR_active H info fetchFile getDownloads getNow
               prInfo author headCommit log0 Hpr Hauthor Hhead Hstate Hdraft).
    rewrite Hfiles, Hpk, Hrun.
    destruct pre; reflexivity.
Qed.

Lemma getOwnersOfPackages_resolution_witness :
  getOwnersOfPackages Example.host ["bar"; "new"; "bad"; "foo"] Example.fetchFile [] =
  (Normal {| oi_error := Some "error parsing owners: Could not parse header";
             oi_allOwners := ["bob"; "cat"];
             oi_anyPackageIsNew := true |},
   [ownersCall "bar"; ownersCall "new"; ownersCall "bad"]).
Proof.
  apply (proj1 (proj2 (proj2 (proj2 (getOwnersOfPackages_resolution Example.host
           Example.fetchFile ["bar"; "new"; "bad"; "foo"] [])))
           ["bar"; "new"] "bad" ["foo"] {| message := "Could not parse header" |}
           eq_refl
           ltac:(intros q Hq e'; vm_compute in Hq;
                 repeat (apply elem_of_cons in Hq as [->|Hq]; [by vm_compute|]);
                 by apply elem_of_nil in Hq)
           eq_refl)).
Defined.

(** An [info] result comes from a pull request that passed every check,
    and is assembled from its classified files and resolved owners. *)
Lemma deriveStateForPR_Info (H : Host) (info : PRQueryResult) (fetchFile : FetchFile)
    (getDownloads : option (list string → list (string * Z))) (getNow : Z)
    (log log' : list FetchCall) (i : PrInfo) :
  deriveStateForPR H info fetchFile getDownloads getNow log = (Normal (Info i), log') →
  ∃ prInfo author headCommit files log1 ownerInfo,
    repository info ≫= pullRequest = Some prInfo ∧
    pr_author prInfo = Some author ∧
    getHeadCommit prInfo = Some headCommit ∧
    categorizeFiles H prInfo headCommit fetchFile log = (Normal files, log1) ∧
    getOwnersOfPackages H (getPackagesTouched files) fetchFile log1 =
      (Normal ownerInfo, log') ∧
    oi_error ownerInfo = None ∧
    i = assembleInfo H prInfo author headCommit getDownloads getNow files
          (getPackagesTouched files) (oi_anyPackageIsNew ownerInfo)
          (oi_allOwners ownerInfo).
Proof.
  intros Hrun.
  destruct (repository info ≫= pullRequest) as [prInfo|] eqn:Hpr;
    [|unfold deriveStateForPR in Hrun; by rewrite Hpr in Hrun].
  destruct (pr_author prInfo) as [author|] eqn:Hauthor;
    [|unfold deriveStateForPR in Hrun; by rewrite Hpr, Hauthor in Hrun].
  destruct (getHeadCommit prInfo) as [headCommit|] eqn:Hhead;
    [|unfold deriveStateForPR in Hrun; by rewrite Hpr, Hauthor, Hhead in Hrun].
  destruct (decide (state prInfo = OPEN)) as [Hstate|Hstate];
    [|unfold deriveStateForPR in Hrun; rewrite Hpr, Hauthor, Hhead in Hrun;
      by rewrite bool_decide_eq_false_2 in Hrun].
  destruct (isDraft prInfo) eqn:Hdraft;
    [unfold deriveStateForPR in Hrun; rewrite Hpr, Hauthor, Hhead, Hdraft in Hrun;
     by rewrite bool_decide_eq_true_2 in Hrun|].
  rewrite (deriveStateForPR_active H info fetchFile getDownloads getNow
             prInfo author headCommit log Hpr Hauthor Hhead Hstate Hdraft) in Hrun.
  destruct (categorizeFiles H prInfo headCommit fetchFile log)
    as [[files|e] log1] eqn:Hfiles; [|done].
  destruct (List.length (getPackagesTouched files) =? 0)%nat; [done|].
  destruct (getOwnersOfPackages H (getPackagesTouched files) fetchFile log1)
    as [[ownerInfo|e] log2] eqn:Howners; [|done].
  destruct (oi_error ownerInfo) eqn:Herr; [done|].
  injection Hrun as <- <-.
  by exists prInfo, author, headCommit, files, log1, ownerInfo.
Qed.

(** ** Staleness *)



(** ** The timeline *)

Lemma find_Some_split {A} (P : A → bool) (l : list A) (x : A) :
  List.find P l = Some x ↔
  ∃ l1 l2, l = (l1 ++ x :: l2)%list ∧ P x = true ∧ ∀ y, y ∈ l1 → P y = false.
Proof.
  induction l as [|a l IH]; simpl.
  - split; [done|]. intros (l1 & l2 & Hl & _). by destruct l1.
  - destruct (P a) eqn:Ea.
    + split.
      * intros [= ->]. exists [], l. split_and!; [done | done |].
        intros y Hy. by apply elem_of_nil in Hy.
      * intros ([|b l1] & l2 & Hl & Hx & Hl1).
        -- by injection Hl as -> _.
        -- injection Hl as -> _. rewrite Hl1 in Ea; [done | apply list_elem_of_here].
    + rewrite IH. split.
      * intros (l1 & l2 & -> & Hx & Hl1). exists (a :: l1), l2. split_and!; [done | done |].
        intros y [->|Hy]%elem_of_cons; [done | by apply Hl1].
      * intros ([|b l1] & l2 & Hl & Hx & Hl1).
        -- injection Hl as -> _. congruence.
        -- injection Hl as -> ->. exists l1, l2. split_and!; [done | done |].
           intros y Hy. apply Hl1. by apply list_elem_of_further.
Qed.

Lemma elem_of_rev {A} (l : list A) (x : A) : x ∈ rev l ↔ x ∈ l.
Proof. rewrite !list_elem_of_In. symmetry. apply in_rev. Qed.

Lemma find_None_all {A} (P : A → bool) (l : list A) :
  List.find P l = None ↔ ∀ y, y ∈ l → P y = false.
Proof.
  split.
  - intros Hnone y Hy. apply (find_none P l Hnone). by apply list_elem_of_In.
  - intros Hall. destruct (List.find P l) as [x|] eqn:E; [|done].
    apply find_some in E as [Hin Hx]. apply list_elem_of_In in Hin.
    by rewrite (Hall x Hin) in Hx.
Qed.

(** [findLast] gives the element that satisfies the predicate and that no
    later element satisfying it follows. *)
Lemma findLast_Some {T} (l : list T) (P : T → bool) (x : T) :
  findLast (Some l) P = Some x ↔
  ∃ pre post, l = (pre ++ x :: post)%list ∧ P x = true ∧ ∀ y, y ∈ post → P y = false.
Proof.
  unfold findLast. rewrite find_Some_split. split.
  - intros (l1 & l2 & Hl & Hx & Hl1). exists (rev l2), (rev l1). split_and!; [|done|].
    + rewrite <- (rev_involutive l), Hl, rev_app_distr. cbn [rev].
      by rewrite <- app_assoc.
    + intros y Hy. apply Hl1. by apply elem_of_rev.
  - intros (pre & post & -> & Hx & Hpost). exists (rev post), (rev pre). split_and!; [|done|].
    + rewrite rev_app_distr. cbn [rev]. by rewrite <- app_assoc.
    + intros y Hy. apply Hpost. by apply (proj1 (elem_of_rev _ _)) in Hy.
Qed.

Lemma Date_gt_true (a b : JS.Date) :
  JS.Date_gt a b = true ↔ ∃ t u, a = JS.ValidDate t ∧ b = JS.ValidDate u ∧ u < t.
Proof.
  destruct a as [t|], b as [u|]; simpl.
  - rewrite bool_decide_eq_true. split; [by eauto|]. by intros (? & ? & [= <-] & [= <-] & ?).
  - split; [done|]. by intros (? & ? & _ & ? & _).
  - split; [done|]. by intros (? & ? & ? & _).
  - split; [done|]. by intros (? & ? & ? & _).
Qed.

(** The predicate that [getLastMaintainerBlessingDate] looks for. *)
Lemma blessing_test (H : Host) (item : TimelineItem) :
  String.eqb (typename item) "MovedColumnsInProjectEvent" && authorNotBot H item = true ↔
  blessing H item.
Proof. unfold blessing. by rewrite andb_true_iff, String.eqb_eq. Qed.

(** The date of the last maintainer blessing of a timeline. *)
Lemma getLastMaintainerBlessingDate_Some (H : Host)
    (timelineItems : option (list (option TimelineItem))) (d : JS.Date) :
  getLastMaintainerBlessingDate H timelineItems = Some d ↔
  ∃ pre item post,
    timelineItems = Some (pre ++ Some item :: post)%list ∧
    blessing H item ∧
    (∀ item', Some item' ∈ post → ¬ blessing H item') ∧
    d = Date_new H (createdAt item).
Proof.
  unfold getLastMaintainerBlessingDate.
  set (P := fun item : option TimelineItem =>
              match item with
              | Some item => String.eqb (typename item) "MovedColumnsInProjectEvent"
                             && authorNotBot H item
              | None => false
              end).
  assert (HP : ∀ item, P (Some item) = true ↔ blessing H item)
    by (intros item; apply blessing_test).
  split.
  - destruct timelineItems as [l|]; [|done].
    destruct (findLast (Some l) P) as [[item|]|] eqn:E; [|done|done].
    intros [= <-]. apply findLast_Some in E as (pre & post & -> & Hx & Hpost).
    exists pre, item, post. split_and!; [done | by apply HP | | done].
    intros item' Hin Hb. apply HP in Hb. by rewrite (Hpost _ Hin) in Hb.
  - intros (pre & item & post & -> & Hb & Hpost & ->).
    assert (E : findLast (Some (pre ++ Some item :: post)%list) P = Some (Some item)).
    { apply findLast_Some. exists pre, post. split_and!; [done | by apply HP |].
      intros [item'|] Hin; [|done].
      destruct (P (Some item')) eqn:E'; [|done]. apply HP in E'. by destruct (Hpost item'). }
    by rewrite E.
Qed.

Lemma getLastMaintainerBlessingDate_None (H : Host)
    (timelineItems : option (list (option TimelineItem))) :
  getLastMaintainerBlessingDate H timelineItems = None ↔
  ∀ item, Some item ∈ default [] timelineItems → ¬ blessing H item.
Proof.
  unfold getLastMaintainerBlessingDate.
  set (P := fun item : option TimelineItem =>
              match item with
              | Some item => String.eqb (typename item) "MovedColumnsInProjectEvent"
                             && authorNotBot H item
              | None => false
              end).
  destruct timelineItems as [l|]; cbn [default findLast];
    [|split; [intros _ item Hin; by apply elem_of_nil in Hin | done]].
  destruct (List.find P (rev l)) as [[item|]|] eqn:E.
  - split; [done|]. intros Hall. apply find_some in E as [Hin Hx].
    apply list_elem_of_In in Hin. apply (proj1 (elem_of_rev _ _)) in Hin.
    apply blessing_test in Hx.
    by destruct (Hall item Hin).
  - by apply find_some in E as [_ ?].
  - split; [|done]. intros _ item Hin Hb. apply blessing_test in Hb.
    rewrite find_None_all in E.
    assert (Hf : P (Some item) = false) by (apply E; by apply elem_of_rev).
    unfold P in Hf. congruence.
Qed.

(** C10. In an [info] result, [maintainerBlessed] is true exactly when the
    timeline has a moved-between-project-columns event that is not by a bot
    and whose last occurrence is dated strictly after [lastPushDate]; it is
    false when there is no such event, or when the last one is not dated
    strictly after [lastPushDate]. *)
Theorem maintainerBlessed_iff (H : Host) (info : PRQueryResult) (fetchFile : FetchFile)
    (getDownloads : option (list string → list (string * Z))) (getNow : Z)
    (log log' : list FetchCall) (prInfo : PullRequest) (i : PrInfo) :
  repository info ≫= pullRequest = Some prInfo →
  deriveStateForPR H info fetchFile getDownloads getNow log = (Normal (Info i), log') →
  (maintainerBlessed i = true ↔
   ∃ pre item post t pushed,
     timelineItems_nodes prInfo = Some (pre ++ Some item :: post)%list ∧
     blessing H item ∧
     (∀ item', Some item' ∈ post → ¬ blessing H item') ∧
     Date_new H (createdAt item) = JS.ValidDate t ∧
     lastPushDate i = JS.ValidDate pushed ∧
     pushed < t) ∧
  (maintainerBlessed i = false ↔
   (∀ item, Some item ∈ default [] (timelineItems_nodes prInfo) → ¬ blessing H item) ∨
   ∃ pre item post,
     timelineItems_nodes prInfo = Some (pre ++ Some item :: post)%list ∧
     blessing H item ∧
     (∀ item', Some item' ∈ post → ¬ blessing H item') ∧
     JS.Date_gt (Date_new H (createdAt item)) (lastPushDate i) = false).
Proof.
  intros Hpr Hrun.
  apply deriveStateForPR_Info in Hrun
    as (prInfo' & author & headCommit & files & log1 & ownerInfo
        & Hpr' & _ & _ & _ & _ & _ & ->).
  rewrite Hpr in Hpr'. injection Hpr' as <-.
  cbn [maintainerBlessed lastPushDate assembleInfo].
  set (pushedAt := Date_new H (pushedDate headCommit)).
  assert (Hsome := getLastMaintainerBlessingDate_Some H (timelineItems_nodes prInfo)).
  assert (Hnone := getLastMaintainerBlessingDate_None H (timelineItems_nodes prInfo)).
  split; split.
  - destruct (getLastMaintainerBlessingDate H (timelineItems_nodes prInfo))
      as [d|]; [|done].
    intros (t & u & -> & Hu & Hlt)%Date_gt_true.
    destruct (proj1 (Hsome _) eq_refl) as (pre & item & post & Hl & Hb & Hpost & Hd).
    by exists pre, item, post, t, u.
  - intros (pre & item & post & t & u & Hl & Hb & Hpost & Ht & Hu & Hlt).
    rewrite (proj2 (Hsome (Date_new H (createdAt item))))
      by (by exists pre, item, post).
    apply Date_gt_true. by exists t, u.
  - destruct (getLastMaintainerBlessingDate H (timelineItems_nodes prInfo))
      as [d|].
    + intros Hgt. right.
      destruct (proj1 (Hsome _) eq_refl) as (pre & item & post & Hl & Hb & Hpost & ->).
      by exists pre, item, post.
    + intros _. left. by apply Hnone.
  - intros [Hall | (pre & item & post & Hl & Hb & Hpost & Hgt)].
    + by rewrite (proj2 Hnone Hall).
    + rewrite (proj2 (Hsome (Date_new H (createdAt item))))
        by (by exists pre, item, post).
      done.
Qed.

Lemma maintainerBlessed_iff_witness :
  maintainerBlessed Example.ordinaryInfo = true.
Proof.
  apply (proj1 (maintainerBlessed_iff Example.host (Example.snapshot Example.ordinary)
                  Example.fetchFile None 100000 []
                  [("master:types/foo/index.d.ts", Some 10240)]
                  Example.ordinary Example.ordinaryInfo eq_refl
                  ltac:(vm_compute; reflexivity))).
  exists [], {| typename := "MovedColumnsInProjectEvent"; createdAt := "9000";
                ti_actor := Some {| login := "rex" |} |}, [], 9000, 5000.
  split_and!; [reflexivity | by vm_compute | | reflexivity | reflexivity | lia].
  intros item' Hin. by apply elem_of_nil in Hin.
Defined.

(** ** The review reconciler *)

Lemma Map_get_set_eq {V} (m : list (string * V)) (k : string) (v : V) :
  JS.Map_get (JS.Map_set m k v) k = Some v.
Proof.
  induction m as [|[k' v'] m IH]; cbn.
  - by rewrite String.eqb_refl.
  - destruct (String.eqb_spec k' k) as [->|Hne]; cbn.
    + by rewrite String.eqb_refl.
    + by destruct (String.eqb_spec k' k).
Qed.

Lemma Map_get_set_ne {V} (m : list (string * V)) (k k' : string) (v : V) :
  k ≠ k' → JS.Map_get (JS.Map_set m k v) k' = JS.Map_get m k'.
Proof.
  intros Hne. induction m as [|[k0 v0] m IH]; cbn.
  - by destruct (String.eqb_spec k k').
  - destruct (String.eqb_spec k0 k) as [->|Hne0]; cbn.
    + by destruct (String.eqb_spec k k').
    + by rewrite IH.
Qed.

Lemma Map_set_elem_inv {V} (m : list (string * V)) (k k' : string) (v v' : V) :
  (k', v') ∈ JS.Map_set m k v → (k', v') ∈ m ∨ (k', v') = (k, v).
Proof.
  induction m as [|[k0 v0] m IH]; cbn.
  - intros ->%list_elem_of_singleton. by right.
  - destruct (String.eqb_spec k0 k) as [->|Hne].
    + intros [->|Hin]%elem_of_cons; [by right | left; by apply list_elem_of_further].
    + intros [->|Hin]%elem_of_cons; [left; apply list_elem_of_here|].
      destruct (IH Hin) as [?|?]; [left; by apply list_elem_of_further | by right].
Qed.

Lemma Map_set_keys {V} (m : list (string * V)) (k k' : string) (v : V) :
  k' ∈ map fst (JS.Map_set m k v) ↔ k' ∈ map fst m ∨ k' = k.
Proof.
  induction m as [|[k0 v0] m IH]; cbn.
  - rewrite list_elem_of_singleton, elem_of_nil. tauto.
  - destruct (String.eqb_spec k0 k) as [->|Hne]; cbn.
    + rewrite !elem_of_cons. tauto.
    + rewrite !elem_of_cons, IH. tauto.
Qed.

Lemma Map_set_NoDup {V} (m : list (string * V)) (k : string) (v : V) :
  NoDup (map fst m) → NoDup (map fst (JS.Map_set m k v)).
Proof.
  induction m as [|[k0 v0] m IH]; cbn; intros Hnd.
  - apply NoDup_singleton.
  - apply NoDup_cons in Hnd as [Hnotin Hnd].
    destruct (String.eqb_spec k0 k) as [->|Hne]; cbn.
    + by apply NoDup_cons.
    + apply NoDup_cons. split; [|by apply IH].
      rewrite Map_set_keys. intros [?|?]; [done | congruence].
Qed.

Lemma Map_get_elem {V} (m : list (string * V)) (k : string) (v : V) :
  JS.Map_get m k = Some v → (k, v) ∈ m.
Proof.
  induction m as [|[k0 v0] m IH]; cbn; [done|].
  destruct (String.eqb_spec k0 k) as [->|Hne].
  - intros [= ->]. apply list_elem_of_here.
  - intros Hget. by apply list_elem_of_further, IH.
Qed.

Lemma Map_elem_get {V} (m : list (string * V)) (k : string) (v : V) :
  NoDup (map fst m) → (k, v) ∈ m → JS.Map_get m k = Some v.
Proof.
  induction m as [|[k0 v0] m IH]; cbn; intros Hnd Hin.
  - by apply elem_of_nil in Hin.
  - apply NoDup_cons in Hnd as [Hnotin Hnd].
    apply elem_of_cons in Hin as [[= -> ->]|Hin].
    + by rewrite String.eqb_refl.
    + destruct (String.eqb_spec k0 k) as [->|Hne]; [|by apply IH].
      destruct Hnotin. change k with (fst (k, v)). by apply list_elem_of_fmap_2.
Qed.

Section Reconciler.
Variable H : Host.
Variables headCommitOid authorLogin : string.
Variable isOwner : string → bool.

Abbreviation step := (analyzeReviews_step H headCommitOid authorLogin isOwner).
Abbreviation current := (currentIn headCommitOid authorLogin).

Lemma counted_inj (r : Review) (a a' : Actor) (c c' : ReviewCommit) :
  counted authorLogin r a c → counted authorLogin r a' c' → a = a' ∧ c = c'.
Proof. intros (Hc & Ha & _) (Hc' & Ha' & _). split; congruence. Qed.

(** What one turn of the loop does: nothing, for a review that is skipped
    or whose author has a review of the head commit already; or it records
    a stale review; or it records a review of the head commit. *)
Lemma analyzeReviews_step_cases (st : ReviewState) (r : option Review) :
  (step st r = st ∧
   ∀ r0 a c, r = Some r0 → counted authorLogin r0 a c →
             login a ∈ hasUpToDateReview st) ∨
  (∃ r0 a c, r = Some r0 ∧ counted authorLogin r0 a c ∧
             (login a ∉ hasUpToDateReview st) ∧ rv_oid c ≠ headCommitOid ∧
             hasUpToDateReview (step st r) = hasUpToDateReview st ∧
             staleReviewAuthorsByCommit (step st r) =
               JS.Map_set (staleReviewAuthorsByCommit st) (rv_abbreviatedOid c)
                 {| si_reviewer := login a; si_date := r_submittedAt r0 |}) ∨
  (∃ r0 a c, r = Some r0 ∧ counted authorLogin r0 a c ∧
             (login a ∉ hasUpToDateReview st) ∧ rv_oid c = headCommitOid ∧
             hasUpToDateReview (step st r) = JS.Set_add (hasUpToDateReview st) (login a) ∧
             staleReviewAuthorsByCommit (step st r) = staleReviewAuthorsByCommit st).
Proof.
  destruct r as [[[a|] [c|] sub rst assoc cm]|]; cbn;
    try (left; split; [done|]; intros r0 a' c' [= <-] (Hc & Ha & _); by cbn in * ).
  destruct (String.eqb_spec (login a) "") as [He|He].
  { left. split; [done|]. intros r0 a' c' [= <-] (_ & Ha & Hne & _).
    cbn in Ha. injection Ha as <-. done. }
  destruct (String.eqb_spec (login a) authorLogin) as [Hs|Hs].
  { left. split; [done|]. intros r0 a' c' [= <-] (_ & Ha & _ & Hne).
    cbn in Ha. injection Ha as <-. done. }
  assert (Hcounted : counted authorLogin
            {| r_author := Some a; r_commit := Some c; r_submittedAt := sub;
               r_state := rst; r_authorAssociation := assoc;
               r_comments_nodes := cm |} a c) by done.
  destruct (JS.Set_has (hasUpToDateReview st) (login a)) eqn:Ehas.
  { apply Set_has_true in Ehas. left.
    split; [by destruct (String.eqb_spec (rv_oid c) headCommitOid)|].
    intros r0 a' c' [= <-] Hc'. by destruct (counted_inj _ _ _ _ _ Hcounted Hc') as [<- _]. }
  apply Set_has_false in Ehas.
  destruct (String.eqb_spec (rv_oid c) headCommitOid) as [Hh|Hh]; cbn.
  - right. right. by eexists _, a, c.
  - right. left. by eexists _, a, c.
Qed.

Lemma current_nil (x : string) : ¬ current [] x.
Proof. intros (r & a & c & Hin & _). by apply elem_of_nil in Hin. Qed.

Lemma current_cons (r : option Review) (l : list (option Review)) (x : string) :
  current (r :: l) x ↔ current [r] x ∨ current l x.
Proof.
  split.
  - intros (r0 & a & c & [<-|Hin]%elem_of_cons & Hrest).
    + left. exists r0, a, c. split; [apply list_elem_of_here | done].
    + right. by exists r0, a, c.
  - intros [(r0 & a & c & <-%list_elem_of_singleton & Hrest)
           |(r0 & a & c & Hin & Hrest)].
    + exists r0, a, c. split; [apply list_elem_of_here | done].
    + exists r0, a, c. split; [by apply list_elem_of_further | done].
Qed.

Lemma current_app (l1 l2 : list (option Review)) (x : string) :
  current (l1 ++ l2) x ↔ current l1 x ∨ current l2 x.
Proof.
  split.
  - intros (r0 & a & c & [Hin|Hin]%elem_of_app & Hrest);
      [left | right]; by exists r0, a, c.
  - intros [(r0 & a & c & Hin & Hrest)|(r0 & a & c & Hin & Hrest)];
      exists r0, a, c; (split; [|done]); apply elem_of_app; [by left | by right].
Qed.

Lemma current_rev (l : list (option Review)) (x : string) :
  current (rev l) x ↔ current l x.
Proof.
  split; intros (r0 & a & c & Hin & Hrest); exists r0, a, c; (split; [|done]).
  - by apply (proj1 (elem_of_rev _ _)) in Hin.
  - by apply elem_of_rev.
Qed.

(** The authors with an up-to-date review after one turn. *)
Lemma hasUpToDateReview_step (st : ReviewState) (r : option Review) (x : string) :
  x ∈ hasUpToDateReview (step st r) ↔ x ∈ hasUpToDateReview st ∨ current [r] x.
Proof.
  destruct (analyzeReviews_step_cases st r)
    as [[-> Hall] | [(r0 & a & c & -> & Hc & Hnot & Hh & -> & _)
                    | (r0 & a & c & -> & Hc & Hnot & Hh & -> & _)]].
  - split; [by left|]. intros [?|(r0 & a & c & <-%list_elem_of_singleton & Hc & <- & _)];
      [done | by eapply Hall].
  - split; [by left|].
    intros [?|(r1 & a1 & c1 & [= <-]%list_elem_of_singleton & Hc1 & _ & Hh1)]; [done|].
    by destruct (counted_inj _ _ _ _ _ Hc Hc1) as [_ <-].
  - rewrite Set_add_elem. split.
    + intros [?| ->]; [by left|]. right. exists r0, a, c.
      split; [apply list_elem_of_here | done].
    + intros [?|(r1 & a1 & c1 & [= <-]%list_elem_of_singleton & Hc1 & <- & _)]; [by left|].
      right. by destruct (counted_inj _ _ _ _ _ Hc Hc1) as [<- _].
Qed.

(** The authors with an up-to-date review after the turns of [l]: those
    before, and the authors of the counted reviews of the head commit. *)
Lemma hasUpToDateReview_fold (l : list (option Review)) (st : ReviewState) (x : string) :
  x ∈ hasUpToDateReview (fold_left step l st) ↔
  x ∈ hasUpToDateReview st ∨ current l x.
Proof.
  revert st. induction l as [|r l IH]; intros st; cbn [fold_left].
  - split; [by left|]. intros [?|?%current_nil]; done.
  - rewrite IH, hasUpToDateReview_step, (current_cons r l). tauto.
Qed.

(** An entry of the map after one turn was there before, or is the stale
    review that the turn records. *)
Lemma stale_step_entry (st : ReviewState) (r : option Review) (k : string) (v : StaleInfo) :
  (k, v) ∈ staleReviewAuthorsByCommit (step st r) →
  (k, v) ∈ staleReviewAuthorsByCommit st ∨
  ∃ r0 a c, r = Some r0 ∧ counted authorLogin r0 a c ∧ rv_oid c ≠ headCommitOid ∧
            (login a ∉ hasUpToDateReview st) ∧ k = rv_abbreviatedOid c ∧
            v = {| si_reviewer := login a; si_date := r_submittedAt r0 |}.
Proof.
  destruct (analyzeReviews_step_cases st r)
    as [[-> _] | [(r0 & a & c & -> & Hc & Hnot & Hh & _ & ->)
                 | (r0 & a & c & -> & Hc & Hnot & Hh & _ & ->)]];
    [by left | | by left].
  intros [Hin|[= -> ->]]%Map_set_elem_inv; [by left|].
  right. by exists r0, a, c.
Qed.

(** The same for the turns of [l]: the entry comes from a review of [l]
    whose author had no up-to-date review when its turn came. *)
Lemma stale_fold_entry (l : list (option Review)) (st : ReviewState)
    (k : string) (v : StaleInfo) :
  (k, v) ∈ staleReviewAuthorsByCommit (fold_left step l st) →
  (k, v) ∈ staleReviewAuthorsByCommit st ∨
  ∃ l1 r0 l2 a c,
    l = (l1 ++ Some r0 :: l2)%list ∧ counted authorLogin r0 a c ∧
    rv_oid c ≠ headCommitOid ∧
    (login a ∉ hasUpToDateReview (fold_left step l1 st)) ∧
    k = rv_abbreviatedOid c ∧
    v = {| si_reviewer := login a; si_date := r_submittedAt r0 |}.
Proof.
  revert st. induction l as [|r l IH]; intros st; cbn [fold_left]; [by left|].
  intros [Hin|(l1 & r0 & l2 & a & c & -> & Hc & Hh & Hnot & -> & ->)]%IH.
  - apply stale_step_entry in Hin
      as [?|(r0 & a & c & -> & Hc & Hh & Hnot & -> & ->)]; [by left|].
    right. by exists [], r0, l, a, c.
  - right. by exists (r :: l1), r0, l2, a, c.
Qed.

(** A turn that records a stale review sets the entry of its commit. *)
Lemma stale_step_set (st : ReviewState) (r0 : Review) (a : Actor) (c : ReviewCommit) :
  counted authorLogin r0 a c → rv_oid c ≠ headCommitOid →
  login a ∉ hasUpToDateReview st →
  JS.Map_get (staleReviewAuthorsByCommit (step st (Some r0))) (rv_abbreviatedOid c) =
    Some {| si_reviewer := login a; si_date := r_submittedAt r0 |} ∧
  hasUpToDateReview (step st (Some r0)) = hasUpToDateReview st.
Proof.
  intros Hc Hh Hnot.
  destruct (analyzeReviews_step_cases st (Some r0))
    as [[_ Hall] | [(r1 & a1 & c1 & [= <-] & Hc1 & _ & _ & -> & ->)
                   | (r1 & a1 & c1 & [= <-] & Hc1 & _ & Hh1 & _)]].
  - destruct Hnot. by eapply Hall.
  - destruct (counted_inj _ _ _ _ _ Hc Hc1) as [<- <-].
    by rewrite Map_get_set_eq.
  - by destruct (counted_inj _ _ _ _ _ Hc Hc1) as [_ <-].
Qed.

(** A turn leaves the entry of commit [k] as it is unless it records a
    stale review of [k]. *)
Lemma stale_step_keep (st : ReviewState) (r : option Review) (k : string) :
  (∀ r0 a c, r = Some r0 → counted authorLogin r0 a c → rv_oid c ≠ headCommitOid →
             rv_abbreviatedOid c = k → login a ∈ hasUpToDateReview st) →
  JS.Map_get (staleReviewAuthorsByCommit (step st r)) k =
  JS.Map_get (staleReviewAuthorsByCommit st) k.
Proof.
  intros Hkeep.
  destruct (analyzeReviews_step_cases st r)
    as [[-> _] | [(r0 & a & c & -> & Hc & Hnot & Hh & _ & ->)
                 | (r0 & a & c & -> & Hc & Hnot & Hh & _ & ->)]]; [done | | done].
  apply Map_get_set_ne. intros Hk. destruct Hnot. by eapply Hkeep.
Qed.

Lemma stale_fold_keep (l : list (option Review)) (st : ReviewState) (k : string) :
  (∀ l1 r0 l2 a c,
     l = (l1 ++ Some r0 :: l2)%list → counted authorLogin r0 a c →
     rv_oid c ≠ headCommitOid → rv_abbreviatedOid c = k →
     login a ∈ hasUpToDateReview st ∨ current l1 (login a)) →
  JS.Map_get (staleReviewAuthorsByCommit (fold_left step l st)) k =
  JS.Map_get (staleReviewAuthorsByCommit st) k.
Proof.
  revert st. induction l as [|r l IH]; intros st Hkeep; cbn [fold_left]; [done|].
  rewrite IH.
  - apply stale_step_keep. intros r0 a c -> Hc Hh Hk.
    destruct (Hkeep [] r0 l a c eq_refl Hc Hh Hk) as [?|?%current_nil]; done.
  - intros l1 r0 l2 a c -> Hc Hh Hk.
    rewrite hasUpToDateReview_step.
    destruct (Hkeep (r :: l1) r0 l2 a c eq_refl Hc Hh Hk) as [?|Hcur]; [by left; left|].
    apply current_cons in Hcur as [?|?]; [left; by right | by right].
Qed.

Lemma stale_step_NoDup (st : ReviewState) (r : option Review) :
  NoDup (map fst (staleReviewAuthorsByCommit st)) →
  NoDup (map fst (staleReviewAuthorsByCommit (step st r))).
Proof.
  intros Hnd.
  destruct (analyzeReviews_step_cases st r)
    as [[-> _] | [(r0 & a & c & -> & _ & _ & _ & _ & ->)
                 | (r0 & a & c & -> & _ & _ & _ & _ & ->)]]; [done | | done].
  by apply Map_set_NoDup.
Qed.

Lemma stale_fold_NoDup (l : list (option Review)) (st : ReviewState) :
  NoDup (map fst (staleReviewAuthorsByCommit st)) →
  NoDup (map fst (staleReviewAuthorsByCommit (fold_left step l st))).
Proof.
  revert st. induction l as [|r l IH]; intros st Hnd; cbn [fold_left]; [done|].
  by apply IH, stale_step_NoDup.
Qed.

(** No stale review of [x] is recorded by the turns of [l] once [x] has an
    up-to-date review. *)
Lemma stale_fold_current (l : list (option Review)) (st : ReviewState) (x : string) :
  x ∈ hasUpToDateReview st →
  (∀ k v, (k, v) ∈ staleReviewAuthorsByCommit st → si_reviewer v ≠ x) →
  ∀ k v, (k, v) ∈ staleReviewAuthorsByCommit (fold_left step l st) →
         si_reviewer v ≠ x.
Proof.
  intros Hx Hst k v [?|(l1 & r0 & l2 & a & c & -> & Hc & Hh & Hnot & -> & ->)]%stale_fold_entry;
    [by eapply Hst|].
  cbn. intros Heq. apply Hnot. rewrite hasUpToDateReview_fold, Heq. by left.
Qed.

(** The loop on the reviews in reverse order, cut at one review. *)
Lemma analyzeReviews_loop_split (pre post : list (option Review)) (r : Review) :
  analyzeReviews_loop H headCommitOid authorLogin isOwner
    (rev (pre ++ Some r :: post)) =
  fold_left step (rev pre)
    (step (fold_left step (rev post) analyzeReviews_init) (Some r)).
Proof.
  unfold analyzeReviews_loop.
  rewrite rev_app_distr. cbn [rev]. rewrite <- app_assoc. cbn [app].
  by rewrite fold_left_app.
Qed.

Lemma hasUpToDateReview_loop (post : list (option Review)) (x : string) :
  x ∈ hasUpToDateReview (fold_left step (rev post) analyzeReviews_init) ↔
  current post x.
Proof.
  rewrite hasUpToDateReview_fold, current_rev. cbn. rewrite elem_of_nil. tauto.
Qed.

End Reconciler.

Lemma reviewersWithStaleReviews_elem (H : Host) (prInfo : PullRequest)
    (authorLogin : string) (isOwner : string → bool) (e : StaleReview) :
  e ∈ ra_reviewersWithStaleReviews (analyzeReviews H prInfo authorLogin isOwner) ↔
  (reviewedAbbrOid e, {| si_reviewer := reviewer e; si_date := date e |}) ∈
    staleReviewAuthorsByCommit
      (analyzeReviews_loop H (headRefOid prInfo) authorLogin isOwner
         (rev (default [] (reviews_nodes prInfo)))).
Proof.
  unfold analyzeReviews. cbn [ra_reviewersWithStaleReviews].
  change (map ?f ?l) with (f <$> l). rewrite list_elem_of_fmap. split.
  - intros ([k [w d]] & -> & Hin). done.
  - intros Hin. eexists (_, _). split; [|exact Hin]. by destruct e.
Qed.

(** C4. A reviewer whose most recent counted review is of the head commit
    is not listed in [reviewersWithStaleReviews]; and whoever is listed
    there is listed for a counted review of another commit that no later
    review of the head commit by the same reviewer follows. *)
Theorem analyzeReviews_current_reviewer_not_stale (H : Host) (prInfo : PullRequest)
    (authorLogin : string) (isOwner : string → bool) :
  let out := ra_reviewersWithStaleReviews (analyzeReviews H prInfo authorLogin isOwner) in
  (∀ pre r post a c,
     reviews_nodes prInfo = Some (pre ++ Some r :: post)%list →
     counted authorLogin r a c →
     rv_oid c = headRefOid prInfo →
     (∀ r' a' c', Some r' ∈ post → counted authorLogin r' a' c' → login a' ≠ login a) →
     ∀ e, e ∈ out → reviewer e ≠ login a) ∧
  (∀ e, e ∈ out →
     ∃ pre r post a c,
       reviews_nodes prInfo = Some (pre ++ Some r :: post)%list ∧
       counted authorLogin r a c ∧
       rv_oid c ≠ headRefOid prInfo ∧
       e = staleEntry r a c ∧
       ∀ r' a' c', Some r' ∈ post → r_author r' = Some a' → r_commit r' = Some c' →
                   login a' = login a → rv_oid c' ≠ headRefOid prInfo).
Proof.
  intros out. split.
  - intros pre r post a c Hl Hc Hh Hlast e He.
    apply reviewersWithStaleReviews_elem in He. rewrite Hl in He. cbn [from_option id] in He.
    rewrite analyzeReviews_loop_split in He.
    revert He. apply (stale_fold_current H (headRefOid prInfo) authorLogin isOwner).
    + apply hasUpToDateReview_step. right. exists r, a, c.
      split; [apply list_elem_of_here | done].
    + intros k v [Hin|(r0 & a0 & c0 & [= <-] & Hc0 & Hh0 & _)]%stale_step_entry.
      * apply stale_fold_entry in Hin
          as [Hin|(l1 & r0 & l2 & a0 & c0 & Hrev & Hc0 & _ & _ & _ & ->)];
          [by apply elem_of_nil in Hin|].
        cbn. apply (Hlast r0 a0 c0); [|done].
        apply elem_of_rev. rewrite Hrev, elem_of_app. right. apply list_elem_of_here.
      * by destruct (counted_inj _ _ _ _ _ _ Hc Hc0) as [_ <-].
  - intros e He. apply reviewersWithStaleReviews_elem in He.
    apply stale_fold_entry in He
      as [Hin|(l1 & r0 & l2 & a & c & Hrev & Hc & Hh & Hnot & Hk & [= Hr Hd])];
      [by apply elem_of_nil in Hin|].
    destruct (reviews_nodes prInfo) as [reviews|]; [|by destruct l1].
    cbn [from_option id] in Hrev.
    exists (rev l2), r0, (rev l1), a, c. split_and!; [| done | done | |].
    + rewrite <- (rev_involutive reviews), Hrev, rev_app_distr. cbn [rev].
      by rewrite <- app_assoc.
    + destruct e. cbn in *. unfold staleEntry. congruence.
    + intros r' a' c' Hin Ha' Hc' Hlogin Hhead. apply Hnot.
      apply hasUpToDateReview_fold. right. exists r', a', c'.
      split; [by apply (proj1 (elem_of_rev _ _)) in Hin|].
      destruct Hc as (_ & _ & Hne & Hself).
      split; [|done]. unfold counted. rewrite Hlogin. done.
Qed.

Lemma analyzeReviews_current_reviewer_not_stale_witness :
  Forall (fun e => reviewer e ≠ "ann")
    (ra_reviewersWithStaleReviews
       (analyzeReviews Example.host Example.ordinary "dana" (fun _ => false))).
Proof.
  apply Forall_forall.
  apply (proj1 (analyzeReviews_current_reviewer_not_stale Example.host Example.ordinary
                  "dana" (fun _ => false))
           [Example.review "ann" "h1" "2000" APPROVED]
           {| r_author := Some {| login := "ann" |};
              r_commit := Some {| rv_oid := "h2"; rv_abbreviatedOid := "h2" |};
              r_submittedAt := "6000"; r_state := APPROVED;
              r_authorAssociation := CONTRIBUTOR; r_comments_nodes := None |}
           [] {| login := "ann" |} {| rv_oid := "h2"; rv_abbreviatedOid := "h2" |}
           eq_refl).
  - by vm_compute.
  - reflexivity.
  - intros r' a' c' Hin. by apply elem_of_nil in Hin.
Defined.

(** C2 (the code departs from it). A counted review of a commit other than
    the head, by an author who has no later counted review of the head
    commit, is recorded at its turn as the stale review of its commit, in
    place of the review recorded there before.  So the review listed for a commit is
    the last qualifying one met in reverse order, the oldest: it is the one
    listed, and the only one listed for its commit, when every older counted
    review of that commit is by an author with a later counted review of
    the head commit. *)
Theorem analyzeReviews_stale_oldest_wins (H : Host) (prInfo : PullRequest)
    (authorLogin : string) (isOwner : string → bool)
    (pre post : list (option Review)) (r : Review) (a : Actor) (c : ReviewCommit) :
  reviews_nodes prInfo = Some (pre ++ Some r :: post)%list →
  counted authorLogin r a c →
  rv_oid c ≠ headRefOid prInfo →
  ¬ currentIn (headRefOid prInfo) authorLogin post (login a) →
  let out := ra_reviewersWithStaleReviews (analyzeReviews H prInfo authorLogin isOwner) in
  JS.Map_get
    (staleReviewAuthorsByCommit
       (analyzeReviews_loop H (headRefOid prInfo) authorLogin isOwner
          (rev (Some r :: post))))
    (rv_abbreviatedOid c) =
    Some {| si_reviewer := login a; si_date := r_submittedAt r |} ∧
  ((∀ pre1 r1 post1 a1 c1,
      pre = (pre1 ++ Some r1 :: post1)%list →
      counted authorLogin r1 a1 c1 →
      rv_oid c1 ≠ headRefOid prInfo →
      rv_abbreviatedOid c1 = rv_abbreviatedOid c →
      currentIn (headRefOid prInfo) authorLogin (post1 ++ Some r :: post) (login a1)) →
   staleEntry r a c ∈ out ∧
   ∀ e, e ∈ out → reviewedAbbrOid e = rv_abbreviatedOid c → e = staleEntry r a c).
Proof.
  intros Hl Hc Hh Hnot out.
  assert (Hnot1 : login a ∉ hasUpToDateReview
            (fold_left (analyzeReviews_step H (headRefOid prInfo) authorLogin isOwner)
               (rev post) analyzeReviews_init))
    by (by rewrite hasUpToDateReview_loop).
  destruct (stale_step_set H (headRefOid prInfo) authorLogin isOwner _ r a c Hc Hh Hnot1)
    as [Hset Hsame].
  split.
  { pose proof (analyzeReviews_loop_split H (headRefOid prInfo) authorLogin isOwner
                  [] post r) as E.
    cbn [app] in E. rewrite E. exact Hset. }
  intros Holder.
  assert (Hget : JS.Map_get
            (staleReviewAuthorsByCommit
               (analyzeReviews_loop H (headRefOid prInfo) authorLogin isOwner
                  (rev (default [] (reviews_nodes prInfo)))))
            (rv_abbreviatedOid c) =
            Some {| si_reviewer := login a; si_date := r_submittedAt r |}).
  { rewrite Hl. cbn [from_option id]. rewrite analyzeReviews_loop_split.
    rewrite stale_fold_keep; [exact Hset|].
    intros l1 r1 l2 a1 c1 Hrev Hc1 Hh1 Hk. rewrite Hsame.
    assert (Hpre : pre = (rev l2 ++ Some r1 :: rev l1)%list).
    { rewrite <- (rev_involutive pre), Hrev, rev_app_distr. cbn [rev].
      by rewrite <- app_assoc. }
    apply (Holder _ _ _ _ _ Hpre Hc1 Hh1) in Hk.
    apply current_app in Hk as [Hk|Hk];
      [right; by apply (proj1 (current_rev _ _ _ _)) in Hk|].
    apply current_cons in Hk as [(r2 & a2 & c2 & [= <-]%list_elem_of_singleton & Hc2 & _ & Hh2)|Hk].
    - by destruct (counted_inj _ _ _ _ _ _ Hc Hc2) as [_ <-].
    - left. by apply hasUpToDateReview_loop. }
  split.
  - apply reviewersWithStaleReviews_elem. cbn. by apply Map_get_elem.
  - intros e He Hk. apply reviewersWithStaleReviews_elem in He.
    apply Map_elem_get in He.
    + rewrite Hk, Hget in He. destruct e. cbn in *. unfold staleEntry. congruence.
    + apply stale_fold_NoDup. cbn. apply NoDup_nil_2.
Qed.

Lemma analyzeReviews_stale_oldest_wins_witness :
  {| reviewer := "ann"; reviewedAbbrOid := "h1"; date := "2000" |} ∈
  ra_reviewersWithStaleReviews
    (analyzeReviews Example.host Example.twiceStale "dana" (fun _ => false)).
Proof.
  pose (r := {| r_author := Some {| login := "ann" |};
                r_commit := Some {| rv_oid := "h1"; rv_abbreviatedOid := "h1" |};
                r_submittedAt := "2000"; r_state := COMMENTED;
                r_authorAssociation := CONTRIBUTOR; r_comments_nodes := None |}).
  apply (proj1 (proj2 (analyzeReviews_stale_oldest_wins Example.host Example.twiceStale
           "dana" (fun _ => false) [] [Example.review "ann" "h1" "3000" COMMENTED]
           r {| login := "ann" |} {| rv_oid := "h1"; rv_abbreviatedOid := "h1" |}
           eq_refl ltac:(by vm_compute) ltac:(by vm_compute)
           ltac:(intros (r' & a' & c' & Hin%list_elem_of_singleton & (Hc' & _) & _ & Hh');
                 injection Hin as ->; cbn in Hc'; injection Hc' as <-;
                 discriminate Hh'))
           ltac:(intros [|? ?] ? ? ? ? Hpre; discriminate Hpre))).
Defined.

(** C2, as it is stated, fails: of two reviews of commit [h1] by the same
    reviewer, the one met first in reverse order, the more recent, is not
    the one listed. *)
Lemma first_seen_in_reverse_wins_fails : ¬ first_seen_in_reverse_wins.
Proof.
  intros Hclaim.
  specialize (Hclaim Example.host Example.twiceStale "dana" (fun _ => false)
                [Example.review "ann" "h1" "2000" COMMENTED] []
                {| r_author := Some {| login := "ann" |};
                   r_commit := Some {| rv_oid := "h1"; rv_abbreviatedOid := "h1" |};
                   r_submittedAt := "3000"; r_state := COMMENTED;
                   r_authorAssociation := CONTRIBUTOR; r_comments_nodes := None |}
                {| login := "ann" |} {| rv_oid := "h1"; rv_abbreviatedOid := "h1" |}
                eq_refl).
  assert (Hin : staleEntry
            {| r_author := Some {| login := "ann" |};
               r_commit := Some {| rv_oid := "h1"; rv_abbreviatedOid := "h1" |};
               r_submittedAt := "3000"; r_state := COMMENTED;
               r_authorAssociation := CONTRIBUTOR; r_comments_nodes := None |}
            {| login := "ann" |} {| rv_oid := "h1"; rv_abbreviatedOid := "h1" |} ∈
          ra_reviewersWithStaleReviews
            (analyzeReviews Example.host Example.twiceStale "dana" (fun _ => false))).
  { apply Hclaim.
    - by vm_compute.
    - by vm_compute.
    - intros (r' & a' & c' & Hin & _). by apply elem_of_nil in Hin.
    - intros r' c' Hin. by apply elem_of_nil in Hin. }
  apply list_elem_of_In in Hin. vm_compute in Hin.
  destruct Hin as [Heq|[]]. discriminate Heq.
Qed.

(** The map of the stale reviews is keyed by the commit alone: of two
    reviewers of commit [h1], only the one whose review is the older is
    listed, and the other is lost. *)
Lemma second_stale_reviewer_lost :
  ra_reviewersWithStaleReviews
    (analyzeReviews Example.host Samples.twoStale "dana" (fun _ => false)) =
  [{| reviewer := "bob"; reviewedAbbrOid := "h1"; date := "2000" |}].
Proof. vm_compute. reflexivity. Qed.

(** ** The review reconciler: what it computes for the head commit *)

Section ReviewFields.
Variable H : Host.
Variables headCommitOid authorLogin : string.
Variable isOwner : string → bool.

Abbreviation step := (analyzeReviews_step H headCommitOid authorLogin isOwner).
Abbreviation effective := (effectiveIn H headCommitOid authorLogin isOwner).

(** One turn of the loop, for the three results about the head commit:
    either the review is the one that counts for its author, or the three
    stay as they are. *)
Lemma analyzeReviews_step_fields (st : ReviewState) (r : option Review) :
  (∃ r0 a c, r = Some r0 ∧ counted authorLogin r0 a c ∧ rv_oid c = headCommitOid ∧
     (login a ∉ hasUpToDateReview st) ∧
     rs_isChangesRequested (step st r) =
       bool_decide (r_state r0 = CHANGES_REQUESTED) || rs_isChangesRequested st ∧
     rs_approvalFlags (step st r) =
       Z.lor (rs_approvalFlags st) (approvalOf isOwner r0 a) ∧
     rs_lastReviewDate (step st r) =
       Some (laterDate (rs_lastReviewDate st) (Date_new H (r_submittedAt r0)))) ∨
  ((∀ r0 a c, r = Some r0 → counted authorLogin r0 a c → rv_oid c = headCommitOid →
              login a ∈ hasUpToDateReview st) ∧
   rs_isChangesRequested (step st r) = rs_isChangesRequested st ∧
   rs_approvalFlags (step st r) = rs_approvalFlags st ∧
   rs_lastReviewDate (step st r) = rs_lastReviewDate st).
Proof.
  destruct r as [[[a|] [c|] sub rst assoc cm]|]; cbn;
    try (right; split; [|done]; intros r0 a' c' [= <-] (Hc & Ha & _); by cbn in * ).
  destruct (String.eqb_spec (login a) "") as [He|He].
  { right. split; [|done]. intros r0 a' c' [= <-] (_ & Ha & Hne & _).
    cbn in Ha. injection Ha as <-. done. }
  destruct (String.eqb_spec (login a) authorLogin) as [Hs|Hs].
  { right. split; [|done]. intros r0 a' c' [= <-] (_ & Ha & _ & Hne).
    cbn in Ha. injection Ha as <-. done. }
  assert (Hcounted : counted authorLogin
            {| r_author := Some a; r_commit := Some c; r_submittedAt := sub;
               r_state := rst; r_authorAssociation := assoc;
               r_comments_nodes := cm |} a c) by done.
  destruct (String.eqb_spec (rv_oid c) headCommitOid) as [Hh|Hh]; cbn.
  - destruct (JS.Set_has (hasUpToDateReview st) (login a)) eqn:Ehas; cbn.
    + apply Set_has_true in Ehas. right. split; [|done].
      intros r0 a' c' [= <-] Hc' _.
      by destruct (counted_inj _ _ _ _ _ _ Hcounted Hc') as [<- _].
    + apply Set_has_false in Ehas. left. eexists _, a, c.
      split_and!; [done | done | done | done | | |].
      * cbn [r_state]. rewrite bool_decide_decide.
        by destruct (decide (rst = CHANGES_REQUESTED)).
      * unfold approvalOf, ApprovalFlags.None_. cbn [r_state r_authorAssociation].
        destruct (decide (rst = CHANGES_REQUESTED)) as [->|Hcr].
        { destruct (decide (CHANGES_REQUESTED = APPROVED)); [done|]. by rewrite Z.lor_0_r. }
        destruct (decide (rst = APPROVED)); [|by rewrite Z.lor_0_r].
        by repeat case_match.
      * unfold laterDate. destruct (rs_lastReviewDate st) as [d|]; [|done].
        by destruct (JS.Date_gt d _).
  - right. split; [|by destruct (JS.Set_has _ _)].
    intros r0 a' c' [= <-] Hc' Hh'.
    by destruct (counted_inj _ _ _ _ _ _ Hcounted Hc') as [_ <-].
Qed.

Lemma effectiveIn_cons (r : option Review) (l : list (option Review))
    (st : ReviewState) (r0 : Review) (a : Actor) :
  effective (r :: l) st r0 a ↔
  (r = Some r0 ∧ ∃ c, counted authorLogin r0 a c ∧ rv_oid c = headCommitOid ∧
                      login a ∉ hasUpToDateReview st) ∨
  effective l (step st r) r0 a.
Proof.
  split.
  - intros ([|r' l1] & l2 & c & Hl & Hc & Hh & Hnot).
    + injection Hl as -> _. left. split; [done|]. by exists c.
    + injection Hl as -> ->. right. by exists l1, l2, c.
  - intros [[-> (c & Hc & Hh & Hnot)]|(l1 & l2 & c & -> & Hc & Hh & Hnot)].
    + by exists [], l, c.
    + by exists (r :: l1), l2, c.
Qed.

Lemma effectiveIn_nil (st : ReviewState) (r0 : Review) (a : Actor) :
  ¬ effective [] st r0 a.
Proof. intros (l1 & l2 & c & Hl & _). by destruct l1. Qed.

(** Changes are requested after the turns of [l] when they were before,
    or when a review that counts requests them. *)
Lemma isChangesRequested_fold (l : list (option Review)) (st : ReviewState) :
  rs_isChangesRequested (fold_left step l st) = true ↔
  rs_isChangesRequested st = true ∨
  ∃ r0 a, effective l st r0 a ∧ r_state r0 = CHANGES_REQUESTED.
Proof.
  revert st. induction l as [|r l IH]; intros st; cbn [fold_left].
  - split; [by left|]. intros [?|(r0 & a & ?%effectiveIn_nil & _)]; done.
  - rewrite IH. setoid_rewrite effectiveIn_cons.
    destruct (analyzeReviews_step_fields st r)
      as [(r1 & a1 & c1 & -> & Hc1 & Hh1 & Hnot1 & -> & _)|(Hall & -> & _)].
    + rewrite orb_true_iff, bool_decide_eq_true. split.
      * intros [[Hcr|?]|(r0 & a & Heff & Hcr)]; [|by left|].
        -- right. exists r1, a1. split; [|done]. left. split; [done|]. by exists c1.
        -- right. exists r0, a. split; [by right | done].
      * intros [?|(r0 & a & [[[= <-] _]|Heff] & Hcr)]; [by left; right| |].
        -- by left; left.
        -- right. by exists r0, a.
    + split.
      * intros [?|(r0 & a & Heff & Hcr)]; [by left|].
        right. exists r0, a. split; [by right | done].
      * intros [?|(r0 & a & [[-> (c & Hc & Hh & Hnot)]|Heff] & Hcr)]; [by left| |].
        -- destruct Hnot. by eapply Hall.
        -- right. by exists r0, a.
Qed.

(** A bit of [approvalFlags] is set after the turns of [l] when it was
    before, or when a review that counts sets it. *)
Lemma approvalFlags_fold (l : list (option Review)) (st : ReviewState) (n : Z) :
  Z.testbit (rs_approvalFlags (fold_left step l st)) n = true ↔
  Z.testbit (rs_approvalFlags st) n = true ∨
  ∃ r0 a, effective l st r0 a ∧ Z.testbit (approvalOf isOwner r0 a) n = true.
Proof.
  revert st. induction l as [|r l IH]; intros st; cbn [fold_left].
  - split; [by left|]. intros [?|(r0 & a & ?%effectiveIn_nil & _)]; done.
  - rewrite IH. setoid_rewrite effectiveIn_cons.
    destruct (analyzeReviews_step_fields st r)
      as [(r1 & a1 & c1 & -> & Hc1 & Hh1 & Hnot1 & _ & -> & _)|(Hall & _ & -> & _)].
    + rewrite Z.lor_spec, orb_true_iff. split.
      * intros [[?|Hbit]|(r0 & a & Heff & Hbit)]; [by left| |].
        -- right. exists r1, a1. split; [|done]. left. split; [done|]. by exists c1.
        -- right. exists r0, a. split; [by right | done].
      * intros [?|(r0 & a & [[[= <-] (c & Hc & _)]|Heff] & Hbit)]; [by left; left| |].
        -- destruct (counted_inj _ _ _ _ _ _ Hc1 Hc) as [<- _]. by left; right.
        -- right. by exists r0, a.
    + split.
      * intros [?|(r0 & a & Heff & Hbit)]; [by left|].
        right. exists r0, a. split; [by right | done].
      * intros [?|(r0 & a & [[-> (c & Hc & Hh & Hnot)]|Heff] & Hbit)]; [by left| |].
        -- destruct Hnot. by eapply Hall.
        -- right. by exists r0, a.
Qed.

Lemma approvalOf_range (r : Review) (a : Actor) :
  approvalOf isOwner r a = 0 ∨ approvalOf isOwner r a = 1 ∨
  approvalOf isOwner r a = 2 ∨ approvalOf isOwner r a = 4.
Proof. unfold approvalOf. repeat case_match; auto. Qed.

Lemma lor_range (x y : Z) :
  0 ≤ x < 8 → y = 0 ∨ y = 1 ∨ y = 2 ∨ y = 4 → 0 ≤ Z.lor x y < 8.
Proof.
  intros Hx Hy.
  assert (x = 0 ∨ x = 1 ∨ x = 2 ∨ x = 3 ∨ x = 4 ∨ x = 5 ∨ x = 6 ∨ x = 7) as Hx' by lia.
  repeat (destruct Hx' as [->|Hx']); try subst x;
    repeat (destruct Hy as [->|Hy]); try subst y; by vm_compute.
Qed.

Lemma approvalFlags_range (l : list (option Review)) (st : ReviewState) :
  0 ≤ rs_approvalFlags st < 8 → 0 ≤ rs_approvalFlags (fold_left step l st) < 8.
Proof.
  revert st. induction l as [|r l IH]; intros st Hst; cbn [fold_left]; [done|].
  apply IH.
  destruct (analyzeReviews_step_fields st r)
    as [(r1 & a1 & c1 & _ & _ & _ & _ & _ & -> & _)|(_ & _ & -> & _)]; [|done].
  apply lor_range; [done | apply approvalOf_range].
Qed.

(** There is no date of a last review after the turns of [l] when there
    was none before and no review counts. *)
Lemma lastReviewDate_fold_None (l : list (option Review)) (st : ReviewState) :
  rs_lastReviewDate (fold_left step l st) = None ↔
  rs_lastReviewDate st = None ∧ ∀ r0 a, ¬ effective l st r0 a.
Proof.
  revert st. induction l as [|r l IH]; intros st; cbn [fold_left].
  - split; [|by intros [? _]]. intros Hn. split; [done|]. intros r0 a. apply effectiveIn_nil.
  - rewrite IH. setoid_rewrite effectiveIn_cons.
    destruct (analyzeReviews_step_fields st r)
      as [(r1 & a1 & c1 & -> & Hc1 & Hh1 & Hnot1 & _ & _ & ->)|(Hall & _ & _ & ->)].
    + split; [by intros [? _]|]. intros [_ Hno]. destruct (Hno r1 a1).
      left. split; [done|]. by exists c1.
    + split.
      * intros [Hn Hno]. split; [done|]. intros r0 a [[-> (c & Hc & Hh & Hnot)]|Heff].
        -- destruct Hnot. by eapply Hall.
        -- by apply (Hno r0 a).
      * intros [Hn Hno]. split; [done|]. intros r0 a Heff. apply (Hno r0 a). by right.
Qed.

(** The reviews that count in the loop over the reviews in reverse order
    are the most recent counted reviews of the head commit by their
    authors. *)
Lemma effectiveIn_latest (reviews : list (option Review)) (r0 : Review) (a : Actor) :
  effective (rev reviews) analyzeReviews_init r0 a ↔
  latestOnHead headCommitOid authorLogin reviews r0 a.
Proof.
  split.
  - intros (l1 & l2 & c & Hrev & Hc & Hh & Hnot).
    exists (rev l2), (rev l1), c. split_and!; [|done|done|].
    + rewrite <- (rev_involutive reviews), Hrev, rev_app_distr. cbn [rev].
      by rewrite <- app_assoc.
    + intros Hcur. apply Hnot. apply hasUpToDateReview_fold. right.
      by apply (proj1 (current_rev _ _ _ _)) in Hcur.
  - intros (pre & post & c & -> & Hc & Hh & Hnot).
    exists (rev post), (rev pre), c. split_and!; [|done|done|].
    + rewrite rev_app_distr. cbn [rev]. by rewrite <- app_assoc.
    + intros [Hin|Hcur]%hasUpToDateReview_fold; [by apply elem_of_nil in Hin|].
      apply Hnot. by apply (proj1 (current_rev _ _ _ _)) in Hcur.
Qed.

End ReviewFields.

Section ReviewDates.
Variable H : Host.
Variables headCommitOid authorLogin : string.
Variable isOwner : string → bool.

Abbreviation step := (analyzeReviews_step H headCommitOid authorLogin isOwner).
Abbreviation effective := (effectiveIn H headCommitOid authorLogin isOwner).

Lemma laterDate_valid (d : option JS.Date) (t : Z) :
  (∀ d', d = Some d' → ∃ m0, d' = JS.ValidDate m0) →
  ∃ m, laterDate d (JS.ValidDate t) = JS.ValidDate m ∧ t ≤ m ∧
       (m = t ∨ d = Some (JS.ValidDate m)) ∧
       (∀ m0, d = Some (JS.ValidDate m0) → m0 ≤ m).
Proof.
  intros Hd. destruct d as [d'|]; cbn.
  - destruct (Hd d' eq_refl) as [m0 ->]. cbn. case_bool_decide.
    + exists m0. split_and!; [done | lia | by right |]. by intros ? [= <-].
    + exists t. split_and!; [done | lia | by left |]. intros ? [= <-]. lia.
  - exists t. split_and!; [done | lia | by left | done].
Qed.

(** When the dates of the reviews that count are valid, the date of the
    last review is the latest of them. *)
Lemma lastReviewDate_fold_max (l : list (option Review)) (st : ReviewState) :
  (∀ r0 a, effective l st r0 a → ∃ t, Date_new H (r_submittedAt r0) = JS.ValidDate t) →
  (∀ d, rs_lastReviewDate st = Some d → ∃ m0, d = JS.ValidDate m0) →
  ∀ d, rs_lastReviewDate (fold_left step l st) = Some d →
    ∃ m, d = JS.ValidDate m ∧
      (rs_lastReviewDate st = Some (JS.ValidDate m) ∨
       ∃ r0 a, effective l st r0 a ∧ Date_new H (r_submittedAt r0) = JS.ValidDate m) ∧
      (∀ m0, rs_lastReviewDate st = Some (JS.ValidDate m0) → m0 ≤ m) ∧
      (∀ r0 a t, effective l st r0 a →
                 Date_new H (r_submittedAt r0) = JS.ValidDate t → t ≤ m).
Proof.
  revert st. induction l as [|r l IH]; intros st Hvalid Hst d; cbn [fold_left].
  - intros Hd. destruct (Hst d Hd) as [m ->]. exists m.
    split_and!; [done | by left | by intros ? [= <-]%(eq_trans (eq_sym Hd)) |].
    intros r0 a t ?%effectiveIn_nil. done.
  - intros Hd.
    assert (Hsub : ∀ r0 a, effective l (step st r) r0 a → effective (r :: l) st r0 a)
      by (intros r0 a Heff; apply effectiveIn_cons; by right).
    destruct (analyzeReviews_step_fields H headCommitOid authorLogin isOwner st r)
      as [(r1 & a1 & c1 & -> & Hc1 & Hh1 & Hnot1 & _ & _ & Hdate)|(Hall & _ & _ & Hdate)].
    + assert (Heff1 : effective (Some r1 :: l) st r1 a1).
      { apply effectiveIn_cons. left. split; [done|]. by exists c1. }
      destruct (Hvalid r1 a1 Heff1) as [t1 Ht1]. rewrite Ht1 in Hdate.
      destruct (laterDate_valid (rs_lastReviewDate st) t1 Hst)
        as (m1 & Hm1 & Hle1 & Hfrom1 & Hge1).
      rewrite Hm1 in Hdate.
      destruct (IH (step st (Some r1))
                  (fun r0 a Heff => Hvalid r0 a (Hsub r0 a Heff))
                  ltac:(rewrite Hdate; intros ? [= <-]; by eexists) d Hd)
        as (m & -> & Hfrom & Hge & Hmax).
      rewrite Hdate in Hfrom, Hge. specialize (Hge m1 eq_refl).
      exists m. split_and!; [done | | |].
      * destruct Hfrom as [[= <-]|(r0 & a & Heff & Hr0)].
        -- destruct Hfrom1 as [->|?]; [|by left]. right. by exists r1, a1.
        -- right. exists r0, a. split; [by apply Hsub | done].
      * intros m0 Hm0. specialize (Hge1 m0 Hm0). lia.
      * intros r0 a t [[[= <-] _]|Heff]%effectiveIn_cons Ht.
        -- rewrite Ht1 in Ht. injection Ht as <-. lia.
        -- by eapply Hmax.
    + destruct (IH (step st r)
                  (fun r0 a Heff => Hvalid r0 a (Hsub r0 a Heff))
                  ltac:(by rewrite Hdate) d Hd)
        as (m & -> & Hfrom & Hge & Hmax).
      rewrite Hdate in Hfrom, Hge.
      exists m. split_and!; [done | | done |].
      * destruct Hfrom as [?|(r0 & a & Heff & Hr0)]; [by left|].
        right. exists r0, a. split; [by apply Hsub | done].
      * intros r0 a t [[-> (c & Hc & Hh & Hnot)]|Heff]%effectiveIn_cons Ht.
        -- destruct Hnot. by eapply Hall.
        -- by eapply Hmax.
Qed.

End ReviewDates.

(** X1. Whether changes are requested: exactly when the most recent
    counted review of the head commit by some reviewer requests them.  An
    older request for changes by a reviewer who has reviewed the head commit
    again since, and a request made on another commit, do not count. *)
Theorem analyzeReviews_isChangesRequested_iff (H : Host) (prInfo : PullRequest)
    (authorLogin : string) (isOwner : string → bool) :
  ra_isChangesRequested (analyzeReviews H prInfo authorLogin isOwner) = true ↔
  ∃ r a, latestOnHead (headRefOid prInfo) authorLogin
           (default [] (reviews_nodes prInfo)) r a ∧
         r_state r = CHANGES_REQUESTED.
Proof.
  unfold analyzeReviews, analyzeReviews_loop. cbn [ra_isChangesRequested].
  rewrite isChangesRequested_fold. cbn [rs_isChangesRequested analyzeReviews_init].
  setoid_rewrite effectiveIn_latest. split.
  - intros [?|?]; done.
  - by right.
Qed.

(** X2. The approval flags are a set of the three bits and nothing else;
    each bit is set exactly when the most recent counted review of the head
    commit by some reviewer is an approval of the matching role: Maintainer
    for a member or owner of the organisation, else Owner for a reviewer that
    [isOwner] accepts, else Other. *)
Theorem analyzeReviews_approvalFlags_bits (H : Host) (prInfo : PullRequest)
    (authorLogin : string) (isOwner : string → bool) :
  let flags := ra_approvalFlags (analyzeReviews H prInfo authorLogin isOwner) in
  let latest := latestOnHead (headRefOid prInfo) authorLogin
                  (default [] (reviews_nodes prInfo)) in
  let maintainer r :=
    r_authorAssociation r = MEMBER ∨ r_authorAssociation r = OWNER in
  0 ≤ flags < 8 ∧
  (Z.land flags ApprovalFlags.Maintainer ≠ 0 ↔
     ∃ r a, latest r a ∧ r_state r = APPROVED ∧ maintainer r) ∧
  (Z.land flags ApprovalFlags.Owner ≠ 0 ↔
     ∃ r a, latest r a ∧ r_state r = APPROVED ∧ ¬ maintainer r ∧
            isOwner (login a) = true) ∧
  (Z.land flags ApprovalFlags.Other ≠ 0 ↔
     ∃ r a, latest r a ∧ r_state r = APPROVED ∧ ¬ maintainer r ∧
            isOwner (login a) = false).
Proof.
  intros flags latest maintainer.
  assert (Hbit : ∀ n, Z.testbit flags n = true ↔
            ∃ r a, latest r a ∧ Z.testbit (approvalOf isOwner r a) n = true).
  { intros n. unfold flags, analyzeReviews, analyzeReviews_loop. cbn [ra_approvalFlags].
    rewrite approvalFlags_fold. cbn [rs_approvalFlags analyzeReviews_init].
    setoid_rewrite effectiveIn_latest. unfold ApprovalFlags.None_.
    rewrite Z.bits_0. split; [intros [?|?]; done | by right]. }
  assert (Hrange : 0 ≤ flags < 8).
  { unfold flags, analyzeReviews, analyzeReviews_loop. cbn [ra_approvalFlags].
    apply approvalFlags_range. by vm_compute. }
  assert (Hland : ∀ n, 0 ≤ n → Z.land flags (Z.shiftl 1 n) ≠ 0 ↔ Z.testbit flags n = true).
  { intros n Hn. rewrite Z.shiftl_1_l. split.
    - intros Hne. destruct (Z.testbit flags n) eqn:E; [done|]. destruct Hne.
      apply Z.bits_inj'. intros k Hk. rewrite Z.land_spec, Z.bits_0.
      destruct (decide (k = n)) as [->|Hkn]; [by rewrite E|].
      by rewrite Z.pow2_bits_false, andb_false_r.
    - intros Hb Heq. assert (Hset : Z.testbit (Z.land flags (2 ^ n)) n = true)
        by (by rewrite Z.land_spec, Hb, Z.pow2_bits_true).
      rewrite Heq, Z.bits_0 in Hset. done. }
  assert (Hm : ∀ r, maintainer r ↔
            bool_decide (r_authorAssociation r = MEMBER)
            || bool_decide (r_authorAssociation r = OWNER) = true).
  { intros r. unfold maintainer.
    by rewrite orb_true_iff, !bool_decide_eq_true. }
  split; [done|].
  unfold ApprovalFlags.Maintainer, ApprovalFlags.Owner, ApprovalFlags.Other.
  rewrite !Hland, !Hbit by lia.
  split_and!; split.
  - intros (r & a & Hl & Hb). exists r, a. split; [done|]. revert Hb.
    unfold approvalOf. repeat case_match; try (by vm_compute); intros _.
    split; [done|]. by apply Hm.
  - intros (r & a & Hl & Hs & Hmr). exists r, a. split; [done|].
    apply Hm in Hmr. unfold approvalOf. rewrite decide_True by done. by rewrite Hmr.
  - intros (r & a & Hl & Hb). exists r, a. split; [done|]. revert Hb.
    unfold approvalOf. repeat case_match; try (by vm_compute); intros _.
    split_and!; [done | | done]. rewrite Hm. congruence.
  - intros (r & a & Hl & Hs & Hmr & Ho). exists r, a. split; [done|].
    rewrite Hm in Hmr. apply not_true_is_false in Hmr.
    unfold approvalOf. rewrite decide_True by done. by rewrite Hmr, Ho.
  - intros (r & a & Hl & Hb). exists r, a. split; [done|]. revert Hb.
    unfold approvalOf. repeat case_match; try (by vm_compute); intros _.
    split_and!; [done | | done]. rewrite Hm. congruence.
  - intros (r & a & Hl & Hs & Hmr & Ho). exists r, a. split; [done|].
    rewrite Hm in Hmr. apply not_true_is_false in Hmr.
    unfold approvalOf. rewrite decide_True by done. by rewrite Hmr, Ho.
Qed.

(** Among the counted reviews of the head commit by [x], if there is one,
    there is a most recent one. *)
Lemma current_or_latest (headCommitOid authorLogin : string)
    (reviews : list (option Review)) (x : string) :
  ¬ currentIn headCommitOid authorLogin reviews x ∨
  ∃ r a, latestOnHead headCommitOid authorLogin reviews r a ∧ login a = x.
Proof.
  induction reviews as [|r0 reviews IH]; [left; apply current_nil|].
  destruct IH as [Hno|(r & a & (pre & post & c & -> & Hc & Hh & Hnot) & Hx)].
  - assert (Hone : ¬ currentIn headCommitOid authorLogin [r0] x ∨
                   ∃ r a c, r0 = Some r ∧ counted authorLogin r a c ∧
                            rv_oid c = headCommitOid ∧ login a = x).
    { destruct r0 as [r|];
        [|left; by intros (r & a & c & [=]%list_elem_of_singleton & _)].
      destruct (r_commit r) as [c|] eqn:Ec, (r_author r) as [a|] eqn:Ea;
        try (left; intros (r1 & a1 & c1 & [= <-]%list_elem_of_singleton
                           & (Hc1 & Ha1 & _) & _); congruence).
      destruct (decide (login a = "")) as [He|He];
        [left; intros (r1 & a1 & c1 & [= <-]%list_elem_of_singleton
                       & (Hc1 & Ha1 & Hne & _) & _); congruence|].
      destruct (decide (login a = authorLogin)) as [Hs|Hs];
        [left; intros (r1 & a1 & c1 & [= <-]%list_elem_of_singleton
                       & (Hc1 & Ha1 & _ & Hne) & _); congruence|].
      destruct (decide (rv_oid c = headCommitOid)) as [Hh|Hh];
        [|left; intros (r1 & a1 & c1 & [= <-]%list_elem_of_singleton
                        & (Hc1 & Ha1 & _) & _ & Hh1); congruence].
      destruct (decide (login a = x)) as [Hx|Hx];
        [|left; intros (r1 & a1 & c1 & [= <-]%list_elem_of_singleton
                        & (Hc1 & Ha1 & _) & Hx1 & _); congruence].
      right. by exists r, a, c. }
    destruct Hone as [Hone|(r & a & c & -> & Hc & Hh & Hx)].
    + left. by intros [?|?]%current_cons.
    + right. exists r, a. split; [|done]. exists [], reviews, c.
      split_and!; [done | done | done |]. by rewrite Hx.
  - right. exists r, a. split; [|done]. by exists (r0 :: pre), post, c.
Qed.

(** X3. There is no date of a last review exactly when no reviewer has a
    counted review of the head commit. *)
Theorem analyzeReviews_lastReviewDate_None (H : Host) (prInfo : PullRequest)
    (authorLogin : string) (isOwner : string → bool) :
  ra_lastReviewDate (analyzeReviews H prInfo authorLogin isOwner) = None ↔
  ∀ r a c, Some r ∈ default [] (reviews_nodes prInfo) →
           counted authorLogin r a c → rv_oid c ≠ headRefOid prInfo.
Proof.
  unfold analyzeReviews, analyzeReviews_loop. cbn [ra_lastReviewDate].
  rewrite lastReviewDate_fold_None. cbn [rs_lastReviewDate analyzeReviews_init].
  setoid_rewrite effectiveIn_latest.
  set (reviews := default [] (reviews_nodes prInfo)). split.
  - intros [_ Hno] r a c Hin Hc Hh.
    destruct (current_or_latest (headRefOid prInfo) authorLogin reviews (login a))
      as [Hnot|(r1 & a1 & Hl & _)]; [|by apply (Hno r1 a1)].
    apply Hnot. by exists r, a, c.
  - intros Hall. split; [done|]. intros r a (pre & post & c & Hl & Hc & Hh & _).
    apply (Hall r a c); [|done|done].
    rewrite Hl, elem_of_app. right. apply list_elem_of_here.
Qed.

(** X4. When the reviews that count for the head commit all have a valid
    date, the date of the last review is the latest of them: it is the date
    of one of them and no other is later. *)
Theorem analyzeReviews_lastReviewDate_latest (H : Host) (prInfo : PullRequest)
    (authorLogin : string) (isOwner : string → bool) (r : Review) (a : Actor) :
  let latest := latestOnHead (headRefOid prInfo) authorLogin
                  (default [] (reviews_nodes prInfo)) in
  (∀ r0 a0, latest r0 a0 → ∃ t, Date_new H (r_submittedAt r0) = JS.ValidDate t) →
  latest r a →
  ∃ m, ra_lastReviewDate (analyzeReviews H prInfo authorLogin isOwner) =
         Some (JS.ValidDate m) ∧
       (∃ r0 a0, latest r0 a0 ∧ Date_new H (r_submittedAt r0) = JS.ValidDate m) ∧
       (∀ r0 a0 t, latest r0 a0 → Date_new H (r_submittedAt r0) = JS.ValidDate t → t ≤ m).
Proof.
  intros latest Hvalid Hr.
  unfold analyzeReviews, analyzeReviews_loop. cbn [ra_lastReviewDate].
  set (l := rev (default [] (reviews_nodes prInfo))).
  destruct (rs_lastReviewDate
              (fold_left (analyzeReviews_step H (headRefOid prInfo) authorLogin isOwner)
                 l analyzeReviews_init)) as [d|] eqn:Hd.
  - destruct (lastReviewDate_fold_max H (headRefOid prInfo) authorLogin isOwner l
                analyzeReviews_init
                ltac:(intros r0 a0 Heff; apply (Hvalid r0 a0);
                      exact (proj1 (effectiveIn_latest H _ _ isOwner _ _ _) Heff))
                ltac:(done) d Hd) as (m & -> & Hfrom & _ & Hmax).
    exists m. split_and!; [done | |].
    + destruct Hfrom as [?|(r0 & a0 & Heff & Hr0)]; [done|].
      exists r0, a0. split; [|done].
      exact (proj1 (effectiveIn_latest H _ _ isOwner _ _ _) Heff).
    + intros r0 a0 t Hl Ht. apply (Hmax r0 a0 t); [|done].
      exact (proj2 (effectiveIn_latest H _ _ isOwner _ _ _) Hl).
  - apply lastReviewDate_fold_None in Hd as [_ Hno].
    destruct (Hno r a). exact (proj2 (effectiveIn_latest H _ _ isOwner _ _ _) Hr).
Qed.

Lemma analyzeReviews_lastReviewDate_latest_witness :
  ∃ m, ra_lastReviewDate
         (analyzeReviews Example.host Example.ordinary "dana" (fun _ => false)) =
       Some (JS.ValidDate m) ∧ m = 6000.
Proof.
  destruct (analyzeReviews_lastReviewDate_latest Example.host Example.ordinary "dana"
              (fun _ => false)
              {| r_author := Some {| login := "ann" |};
                 r_commit := Some {| rv_oid := "h2"; rv_abbreviatedOid := "h2" |};
                 r_submittedAt := "6000";
                 r_state := APPROVED;
                 r_authorAssociation := CONTRIBUTOR;
                 r_comments_nodes := None |}
              {| login := "ann" |}) as (m & Hm & _).
  - intros r0 a0 (pre & post & c & Heq & _). vm_compute in Heq.
    destruct pre as [|x [|y [|z pre]]]; simplify_eq; eexists; vm_compute; reflexivity.
  - exists [Example.review "ann" "h1" "2000" APPROVED], [],
      {| rv_oid := "h2"; rv_abbreviatedOid := "h2" |}.
    split_and!; [done | by repeat split | done |].
    by intros (r' & a' & c' & Hin%elem_of_nil & _).
  - exists m. split; [exact Hm|]. vm_compute in Hm. by injection Hm.
Defined.

(** X5. A log in which every review is skipped (no review, no commit, no
    author, or a review by the author of the pull request) gives the empty
    analysis: no approval flag, no change requested, no date and no stale
    reviewer. *)
Theorem analyzeReviews_all_skipped (H : Host) (prInfo : PullRequest)
    (authorLogin : string) (isOwner : string → bool) :
  (∀ r, r ∈ default [] (reviews_nodes prInfo) → skipped authorLogin r) →
  analyzeReviews H prInfo authorLogin isOwner =
  {| ra_lastReviewDate := None;
     ra_reviewersWithStaleReviews := [];
     ra_approvalFlags := ApprovalFlags.None_;
     ra_isChangesRequested := false |}.
Proof.
  intros Hall.
  assert (Hloop : ∀ l st, (∀ r, r ∈ l → skipped authorLogin r) →
            fold_left (analyzeReviews_step H (headRefOid prInfo) authorLogin isOwner) l st = st).
  { induction l as [|r l IH]; intros st Hl; cbn [fold_left]; [done|].
    assert (Hr := Hl r (list_elem_of_here _ _)).
    destruct (analyzeReviews_step_cases H (headRefOid prInfo) authorLogin isOwner st r)
      as [[-> _] | [(r0 & a & c & -> & Hc & _) | (r0 & a & c & -> & Hc & _)]].
    - apply IH. intros r' Hr'. apply Hl. by apply list_elem_of_further.
    - by destruct (Hr r0 a c eq_refl).
    - by destruct (Hr r0 a c eq_refl). }
  unfold analyzeReviews, analyzeReviews_loop. rewrite Hloop; [done|].
  intros r Hr. apply Hall. by apply (proj1 (elem_of_rev _ _)) in Hr.
Qed.

Lemma analyzeReviews_all_skipped_witness :
  analyzeReviews Example.host Samples.selfReviewed "dana" (fun _ => true) =
  {| ra_lastReviewDate := None;
     ra_reviewersWithStaleReviews := [];
     ra_approvalFlags := ApprovalFlags.None_;
     ra_isChangesRequested := false |}.
Proof.
  apply (analyzeReviews_all_skipped Example.host Samples.selfReviewed "dana" (fun _ => true)).
  intros r Hr. vm_compute in Hr.
  apply elem_of_cons in Hr as [->|Hr]; [|apply elem_of_cons in Hr as [->|Hr]].
  - intros r0 a c [= <-] (_ & [= <-] & _ & Hself). by apply Hself.
  - by intros r0 a c [=].
  - by apply elem_of_nil in Hr.
Defined.

(** X6. The stale reviews listed are for distinct commits, and none of them
    is by the author of the pull request or by a reviewer without a
    login. *)
Theorem reviewersWithStaleReviews_distinct (H : Host) (prInfo : PullRequest)
    (authorLogin : string) (isOwner : string → bool) :
  let out := ra_reviewersWithStaleReviews (analyzeReviews H prInfo authorLogin isOwner) in
  NoDup (map reviewedAbbrOid out) ∧
  ∀ e, e ∈ out → reviewer e ≠ authorLogin ∧ reviewer e ≠ "".
Proof.
  intros out. split.
  - unfold out, analyzeReviews. cbn [ra_reviewersWithStaleReviews].
    rewrite map_map.
    erewrite map_ext; [apply stale_fold_NoDup; cbn; apply NoDup_nil_2|].
    by intros [k v].
  - intros e He. apply reviewersWithStaleReviews_elem in He.
    apply stale_fold_entry in He
      as [Hin|(l1 & r0 & l2 & a & c & _ & (_ & _ & Hne & Hself) & _ & _ & _ & [= -> _])];
      [by apply elem_of_nil in Hin | done].
Qed.

(** ** The timeline extractors and the check suites *)

Lemma findLast_None {T} (l : list T) (P : T → bool) :
  findLast (Some l) P = None ↔ ∀ y, y ∈ l → P y = false.
Proof.
  unfold findLast. rewrite find_None_all. split; intros Hall y Hy; apply Hall.
  - by apply elem_of_rev.
  - by apply (proj1 (elem_of_rev _ _)) in Hy.
Qed.

Lemma reopening_test (item : TimelineItem) :
  String.eqb (typename item) "ReopenedEvent"
  || String.eqb (typename item) "ReadyForReviewEvent" = true ↔ reopening item.
Proof. unfold reopening. by rewrite orb_true_iff, !String.eqb_eq. Qed.

(** X7. What [getReopenedDate] returns is decided by the last event that
    reopens the pull request or marks it ready, whatever the earlier events
    are: nothing when there is no such event, the empty string when the
    [createdAt] of that event is the empty string, and else the date of
    that [createdAt]. *)
Theorem getReopenedDate_last (H : Host)
    (timelineItems : option (list (option TimelineItem))) :
  let last item :=
    ∃ pre post,
      timelineItems = Some (pre ++ Some item :: post)%list ∧
      reopening item ∧
      ∀ item', Some item' ∈ post → ¬ reopening item' in
  (getReopenedDate H timelineItems = NotReopened ↔
     ∀ item, Some item ∈ default [] timelineItems → ¬ reopening item) ∧
  (getReopenedDate H timelineItems = EmptyCreatedAt ↔
     ∃ item, last item ∧ createdAt item = "") ∧
  (∀ d, getReopenedDate H timelineItems = ReopenedAt d ↔
     ∃ item, last item ∧ createdAt item ≠ "" ∧ d = Date_new H (createdAt item)).
Proof.
  intros last. subst last. unfold getReopenedDate.
  set (P := fun item : option TimelineItem =>
              match item with
              | Some item => String.eqb (typename item) "ReopenedEvent"
                             || String.eqb (typename item) "ReadyForReviewEvent"
              | None => false
              end).
  assert (HP : ∀ item, P (Some item) = true ↔ reopening item)
    by (intros item; apply reopening_test).
  assert (HPf : ∀ post : list (option TimelineItem),
            (∀ y, y ∈ post → P y = false) ↔
            ∀ item', Some item' ∈ post → ¬ reopening item').
  { intros post. split.
    - intros Hall item' Hin Hr%HP. by rewrite (Hall _ Hin) in Hr.
    - intros Hall [item'|] Hin; [|done].
      destruct (P (Some item')) eqn:E; [|done]. apply HP in E. by destruct (Hall item'). }
  destruct timelineItems as [l|]; cbn [findLast default from_option id].
  2:{ split_and!.
      - split; [|done]. intros _ item Hin. by apply elem_of_nil in Hin.
      - split; [done|]. by intros (item & (pre & post & [=] & _) & _).
      - intros d. split; [done|]. by intros (item & (pre & post & [=] & _) & _). }
  change (List.find P (rev l)) with (findLast (Some l) P).
  assert (Hlast : ∀ pre item post,
            l = (pre ++ Some item :: post)%list → reopening item →
            (∀ i, Some i ∈ post → ¬ reopening i) →
            findLast (Some l) P = Some (Some item)).
  { intros pre item post -> Hr Hpost. apply findLast_Some.
    exists pre, post. split_and!; [done | by apply HP | by apply HPf]. }
  destruct (findLast (Some l) P) as [[item|]|] eqn:E.
  - assert (Huniq : ∀ pre' item' post',
              Some l = Some (pre' ++ Some item' :: post')%list → reopening item' →
              (∀ i, Some i ∈ post' → ¬ reopening i) → item' = item).
    { intros pre' item' post' [= Hl] Hr' Hpost'.
      assert (Heq := Hlast pre' item' post' Hl Hr' Hpost'). congruence. }
    apply findLast_Some in E as (pre & post & Hl & Hx & Hpost).
    apply HP in Hx. assert (Hpost0 := proj1 (HPf post) Hpost).
    clear Hpost. rename Hpost0 into Hpost.
    assert (Hitem : ∃ pre post,
              Some l = Some (pre ++ Some item :: post)%list ∧ reopening item ∧
              ∀ item', Some item' ∈ post → ¬ reopening item')
      by (exists pre, post; by rewrite Hl).
    assert (Hsome : ¬ ∀ i, Some i ∈ l → ¬ reopening i).
    { intros Hall. destruct (Hall item); [|done].
      rewrite Hl, elem_of_app. right. apply list_elem_of_here. }
    destruct (String.eqb_spec (createdAt item) "") as [He|He]; split_and!.
    + split; [done | by intros ?%Hsome].
    + split; [intros _; by exists item | done].
    + intros d. split; [done|].
      intros (item' & (pre' & post' & Heq & Hr' & Hpost') & Hne & _).
      by rewrite (Huniq pre' item' post' Heq Hr' Hpost') in Hne.
    + split; [done | by intros ?%Hsome].
    + split; [done|].
      intros (item' & (pre' & post' & Heq & Hr' & Hpost') & Hempty).
      by rewrite (Huniq pre' item' post' Heq Hr' Hpost') in Hempty.
    + intros d. split.
      * intros [= <-]. by exists item.
      * intros (item' & (pre' & post' & Heq & Hr' & Hpost') & _ & ->).
        by rewrite (Huniq pre' item' post' Heq Hr' Hpost').
  - by apply findLast_Some in E as (_ & _ & _ & ? & _).
  - rewrite findLast_None in E. assert (E0 := proj1 (HPf l) E).
    clear E. rename E0 into E.
    assert (Hno : ∀ item pre post,
              Some l = Some (pre ++ Some item :: post)%list → reopening item → False).
    { intros item pre post [= ->] Hr. destruct (E item); [|done].
      rewrite elem_of_app. right. apply list_elem_of_here. }
    split_and!.
    + done.
    + split; [done|]. intros (item & (pre & post & Heq & Hr & _) & _).
      by destruct (Hno item pre post Heq Hr).
    + intros d. split; [done|].
      intros (item & (pre & post & Heq & Hr & _) & _).
      by destruct (Hno item pre post Heq Hr).
Qed.

Lemma firstDefined_None {T U} (action : T → option U) (l : list T) :
  firstDefined action l = None ↔ ∀ x, x ∈ l → action x = None.
Proof.
  induction l as [|x l IH]; cbn.
  - split; [|done]. intros _ y Hy. by apply elem_of_nil in Hy.
  - destruct (action x) eqn:E.
    + split; [done|]. intros Hall. rewrite (Hall x) in E; [done | apply list_elem_of_here].
    + rewrite IH. split.
      * intros Hall y [->|Hy]%elem_of_cons; [done | by apply Hall].
      * intros Hall y Hy. apply Hall. by apply list_elem_of_further.
Qed.

Lemma firstDefined_Some {T U} (action : T → option U) (l : list T) (u : U) :
  firstDefined action l = Some u → ∃ x, x ∈ l ∧ action x = Some u.
Proof.
  induction l as [|x l IH]; cbn; [done|].
  destruct (action x) eqn:E.
  - intros [= <-]. exists x. split; [apply list_elem_of_here | done].
  - intros (y & Hy & Hu)%IH. exists y. split; [by apply list_elem_of_further | done].
Qed.

(** X8. There is no date of a last comment exactly when the timeline has no
    comment by a human and no review has a comment whose author has a login;
    and a date that there is, is the date of one of these comments. *)
Theorem getLastCommentishActivityDate_source (H : Host)
    (timelineItems : option (list (option TimelineItem)))
    (reviews : option (list (option Review))) :
  let commented (s : string) :=
    (∃ item, Some item ∈ default [] timelineItems ∧ humanComment H item ∧
             createdAt item = s) ∨
    (∃ r comment, Some r ∈ default [] reviews ∧
                  Some comment ∈ default [] (r_comments_nodes r) ∧
                  signedComment comment ∧ rc_createdAt comment = s) in
  (getLastCommentishActivityDate H timelineItems reviews = None ↔
     ∀ s, ¬ commented s) ∧
  (∀ d, getLastCommentishActivityDate H timelineItems reviews = Some d →
        ∃ s, commented s ∧ d = Date_new H s).
Proof.
  intros commented. unfold getLastCommentishActivityDate.
  set (P1 := fun item : option TimelineItem =>
               match item with
               | Some item => String.eqb (typename item) "IssueComment" && authorNotBot H item
               | None => false
               end).
  set (P2 := fun comment : option ReviewComment =>
               match comment ≫= rc_author with
               | Some a => negb (String.eqb (login a) "")
               | None => false
               end).
  assert (HP1 : ∀ item, P1 (Some item) = true ↔ humanComment H item).
  { intros item. unfold P1, humanComment. by rewrite andb_true_iff, String.eqb_eq. }
  assert (HP2 : ∀ comment, P2 (Some comment) = true ↔ signedComment comment).
  { intros comment. unfold P2, signedComment. cbn. destruct (rc_author comment) as [a|].
    - rewrite negb_true_iff. split.
      + intros Hne. exists a. split; [done|]. intros He. by rewrite He in Hne.
      + intros (a' & [= <-] & Hne). by destruct (String.eqb_spec (login a) "").
    - split; [done|]. by intros (a' & [=] & _). }
  (* the last comment of the timeline *)
  assert (Hissue : ∀ x, mjoin (findLast timelineItems P1) = x →
            match x with
            | Some item => Some item ∈ default [] timelineItems ∧ humanComment H item
            | None => ∀ item, Some item ∈ default [] timelineItems → ¬ humanComment H item
            end).
  { intros x <-. destruct timelineItems as [l|]; cbn [findLast];
      [|intros item Hin; by apply elem_of_nil in Hin].
    change (List.find P1 (rev l)) with (findLast (Some l) P1).
    destruct (findLast (Some l) P1) as [[item|]|] eqn:E; cbn.
    - apply findLast_Some in E as (pre & post & -> & Hx & _). split; [|by apply HP1].
      rewrite elem_of_app. right. apply list_elem_of_here.
    - by apply findLast_Some in E as (_ & _ & _ & ? & _).
    - rewrite findLast_None in E. intros item Hin Hh%HP1. by rewrite (E _ Hin) in Hh. }
  (* the last comment of a review *)
  set (action := fun review : option Review =>
                   mjoin (findLast (review ≫= r_comments_nodes) P2)).
  assert (Haction : ∀ review x, action review = x →
            match x with
            | Some comment =>
                ∃ r, review = Some r ∧ Some comment ∈ default [] (r_comments_nodes r) ∧
                     signedComment comment
            | None =>
                ∀ r comment, review = Some r →
                  Some comment ∈ default [] (r_comments_nodes r) → ¬ signedComment comment
            end).
  { intros review x <-. unfold action. destruct review as [r|]; cbn; [|done].
    destruct (r_comments_nodes r) as [l|] eqn:Ec; cbn [findLast];
      [|intros r' comment [= <-] Hin; rewrite Ec in Hin; by apply elem_of_nil in Hin].
    change (List.find P2 (rev l)) with (findLast (Some l) P2).
    destruct (findLast (Some l) P2) as [[comment|]|] eqn:E; cbn.
    - apply findLast_Some in E as (pre & post & Hl & Hx & _).
      exists r. split_and!; [done | | by apply HP2].
      rewrite Ec, Hl. cbn. rewrite elem_of_app. right. apply list_elem_of_here.
    - by apply findLast_Some in E as (_ & _ & _ & ? & _).
    - rewrite findLast_None in E. intros r' comment [= <-] Hin Hs%HP2.
      rewrite Ec in Hin. by rewrite (E _ Hin) in Hs. }
  assert (Hreview : ∀ x, forEachReverse reviews action = x →
            match x with
            | Some comment =>
                ∃ r, Some r ∈ default [] reviews ∧
                     Some comment ∈ default [] (r_comments_nodes r) ∧
                     signedComment comment
            | None =>
                ∀ r comment, Some r ∈ default [] reviews →
                  Some comment ∈ default [] (r_comments_nodes r) → ¬ signedComment comment
            end).
  { intros x <-. unfold forEachReverse. destruct reviews as [l|]; cbn;
      [|intros r comment Hin; by apply elem_of_nil in Hin].
    destruct (firstDefined action (rev l)) as [comment|] eqn:E.
    - apply firstDefined_Some in E as (review & Hin & Hact).
      apply (Haction review (Some comment)) in Hact as (r & -> & Hc & Hs).
      exists r. split; [by apply (proj1 (elem_of_rev _ _)) in Hin | done].
    - rewrite firstDefined_None in E. intros r comment Hin.
      apply (Haction (Some r) None); [|done]. apply E. by apply elem_of_rev. }
  specialize (Hissue _ eq_refl). specialize (Hreview _ eq_refl).
  fold action.
  destruct (mjoin (findLast timelineItems P1)) as [i|],
           (forEachReverse reviews action) as [c|].
  - destruct Hissue as [Hi1 Hi2], Hreview as (r & Hr1 & Hr2 & Hr3). split.
    + split; [done|]. intros Hno. destruct (Hno (createdAt i)). left. by exists i.
    + intros d [= <-]. eexists. split; [|done]. unfold JS.sort2_snd.
      destruct (String.ltb _ _); [left; by exists i | right; by exists r, c].
  - destruct Hissue as [Hi1 Hi2]. split.
    + split; [done|]. intros Hno. destruct (Hno (createdAt i)). left. by exists i.
    + intros d [= <-]. eexists. split; [|done]. left. by exists i.
  - destruct Hreview as (r & Hr1 & Hr2 & Hr3). split.
    + split; [done|]. intros Hno. destruct (Hno (rc_createdAt c)). right. by exists r, c.
    + intros d [= <-]. eexists. split; [|done]. right. by exists r, c.
  - split; [|done]. split; [|done]. intros _ s [(item & Hin & Hh & _)|(r & c & Hin & Hc & Hs & _)].
    + by apply (Hissue item).
    + by apply (Hreview r c).
Qed.

(** X9. The result of the checks is [Missing] exactly when no check suite
    is of the GitHub Actions app; otherwise the first such suite decides,
    by its conclusion; and there is a URL exactly when the result is
    [Fail]. *)
Theorem getCIResult_first_suite (headCommit : Commit) :
  let ci := getCIResult headCommit in
  let suites := default [] (checkSuites_nodes headCommit) in
  (ci_ciResult ci = Missing ↔ ∀ check, Some check ∈ suites → ¬ actionsSuite check) ∧
  (ci_ciUrl ci ≠ None ↔ ci_ciResult ci = Fail) ∧
  (∀ pre check post,
     suites = (pre ++ Some check :: post)%list →
     actionsSuite check →
     (∀ check', Some check' ∈ pre → ¬ actionsSuite check') →
     (cs_conclusion check = Some SUCCESS → ci = {| ci_ciResult := Pass; ci_ciUrl := None |}) ∧
     (cs_conclusion check = Some FAILURE ∨ cs_conclusion check = Some SKIPPED ∨
      cs_conclusion check = Some TIMED_OUT →
      ci = {| ci_ciResult := Fail; ci_ciUrl := Some (cs_url check) |}) ∧
     (cs_conclusion check ≠ Some SUCCESS → cs_conclusion check ≠ Some FAILURE →
      cs_conclusion check ≠ Some SKIPPED → cs_conclusion check ≠ Some TIMED_OUT →
      ci = {| ci_ciResult := Pending; ci_ciUrl := None |})).
Proof.
  intros ci suites. unfold ci, suites, getCIResult.
  set (P := fun check : option CheckSuite =>
              match check with
              | Some {| cs_app := Some {| app_name := Some name |} |} =>
                  JS.includes name "GitHub Actions"
              | _ => false
              end).
  assert (HP : ∀ check, P (Some check) = true ↔ actionsSuite check).
  { intros [[[[name|]]|] concl url]; unfold actionsSuite; cbn.
    - split; [intros Hi; by eexists _, _|]. by intros (app & name' & [= <-] & [= <-] & Hi).
    - split; [done|]. by intros (app & name' & [= <-] & [=] & _).
    - split; [done|]. by intros (app & name' & [=] & _). }
  destruct (checkSuites_nodes headCommit) as [nodes|]; cbn [default from_option id].
  2:{ split_and!; [split; [intros _ check Hin; by apply elem_of_nil in Hin | done]
                  | by split | intros [|? ?] ? ? [=]]. }
  destruct (List.find P nodes) as [[check|]|] eqn:E.
  - apply find_Some_split in E as (pre & post & -> & Hx & Hpre).
    apply HP in Hx.
    assert (Hci : ∀ pre' check' post',
              (pre ++ Some check :: post)%list = (pre' ++ Some check' :: post')%list →
              actionsSuite check' →
              (∀ c, Some c ∈ pre' → ¬ actionsSuite c) → check' = check).
    { intros pre' check' post' Heq Hx' Hpre'.
      assert (E1 : List.find P (pre ++ Some check :: post) = Some (Some check)).
      { apply find_Some_split. exists pre, post. split_and!; [done | by apply HP | done]. }
      assert (E2 : List.find P (pre' ++ Some check' :: post') = Some (Some check')).
      { apply find_Some_split. exists pre', post'. split_and!; [done | by apply HP |].
        intros [c|] Hin; [|done]. destruct (P (Some c)) eqn:Ec; [|done].
        apply HP in Ec. by destruct (Hpre' c). }
      rewrite Heq in E1. congruence. }
    split_and!.
    + split.
      * intros Hmiss. exfalso. revert Hmiss.
        by destruct (cs_conclusion check) as [[]|].
      * intros Hall. destruct (Hall check); [|done].
        rewrite elem_of_app. right. apply list_elem_of_here.
    + by destruct (cs_conclusion check) as [[]|].
    + intros pre' check' post' Heq Hx' Hpre'.
      rewrite (Hci pre' check' post' Heq Hx' Hpre').
      split_and!.
      * by intros ->.
      * by intros [->|[->| ->]].
      * intros H1 H2 H3 H4. by destruct (cs_conclusion check) as [[]|].
  - by apply find_some in E as [_ ?].
  - rewrite find_None_all in E. split_and!.
    + split; [|done]. intros _ check Hin Hx%HP. by rewrite (E _ Hin) in Hx.
    + by split.
    + intros pre check post -> Hx%HP. rewrite E in Hx; [done|].
      rewrite elem_of_app. right. apply list_elem_of_here.
Qed.

(** ** Grouping, popularity and owners *)

Lemma partition_add_get {T K} `{EqDecision K} (res : list (K * list T))
    (key k : K) (el : T) :
  partition_get (partition_add res key el) k =
  if decide (key = k) then Some (default [] (partition_get res k) ++ [el])%list
  else partition_get res k.
Proof.
  induction res as [|[k0 target] res IH]; cbn.
  - by destruct (decide (key = k)).
  - destruct (decide (k0 = key)) as [->|Hne]; cbn.
    + by destruct (decide (key = k)).
    + destruct (decide (k0 = k)) as [->|Hne'].
      * by rewrite decide_False by done.
      * done.
Qed.

Lemma partition_get_filter {T K} `{EqDecision K} (arr : list T) (sorter : T → K) (k : K) :
  partition_get (partition arr sorter) k =
  match List.filter (fun el => bool_decide (sorter el = k)) arr with
  | [] => None
  | group => Some group
  end.
Proof.
  unfold partition.
  assert (Hfold : ∀ arr res,
            partition_get (fold_left (fun res el => partition_add res (sorter el) el) arr res) k =
            match partition_get res k,
                  List.filter (fun el => bool_decide (sorter el = k)) arr with
            | None, [] => None
            | o, group => Some (default [] o ++ group)%list
            end).
  { clear arr. induction arr as [|el arr IH]; intros res; cbn [fold_left List.filter].
    - destruct (partition_get res k); [by rewrite app_nil_r | done].
    - rewrite IH, partition_add_get. rewrite bool_decide_decide.
      destruct (decide (sorter el = k)) as [Heq|Hne].
      + destruct (partition_get res k) as [t|]; cbn; by rewrite <- ?app_assoc.
      + done. }
  rewrite Hfold. cbn. by destruct (List.filter _ arr).
Qed.

(** X10. [partition] groups the elements by their key: the group of a key
    holds the elements with that key, all of them and in their order, and a
    key that no element has is absent. *)
Theorem partition_groups {T K} `{EqDecision K} (arr : list T) (sorter : T → K) (k : K) :
  partition_get (partition arr sorter) k =
  match List.filter (fun el => bool_decide (sorter el = k)) arr with
  | [] => None
  | group => Some group
  end.
Proof. apply partition_get_filter. Qed.

(** X11. The popularity level found by asking for the downloads of each
    package in turn is the level that [getPopularityLevelFromDownloads]
    gives for a record that enumerates these packages in the same order
    with these downloads. *)
Theorem getPopularityLevel_as_downloads (H : Host) (packagesTouched : list string) :
  getPopularityLevel H packagesTouched =
  getPopularityLevelFromDownloads
    (map (fun p => (p, getMonthlyDownloadCount H p)) packagesTouched).
Proof.
  unfold getPopularityLevel, getPopularityLevelFromDownloads.
  generalize Well_liked_by_everyone.
  induction packagesTouched as [|p rest IH]; intros level; cbn; [done|].
  destruct (CriticalPopularityThreshold <? getMonthlyDownloadCount H p); [done|].
  destruct (NormalPopularityThreshold <? getMonthlyDownloadCount H p); apply IH.
Qed.

Lemma getOwnersOfPackages_loop_inv (H : Host) (fetchFile : FetchFile)
    (packages : list string) :
  ∀ allOwners anyNew log ownerInfo log',
    getOwnersOfPackages_loop H packages fetchFile allOwners anyNew log =
      (Normal ownerInfo, log') →
    NoDup allOwners →
    NoDup (oi_allOwners ownerInfo) ∧
    (∀ o, o ∈ oi_allOwners ownerInfo →
          o ∈ allOwners ∨ ∃ p, p ∈ packages ∧ o ∈ declaredOwners H fetchFile p) ∧
    ∃ n, log' = (log ++ map ownersCall (take n packages))%list ∧
         (oi_error ownerInfo = None → n = List.length packages).
Proof.
  induction packages as [|p rest IH]; intros allOwners anyNew log ownerInfo log' Hrun Hnd.
  - injection Hrun as <- <-. cbn. split_and!; [done | by left |].
    exists 0%nat. by rewrite app_nil_r.
  - rewrite getOwnersOfPackages_loop_cons in Hrun.
    unfold declaredOwners in *.
    destruct (ownersOf H fetchFile p) as [[owners|]|e] eqn:Ep.
    + apply IH in Hrun as (Hnd' & Hfrom & n & -> & Hn); [|by apply Set_fold_NoDup].
      split_and!; [done | |].
      * intros o [[Ho|Ho]%Set_fold_elem|(q & Hq & Ho)]%Hfrom; [by left | |].
        -- right. exists p. split; [apply list_elem_of_here | by rewrite Ep].
        -- right. exists q. split; [by apply list_elem_of_further | done].
      * exists (S n). split; [by rewrite <- app_assoc | intros He; by rewrite Hn].
    + apply IH in Hrun as (Hnd' & Hfrom & n & -> & Hn); [|done].
      split_and!; [done | |].
      * intros o [Ho|(q & Hq & Ho)]%Hfrom; [by left|].
        right. exists q. split; [by apply list_elem_of_further | done].
      * exists (S n). split; [by rewrite <- app_assoc | intros He; by rewrite Hn].
    + injection Hrun as <- <-. cbn. split_and!; [done | by left |].
      exists 1%nat. split; [done | done].
Qed.

(** X12. The owners resolved are distinct and each is declared by the
    header of one of the packages; and the only requests made are for the
    headers of the packages, in their order: of all the packages when there
    is no error, of the first ones otherwise. *)
Theorem getOwnersOfPackages_owners (H : Host) (fetchFile : FetchFile)
    (packages : list string) (log log' : list FetchCall) (ownerInfo : OwnerInfo) :
  getOwnersOfPackages H packages fetchFile log = (Normal ownerInfo, log') →
  NoDup (oi_allOwners ownerInfo) ∧
  (∀ o, o ∈ oi_allOwners ownerInfo →
        ∃ p, p ∈ packages ∧ o ∈ declaredOwners H fetchFile p) ∧
  ∃ n, log' = (log ++ map ownersCall (take n packages))%list ∧
       (oi_error ownerInfo = None → n = List.length packages).
Proof.
  intros Hrun.
  destruct (getOwnersOfPackages_loop_inv H fetchFile packages [] false log ownerInfo log'
              Hrun NoDup_nil_2) as (Hnd & Hfrom & Hlog).
  split_and!; [done | | done].
  intros o [Ho|?]%Hfrom; [by apply elem_of_nil in Ho | done].
Qed.

Lemma getOwnersOfPackages_owners_witness :
  getOwnersOfPackages Example.host ["foo"; "bar"] Example.fetchFile [] =
  (Normal {| oi_error := None; oi_allOwners := ["ann"; "bob"; "cat"];
             oi_anyPackageIsNew := false |},
   [ownersCall "foo"; ownersCall "bar"]) ∧
  NoDup ["ann"; "bob"; "cat"].
Proof.
  assert (Hrun : getOwnersOfPackages Example.host ["foo"; "bar"] Example.fetchFile [] =
            (Normal {| oi_error := None; oi_allOwners := ["ann"; "bob"; "cat"];
                       oi_anyPackageIsNew := false |},
             [ownersCall "foo"; ownersCall "bar"]))
    by (vm_compute; reflexivity).
  split; [exact Hrun|].
  exact (proj1 (getOwnersOfPackages_owners Example.host Example.fetchFile ["foo"; "bar"] []
                  _ _ Hrun)).
Defined.

(** ** The matcher *)

Lemma sapp_cons (a : ascii) (u v : string) : String a u +:+ v = String a (u +:+ v).
Proof. reflexivity. Qed.

Lemma sapp_nil_l (v : string) : "" +:+ v = v.
Proof. reflexivity. Qed.

Lemma slength_app (u v : string) :
  String.length (u +:+ v) = (String.length u + String.length v)%nat.
Proof.
  induction u as [|a u IH]; [done|]. rewrite sapp_cons. cbn. by f_equal.
Qed.

Lemma sapp_assoc (u v w : string) : (u +:+ v) +:+ w = u +:+ (v +:+ w).
Proof.
  induction u as [|a u IH]; [done|]. rewrite !sapp_cons. by f_equal.
Qed.

Lemma stake_app (u v : string) : JS.stake (String.length u) (u +:+ v) = u.
Proof.
  induction u as [|a u IH]; [by destruct v|]. rewrite sapp_cons. cbn. by f_equal.
Qed.

Lemma sdrop_app (u v : string) : JS.sdrop (String.length u) (u +:+ v) = v.
Proof.
  induction u as [|a u IH]; [by destruct v|]. rewrite sapp_cons. by cbn.
Qed.

Lemma sall_app (P : ascii → bool) (u v : string) :
  sall P (u +:+ v) = sall P u && sall P v.
Proof.
  induction u as [|a u IH]; [done|]. rewrite sapp_cons. cbn.
  by rewrite IH, andb_assoc.
Qed.

Lemma sall_impl (P Q : ascii → bool) (u : string) :
  (∀ a, P a = true → Q a = true) → sall P u = true → sall Q u = true.
Proof.
  intros HPQ. induction u as [|a u IH]; cbn; [done|].
  intros [Ha Hu]%andb_true_iff. by rewrite (HPQ a Ha), IH.
Qed.

Section MatcherFacts.
Context {R : Type}.
Implicit Types (k : @JS.cont R) (cs : JS.captures).

(** A lazy star steps over a run of its class on which the continuation
    fails. *)
Lemma starLazy_skip (c : JS.charset) (w : string) :
  ∀ t pos cs k,
    sall (JS.inClass c) w = true →
    (∀ w1 a w2, w = w1 +:+ String a w2 →
                k (pos + String.length w1)%nat (String a w2 +:+ t) cs = None) →
    JS.starLazy c pos (w +:+ t) cs k =
    JS.starLazy c (pos + String.length w)%nat t cs k.
Proof.
  induction w as [|a w IH]; intros t pos cs k Hw Hfail.
  - rewrite sapp_nil_l. cbn. by rewrite Nat.add_0_r.
  - cbn in Hw. apply andb_true_iff in Hw as [Ha Hw].
    rewrite sapp_cons. cbn [JS.starLazy].
    assert (Hhere := Hfail "" a w eq_refl).
    rewrite sapp_cons in Hhere. cbn in Hhere. rewrite Nat.add_0_r in Hhere.
    rewrite Hhere, Ha. rewrite IH; [|done|].
    + cbn. by rewrite <- Nat.add_succ_comm.
    + intros w1 b w2 ->. specialize (Hfail (String a w1) b w2 eq_refl).
      cbn in Hfail. by rewrite <- Nat.add_succ_comm in Hfail.
Qed.
End MatcherFacts.

Lemma segmentChar_dot (a : ascii) : segmentChar a = true → JS.inClass JS.CDot a = true.
Proof. unfold segmentChar. cbn. by intros [_ ?]%andb_true_iff. Qed.

Lemma segmentChar_slash (a : ascii) : segmentChar a = true → Ascii.eqb a "/" = false.
Proof. unfold segmentChar. by intros [?%negb_true_iff _]%andb_true_iff. Qed.

Lemma sall_middle (P : ascii → bool) (w1 w2 : string) (a : ascii) :
  sall P (w1 +:+ String a w2) = true → P a = true.
Proof.
  rewrite sall_app. cbn. by intros [_ [? _]%andb_true_iff]%andb_true_iff.
Qed.

(** The package-root pattern on a path [types/<pkg>/<rest>] whose package
    has no slash: the package is captured, and the rest is for the tail of
    the pattern. *)
Lemma packageRoot_segment (pkg rest : string) (m : JS.matched) :
  sall segmentChar pkg = true →
  JS.rmatch packageRootTail (7 + String.length pkg) rest [(1%nat, pkg)]
    (fun pos' _ cs => Some {| JS.m_start := 0; JS.m_end := pos'; JS.m_captures := cs |})
    = Some m →
  JS.exec packageRoot ("types/" +:+ pkg +:+ "/" +:+ rest) = Some m.
Proof.
  intros Hpkg Htail.
  change packageRoot with
    (JS.RSeq JS.RStart (JS.RSeq (JS.lit "types/")
       (JS.RSeq (JS.RGroup 1 (JS.RStarLazy JS.CDot))
          (JS.RSeq (JS.ROne (JS.CChar "/")) packageRootTail)))).
  rewrite exec_anchored. unfold JS.matchAt.
  rewrite !sapp_cons, !sapp_nil_l. cbn [JS.rmatch JS.lit Nat.eqb].
  cbn [JS.inClass Ascii.eqb Bool.eqb].
  rewrite starLazy_skip.
  - cbn [JS.starLazy JS.inClass Ascii.eqb Bool.eqb].
    replace (6 + String.length pkg - 6)%nat with (String.length pkg) by lia.
    rewrite stake_app. cbn [Nat.add] in Htail. cbn [Nat.add]. by rewrite Htail.
  - eapply sall_impl; [|exact Hpkg]. apply segmentChar_dot.
  - intros w1 a w2 ->. apply sall_middle in Hpkg. rewrite sapp_cons.
    by rewrite (segmentChar_slash a Hpkg).
Qed.

Section GreedyFacts.
Context {R : Type}.
Implicit Types (k : @JS.cont R) (cs : JS.captures).

(** A greedy star that succeeds after a run of its class succeeds before
    it, with the same result. *)
Lemma starGreedy_through (c : JS.charset) (w : string) :
  ∀ t pos cs k x,
    sall (JS.inClass c) w = true →
    JS.starGreedy c (pos + String.length w)%nat t cs k = Some x →
    JS.starGreedy c pos (w +:+ t) cs k = Some x.
Proof.
  induction w as [|a w IH]; intros t pos cs k x Hw Hx.
  - rewrite sapp_nil_l. cbn in Hx. by rewrite Nat.add_0_r in Hx.
  - cbn in Hw. apply andb_true_iff in Hw as [Ha Hw].
    rewrite sapp_cons. cbn [JS.starGreedy]. rewrite Ha.
    rewrite (IH t (S pos) cs k x); [done | done |].
    cbn in Hx. by rewrite <- Nat.add_succ_comm in Hx.
Qed.

(** A greedy star fails on a run of its class when the continuation fails
    at every point of the run. *)
Lemma starGreedy_none (c : JS.charset) (w : string) :
  ∀ pos cs k,
    sall (JS.inClass c) w = true →
    (∀ w1 w2, w = w1 +:+ w2 → k (pos + String.length w1)%nat w2 cs = None) →
    JS.starGreedy c pos w cs k = None.
Proof.
  induction w as [|a w IH]; intros pos cs k Hw Hfail.
  - cbn. specialize (Hfail "" "" eq_refl). cbn in Hfail. by rewrite Nat.add_0_r in Hfail.
  - cbn in Hw. apply andb_true_iff in Hw as [Ha Hw].
    cbn [JS.starGreedy]. rewrite Ha. rewrite IH; [|done|].
    + specialize (Hfail "" (String a w) eq_refl). cbn in Hfail.
      by rewrite Nat.add_0_r in Hfail.
    + intros w1 w2 ->. specialize (Hfail (String a w1) w2 eq_refl).
      cbn in Hfail. by rewrite <- Nat.add_succ_comm in Hfail.
Qed.
End GreedyFacts.

Section MatcherInversion.
Context {R : Type}.
Implicit Types (k : @JS.cont R) (cs : JS.captures).

(** What a lazy star that succeeds has done: it has stepped over a run of
    its class, the shortest one after which the continuation succeeds. *)
Lemma starLazy_inv (c : JS.charset) (s : string) :
  ∀ pos cs k x,
    JS.starLazy c pos s cs k = Some x →
    ∃ u s', s = u +:+ s' ∧ sall (JS.inClass c) u = true ∧
            k (pos + String.length u)%nat s' cs = Some x ∧
            ∀ u1 a u2, u = u1 +:+ String a u2 →
                       k (pos + String.length u1)%nat (String a u2 +:+ s') cs = None.
Proof.
  induction s as [|a s IH]; intros pos cs k x; cbn [JS.starLazy].
  - destruct (k pos "" cs) as [y|] eqn:Ek; [|done]. intros [= <-].
    exists "", "". split_and!; [done | done | by rewrite Nat.add_0_r |].
    intros [|? ?] ? ? [=].
  - destruct (k pos (String a s) cs) as [y|] eqn:Ek.
    + intros [= <-]. exists "", (String a s).
      split_and!; [done | done | by rewrite Nat.add_0_r |]. intros [|? ?] ? ? [=].
    + destruct (JS.inClass c a) eqn:Ea; [|done].
      intros (u & s' & -> & Hu & Hk & Hmin)%IH.
      exists (String a u), s'. split_and!; [done | by cbn; rewrite Ea | |].
      * cbn. by rewrite <- Nat.add_succ_comm.
      * intros [|b u1] a' u2.
        -- cbn. intros [= <- <-]. by rewrite Nat.add_0_r.
        -- rewrite sapp_cons. intros [= <- ->]. cbn. rewrite <- Nat.add_succ_comm.
           by apply Hmin.
Qed.

Lemma starGreedy_inv (c : JS.charset) (s : string) :
  ∀ pos cs k x,
    JS.starGreedy c pos s cs k = Some x →
    ∃ u s', s = u +:+ s' ∧ sall (JS.inClass c) u = true ∧
            k (pos + String.length u)%nat s' cs = Some x.
Proof.
  induction s as [|a s IH]; intros pos cs k x; cbn [JS.starGreedy].
  - intros Hk. exists "", "". split_and!; [done | done | by rewrite Nat.add_0_r].
  - assert (Hhere : k pos (String a s) cs = Some x →
              ∃ u s', String a s = u +:+ s' ∧ sall (JS.inClass c) u = true ∧
                      k (pos + String.length u)%nat s' cs = Some x).
    { intros Hk. exists "", (String a s).
      split_and!; [done | done | by rewrite Nat.add_0_r]. }
    destruct (JS.inClass c a) eqn:Ea; [|done].
    destruct (JS.starGreedy c (S pos) s cs k) as [y|] eqn:Eg; [|done].
    intros [= <-]. apply IH in Eg as (u & s' & -> & Hu & Hk).
    exists (String a u), s'. split_and!; [done | by cbn; rewrite Ea |].
    cbn. by rewrite <- Nat.add_succ_comm.
Qed.

(** What a pattern that succeeds has done: it has consumed the start of
    the input and called the continuation on the rest, with captures that
    differ from those it was given for its own groups only. *)
Lemma rmatch_inv (r : JS.regex) :
  ∀ pos s cs k x,
    JS.rmatch r pos s cs k = Some x →
    ∃ u s' cs', s = u +:+ s' ∧ k (pos + String.length u)%nat s' cs' = Some x ∧
                ∀ i, i ∉ groups r → JS.capture cs' i = JS.capture cs i.
Proof.
  induction r as [| | |c|c|c|r1 IH1 r2 IH2|r1 IH1 r2 IH2|r1 IH1|i r1 IH1];
    intros pos s cs k x; cbn [JS.rmatch groups].
  - intros Hk. exists "", s, cs. by rewrite Nat.add_0_r.
  - destruct (Nat.eqb pos 0); [|done]. intros Hk. exists "", s, cs. by rewrite Nat.add_0_r.
  - destruct s; [|done]. intros Hk. exists "", "", cs. by rewrite Nat.add_0_r.
  - destruct s as [|a s]; [done|]. destruct (JS.inClass c a); [|done].
    intros Hk. exists (String a ""), s, cs. split_and!; [done | | done].
    cbn. by rewrite Nat.add_1_r.
  - intros (u & s' & -> & _ & Hk & _)%starLazy_inv. by exists u, s', cs.
  - intros (u & s' & -> & _ & Hk)%starGreedy_inv. by exists u, s', cs.
  - intros (u1 & s1 & cs1 & -> & (u2 & s2 & cs2 & -> & Hk & Hf2)%IH2 & Hf1)%IH1.
    exists (u1 +:+ u2), s2, cs2. split_and!; [by rewrite sapp_assoc | |].
    + by rewrite slength_app, Nat.add_assoc.
    + intros i [Hi1 Hi2]%not_elem_of_app. by rewrite Hf2, Hf1.
  - destruct (JS.rmatch r1 pos s cs k) as [y|] eqn:E1.
    + intros [= <-]. apply IH1 in E1 as (u & s' & cs' & -> & Hk & Hf).
      exists u, s', cs'. split_and!; [done | done |].
      intros i [Hi1 _]%not_elem_of_app. by apply Hf.
    + intros (u & s' & cs' & -> & Hk & Hf)%IH2.
      exists u, s', cs'. split_and!; [done | done |].
      intros i [_ Hi2]%not_elem_of_app. by apply Hf.
  - destruct (JS.rmatch r1 pos s cs k) as [y|] eqn:E1.
    + intros [= <-]. by apply IH1 in E1.
    + intros Hk. exists "", s, cs. by rewrite Nat.add_0_r.
  - intros (u & s' & cs' & -> & Hk & Hf)%IH1.
    eexists u, s', (_ :: cs'). split_and!; [done | exact Hk |].
    intros j [Hj1 Hj2]%not_elem_of_cons. cbn [JS.capture].
    destruct (Nat.eqb_spec i j); [congruence | by apply Hf].
Qed.

Lemma lit_inv (l : string) :
  ∀ pos s cs k x,
    JS.rmatch (JS.lit l) pos s cs k = Some x →
    ∃ s', s = l +:+ s' ∧ k (pos + String.length l)%nat s' cs = Some x.
Proof.
  induction l as [|a l IH]; intros pos s cs k x; cbn [JS.lit JS.rmatch].
  - intros Hk. exists s. by rewrite Nat.add_0_r.
  - destruct s as [|b s]; [done|]. cbn [JS.inClass].
    destruct (Ascii.eqb_spec b a) as [->|]; [|done].
    intros (s' & -> & Hk)%IH. exists s'. split; [done|].
    cbn. by rewrite <- Nat.add_succ_comm.
Qed.

(** A lazy star succeeds when the continuation succeeds after a run of its
    class. *)
Lemma starLazy_complete (c : JS.charset) (w : string) :
  ∀ t pos cs k,
    sall (JS.inClass c) w = true →
    is_Some (k (pos + String.length w)%nat t cs) →
    is_Some (JS.starLazy c pos (w +:+ t) cs k).
Proof.
  induction w as [|a w IH]; intros t pos cs k Hw Hk.
  - rewrite sapp_nil_l. cbn in Hk. rewrite Nat.add_0_r in Hk.
    destruct t; cbn [JS.starLazy]; by destruct Hk as [y ->].
  - cbn in Hw. apply andb_true_iff in Hw as [Ha Hw]. rewrite sapp_cons.
    cbn [JS.starLazy]. destruct (k pos (String a (w +:+ t)) cs); [done|].
    rewrite Ha. apply IH; [done|]. cbn in Hk. by rewrite <- Nat.add_succ_comm in Hk.
Qed.

End MatcherInversion.

(** Whether a pattern without [^] succeeds depends on the input only, as
    long as this holds of its continuation. *)
Lemma starLazy_indep {R R'} (c : JS.charset) (s : string) :
  ∀ pos pos' cs cs' (k : @JS.cont R) (k' : @JS.cont R'),
    (∀ p p' t d d', is_Some (k p t d) → is_Some (k' p' t d')) →
    is_Some (JS.starLazy c pos s cs k) → is_Some (JS.starLazy c pos' s cs' k').
Proof.
  induction s as [|a s IH]; intros pos pos' cs cs' k k' Hk; cbn [JS.starLazy].
  - destruct (k pos "" cs) eqn:E; [|by intros [? [=]]]. intros _.
    by destruct (Hk pos pos' "" cs cs' ltac:(by rewrite E)) as [y ->].
  - destruct (k pos (String a s) cs) eqn:E.
    + intros _. by destruct (Hk pos pos' _ cs cs' ltac:(by rewrite E)) as [y ->].
    + destruct (k' pos' (String a s) cs'); [done|].
      destruct (JS.inClass c a); [|done]. by apply IH.
Qed.

Lemma starGreedy_indep {R R'} (c : JS.charset) (s : string) :
  ∀ pos pos' cs cs' (k : @JS.cont R) (k' : @JS.cont R'),
    (∀ p p' t d d', is_Some (k p t d) → is_Some (k' p' t d')) →
    is_Some (JS.starGreedy c pos s cs k) → is_Some (JS.starGreedy c pos' s cs' k').
Proof.
  induction s as [|a s IH]; intros pos pos' cs cs' k k' Hk; cbn [JS.starGreedy].
  - apply Hk.
  - destruct (JS.inClass c a); [|apply Hk].
    destruct (JS.starGreedy c (S pos) s cs k) eqn:E.
    + intros _.
      by destruct (IH (S pos) (S pos') cs cs' k k' Hk ltac:(by rewrite E)) as [y ->].
    + intros Hhere. destruct (JS.starGreedy c (S pos') s cs' k'); [done|].
      by apply (Hk pos pos' _ cs cs').
Qed.

Lemma rmatch_indep {R R'} (r : JS.regex) :
  unanchored r = true →
  ∀ pos pos' s cs cs' (k : @JS.cont R) (k' : @JS.cont R'),
    (∀ p p' t d d', is_Some (k p t d) → is_Some (k' p' t d')) →
    is_Some (JS.rmatch r pos s cs k) → is_Some (JS.rmatch r pos' s cs' k').
Proof.
  induction r as [| | |c|c|c|r1 IH1 r2 IH2|r1 IH1 r2 IH2|r1 IH1|i r1 IH1];
    cbn [unanchored]; intros Hr pos pos' s cs cs' k k' Hk; cbn [JS.rmatch];
    try done.
  - apply Hk.
  - destruct s; [apply Hk | done].
  - destruct s as [|a s]; [done|]. destruct (JS.inClass c a); [apply Hk | done].
  - by apply starLazy_indep.
  - by apply starGreedy_indep.
  - apply andb_true_iff in Hr as [Hr1 Hr2]. apply IH1; [done|].
    intros p p' t d d'. by apply IH2.
  - apply andb_true_iff in Hr as [Hr1 Hr2].
    destruct (JS.rmatch r1 pos s cs k) eqn:E.
    + intros _.
      by destruct (IH1 Hr1 pos pos' s cs cs' k k' Hk ltac:(by rewrite E)) as [y ->].
    + intros H2. destruct (JS.rmatch r1 pos' s cs' k'); [done|]. by eapply IH2.
  - destruct (JS.rmatch r1 pos s cs k) eqn:E.
    + intros _.
      by destruct (IH1 Hr pos pos' s cs cs' k k' Hk ltac:(by rewrite E)) as [y ->].
    + intros Hhere. destruct (JS.rmatch r1 pos' s cs' k'); [done|].
      by apply (Hk pos pos' _ cs cs').
  - apply IH1; [done|]. intros p p' t d d'. apply Hk.
Qed.

Lemma sall_decomp (P : ascii → bool) (u : string) :
  (∀ u1 a u2, u = u1 +:+ String a u2 → P a = true) → sall P u = true.
Proof.
  induction u as [|a u IH]; intros Hall; cbn; [done|].
  rewrite (Hall "" a u eq_refl). apply IH.
  intros u1 b u2 ->. by apply (Hall (String a u1) b u2).
Qed.

(** The tail of the package-root pattern still succeeds when characters
    other than line terminators are put before its input. *)
Lemma packageRootTail_extend {R R'} (w s : string) (p1 p2 : nat)
    (cs1 cs2 : JS.captures) (k1 : @JS.cont R) (k2 : @JS.cont R') :
  (∀ p p' t d d', is_Some (k1 p t d) → is_Some (k2 p' t d')) →
  sall (JS.inClass JS.CDot) w = true →
  is_Some (JS.rmatch packageRootTail p1 s cs1 k1) →
  is_Some (JS.rmatch packageRootTail p2 (w +:+ s) cs2 k2).
Proof.
  intros Hk Hw.
  change packageRootTail with (JS.RSeq (JS.RStarLazy JS.CDot) packageRootEnd).
  cbn [JS.rmatch]. intros [x (v & t & -> & Hv & Hend & _)%starLazy_inv].
  rewrite <- sapp_assoc. apply starLazy_complete.
  - by rewrite sall_app, Hw, Hv.
  - apply (rmatch_indep packageRootEnd eq_refl (p1 + String.length v)%nat _ t cs1 cs2 k1 k2 Hk).
    by rewrite Hend.
Qed.

(** ** The classifier on any file of a package *)

Lemma hasSuffix_spec (rest suf : string) :
  hasSuffix rest suf = true ↔
  ∃ u c, rest = u +:+ String c ("." +:+ suf) ∧ Ascii.eqb c "/" = false.
Proof.
  induction rest as [|a r IH]; cbn [hasSuffix].
  - split; [done|]. by intros ([|? ?] & c & [=] & _).
  - rewrite orb_true_iff, andb_true_iff, negb_true_iff, IH. split.
    + intros [[Ha ->%String.eqb_eq]|(u & c & -> & Hc)].
      * by exists "", a.
      * by exists (String a u), c.
    + intros ([|b u] & c & Heq & Hc).
      * rewrite sapp_nil_l in Heq. injection Heq as -> ->. left.
        split; [done | apply String.eqb_refl].
      * rewrite sapp_cons in Heq. injection Heq as -> ->. right. by exists u, c.
Qed.

(** What the end of the package-root pattern accepts: one character other
    than a slash, alone or before one of the known suffixes. *)
Lemma packageRootEnd_inv {R} (pos : nat) (s : string) (cs : JS.captures)
    (k : @JS.cont R) (x : R) :
  JS.rmatch packageRootEnd pos s cs k = Some x →
  ∃ a r, s = String a r ∧ Ascii.eqb a "/" = false ∧
         (r = "" ∨ ∃ suf kind, (suf, kind) ∈ suffixKinds ∧ r = "." +:+ suf).
Proof.
  unfold packageRootEnd. cbn [JS.rmatch].
  destruct s as [|a r]; [done|]. cbn [JS.inClass].
  destruct (Ascii.eqb a "/") eqn:Ea; [done|]. cbn [negb].
  intros Hm. exists a, r. split_and!; [done | done |].
  match type of Hm with
  | match ?e with _ => _ end = _ => destruct e as [y|] eqn:E
  end.
  - right. destruct r as [|b r']; [done|].
    destruct (Ascii.eqb_spec b ".") as [->|]; [|done].
    match type of E with
    | match ?e with _ => _ end = _ => destruct e as [y1|] eqn:E1
    end.
    + apply lit_inv in E1 as (s' & -> & Hk). destruct s'; [|done].
      exists "d.ts", definition. split; [|done]. unfold suffixKinds.
      apply list_elem_of_here.
    + match type of E with
      | match ?e with _ => _ end = _ => destruct e as [y2|] eqn:E2
      end.
      * apply lit_inv in E2 as (s' & -> & Hk).
        match type of Hk with
        | match ?e with _ => _ end = _ => destruct e as [y3|] eqn:E3
        end.
        -- destruct s' as [|b' s']; [done|].
           destruct (Ascii.eqb_spec b' "x") as [->|]; [|done].
           destruct s'; [|done].
           exists "tsx", test. split; [|done]. unfold suffixKinds.
           do 2 apply list_elem_of_further. apply list_elem_of_here.
        -- destruct s'; [|done].
           exists "ts", test. split; [|done]. unfold suffixKinds.
           apply list_elem_of_further. apply list_elem_of_here.
      * apply lit_inv in E as (s' & -> & Hk). destruct s'; [|done].
        exists "md", markdown. split; [|done]. unfold suffixKinds.
        do 3 apply list_elem_of_further. apply list_elem_of_here.
  - left. by destruct r.
Qed.

Lemma slast_split (s : string) (c : ascii) :
  slast s = Some c ↔ ∃ u, s = u +:+ String c "".
Proof.
  induction s as [|a s IH]; cbn [slast].
  - split; [done|]. by intros ([|? ?] & [=]).
  - destruct s as [|b s].
    + split.
      * intros [= ->]. by exists "".
      * intros ([|a' [|? ?]] & [=]). by subst.
    + rewrite IH. split.
      * intros (u & ->). by exists (String a u).
      * intros ([|a' u] & Heq); [done|]. rewrite sapp_cons in Heq.
        injection Heq as -> ->. by exists u.
Qed.

Lemma slast_app (u : string) (a : ascii) (v : string) :
  slast (u +:+ String a v) = slast (String a v).
Proof.
  induction u as [|b u IH]; [done|]. rewrite sapp_cons, <- IH.
  assert (Hne : u +:+ String a v ≠ "") by (by destruct u).
  revert Hne. generalize (u +:+ String a v). by intros [|? ?].
Qed.

(** What a match of the package-root pattern tells about the path: it is
    under [types/], the package captured is the first directory there, and
    what follows it does not end with a slash. *)
Lemma exec_packageRoot_inv (path : string) (m : JS.matched) :
  JS.exec packageRoot path = Some m →
  ∃ pkg rest,
    path = "types/" +:+ pkg +:+ "/" +:+ rest ∧ endsInName rest = true ∧
    JS.capture (JS.m_captures m) 1 = Some pkg ∧
    sall segmentChar pkg = true.
Proof.
  change packageRoot with
    (JS.RSeq JS.RStart (JS.RSeq (JS.lit "types/")
       (JS.RSeq (JS.RGroup 1 (JS.RStarLazy JS.CDot))
          (JS.RSeq (JS.ROne (JS.CChar "/")) packageRootTail)))).
  rewrite exec_anchored. unfold JS.matchAt. cbn [JS.rmatch Nat.eqb].
  intros (s1 & -> & (u & s2 & -> & Hu & Hk & Hmin)%starLazy_inv)%lit_inv.
  destruct s2 as [|a s3]; [done|]. cbn [JS.inClass] in Hk.
  destruct (Ascii.eqb_spec a "/") as [->|]; [|done].
  replace (0 + String.length "types/" + String.length u
           - (0 + String.length "types/"))%nat
    with (String.length u) in Hk by lia.
  rewrite stake_app in Hk.
  assert (Hrest : endsInName s3 = true).
  { pose proof Hk as Hk'.
    change packageRootTail with (JS.RSeq (JS.RStarLazy JS.CDot) packageRootEnd) in Hk'.
    cbn [JS.rmatch] in Hk'.
    apply starLazy_inv in Hk' as (v & t' & Hs3 & _ & Hend & _).
    apply packageRootEnd_inv in Hend as (b & r & -> & Hb & Hr).
    rewrite Hs3. unfold endsInName. rewrite slast_app.
    destruct Hr as [->|(suf & kind & Hsuf & ->)].
    - cbn. by rewrite Hb.
    - unfold suffixKinds in Hsuf.
      repeat (apply elem_of_cons in Hsuf as [[= -> ->]|Hsuf]);
        [reflexivity | reflexivity | reflexivity | reflexivity
        | by apply elem_of_nil in Hsuf]. }
  pose proof Hk as Hcap.
  apply rmatch_inv in Hcap as (v & s4 & cs4 & _ & [= <-] & Hframe).
  exists u, s3. split_and!; [done | done | |].
  - cbn [JS.m_captures]. rewrite Hframe; [done|].
    unfold packageRootTail. cbn. intros [?|?%elem_of_nil]%elem_of_cons; done.
  - apply sall_decomp. intros u1 b u2 ->.
    pose proof (sall_middle _ _ _ _ Hu) as Hb.
    unfold segmentChar. cbn in Hb. rewrite Hb, andb_true_r.
    destruct (Ascii.eqb_spec b "/") as [->|]; [|done]. exfalso.
    specialize (Hmin u1 "/"%char u2 eq_refl).
    rewrite sapp_cons in Hmin. cbn [JS.inClass] in Hmin.
    rewrite Ascii.eqb_refl in Hmin.
    assert (Hsome : is_Some
              (JS.rmatch packageRootTail
                 (S (0 + String.length "types/" + String.length u1))
                 (u2 +:+ String "/" s3)
                 [(1%nat,
                   JS.stake
                     (0 + String.length "types/" + String.length u1
                      - (0 + String.length "types/"))
                     ((u1 +:+ String "/" u2) +:+ String "/" s3))]
                 (fun pos' _ cs =>
                    Some {| JS.m_start := 0; JS.m_end := pos'; JS.m_captures := cs |}))).
    { replace (u2 +:+ String "/" s3) with ((u2 +:+ "/") +:+ s3)
        by (by rewrite sapp_assoc).
      eapply packageRootTail_extend; [by eexists | | by rewrite Hk].
      rewrite sall_app in Hu. apply andb_true_iff in Hu as [_ Hu].
      cbn in Hu. by rewrite sall_app, Hu. }
    rewrite Hmin in Hsome. by destruct Hsome.
Qed.

(** What the classifier returns for a path. *)
Lemma categorizeFile_shape (H : Host) (path0 : string)
    (contents : M (option string)) (log log' : list FetchCall) (f : FileInfo) :
  categorizeFile H path0 contents log = (Normal f, log') →
  path f = path0 ∧
  (package f = None ↔ kind f = infrastructure) ∧
  (∀ pkg, package f = Some pkg →
     sall segmentChar pkg = true ∧
     ∃ rest, endsInName rest = true ∧ path0 = "types/" +:+ pkg +:+ "/" +:+ rest).
Proof.
  unfold categorizeFile.
  destruct (JS.exec packageRoot path0) as [m|] eqn:Hexec.
  - apply exec_packageRoot_inv in Hexec as (pkg & rest & Hpath & Hrest & Hcap & Hpkg).
    rewrite Hcap.
    assert (Hgoal : ∀ k, k ≠ infrastructure →
              path {| path := path0; kind := k; package := Some pkg |} = path0 ∧
              (package {| path := path0; kind := k; package := Some pkg |} = None ↔
               kind {| path := path0; kind := k; package := Some pkg |} = infrastructure) ∧
              (∀ pkg', package {| path := path0; kind := k; package := Some pkg |} = Some pkg' →
                 sall segmentChar pkg' = true ∧
                 ∃ rest, endsInName rest = true ∧
                         path0 = "types/" +:+ pkg' +:+ "/" +:+ rest)).
    { intros k Hk. cbn. split_and!; [done | by split | ].
      intros pkg' [= <-]. split; [done|]. by exists rest. }
    repeat case_match; try (intros [= <- <-]; by apply Hgoal).
    unfold bind. destruct (configOK H path0 contents log) as [[[]|e] log1];
      intros [= <- <-]; by apply Hgoal.
  - intros [= <- <-]. cbn. split_and!; [done | by split | done].
Qed.

(** X13. What the classifier returns for a path is about that path; it has
    no package exactly when it is [infrastructure]; and a package that it
    has is the first directory of the path under [types/], the path going
    on after it and not ending with a slash. *)
Theorem categorizeFile_package (H : Host) (path0 : string)
    (contents : M (option string)) (log log' : list FetchCall) (f : FileInfo) :
  categorizeFile H path0 contents log = (Normal f, log') →
  path f = path0 ∧
  (package f = None ↔ kind f = infrastructure) ∧
  (∀ pkg, package f = Some pkg →
     sall segmentChar pkg = true ∧
     ∃ rest, endsInName rest = true ∧ path0 = "types/" +:+ pkg +:+ "/" +:+ rest).
Proof. apply categorizeFile_shape. Qed.

Lemma categorizeFile_package_witness :
  ∃ rest, endsInName rest = true ∧
          "types/foo/index.d.ts" = "types/" +:+ "foo" +:+ "/" +:+ rest.
Proof.
  assert (Hrun : categorizeFile Example.host "types/foo/index.d.ts" Samples.unreachable [] =
            (Normal {| path := "types/foo/index.d.ts"; kind := definition;
                       package := Some "foo" |}, []))
    by (vm_compute; reflexivity).
  destruct (categorizeFile_package Example.host "types/foo/index.d.ts"
              Samples.unreachable [] [] _ Hrun) as (_ & _ & Hsome).
  exact (proj2 (Hsome "foo" eq_refl)).
Defined.

(** The end of the pattern on one character and a known suffix. *)
Lemma packageRootEnd_suffix (a : ascii) (suf : string) (kind : FileKind)
    (pos : nat) (cs : JS.captures) :
  (suf, kind) ∈ suffixKinds → Ascii.eqb a "/" = false →
  JS.rmatch packageRootEnd pos (String a ("." +:+ suf)) cs
    (fun pos' _ cs' => Some {| JS.m_start := 0; JS.m_end := pos'; JS.m_captures := cs' |}) =
  Some {| JS.m_start := 0; JS.m_end := pos + 2 + String.length suf;
          JS.m_captures := (2%nat, suf) :: cs |}.
Proof.
  intros Hsuf Ha. unfold suffixKinds in Hsuf.
  repeat (apply elem_of_cons in Hsuf as [[= -> ->]|Hsuf]);
    [| | | |by apply elem_of_nil in Hsuf];
    unfold packageRootEnd; cbn -[Nat.sub Nat.add]; rewrite Ha; cbn -[Nat.sub Nat.add].
  - replace (S (S (S (S (S (S pos))))) - S (S pos))%nat with 4%nat by lia.
    cbn [JS.stake]. do 2 f_equal. lia.
  - replace (S (S (S (S pos))) - S (S pos))%nat with 2%nat by lia.
    cbn [JS.stake]. do 2 f_equal. lia.
  - replace (S (S (S (S (S pos)))) - S (S pos))%nat with 3%nat by lia.
    cbn [JS.stake]. do 2 f_equal. lia.
  - replace (S (S (S (S pos))) - S (S pos))%nat with 2%nat by lia.
    cbn [JS.stake]. do 2 f_equal. lia.
Qed.

(** The tail of the pattern finds the first place where its end
    succeeds. *)
Lemma packageRootTail_found {R} (w : string) (c : ascii) (t : string) (pos : nat)
    (cs : JS.captures) (k : @JS.cont R) (x : R) :
  oneLine w = true →
  (∀ w1 a w2, w = w1 +:+ String a w2 →
     JS.rmatch packageRootEnd (pos + String.length w1) (String a w2 +:+ String c t) cs k
     = None) →
  JS.rmatch packageRootEnd (pos + String.length w) (String c t) cs k = Some x →
  JS.rmatch packageRootTail pos (w +:+ String c t) cs k = Some x.
Proof.
  intros Hw Hearly Hhere.
  change packageRootTail with (JS.RSeq (JS.RStarLazy JS.CDot) packageRootEnd).
  cbn [JS.rmatch]. rewrite starLazy_skip; [|done|done].
  cbn [JS.starLazy]. by rewrite Hhere.
Qed.

Lemma suffixKinds_length (suf : string) (kind : FileKind) :
  (suf, kind) ∈ suffixKinds → (2 ≤ String.length suf ≤ 4)%nat.
Proof.
  unfold suffixKinds. intros Hsuf.
  repeat (apply elem_of_cons in Hsuf as [[= -> ->]|Hsuf]);
    [| | | |by apply elem_of_nil in Hsuf]; cbn; lia.
Qed.

(** The match of the package-root pattern on a file of a package that ends
    with a known suffix, the longest one that it ends with. *)
Lemma exec_packageRoot_known (pkg rest suf : string) (kind : FileKind) :
  sall segmentChar pkg = true → oneLine rest = true →
  (suf, kind) ∈ suffixKinds → hasSuffix rest suf = true →
  (∀ suf' kind', (suf', kind') ∈ suffixKinds → hasSuffix rest suf' = true →
                 (String.length suf' ≤ String.length suf)%nat) →
  ∃ m, JS.exec packageRoot ("types/" +:+ pkg +:+ "/" +:+ rest) = Some m ∧
       JS.capture (JS.m_captures m) 1 = Some pkg ∧
       JS.capture (JS.m_captures m) 2 = Some suf.
Proof.
  intros Hpkg Hrest Hsuf (u & c & -> & Hc)%hasSuffix_spec Hlongest.
  eexists. split; [apply packageRoot_segment; [done|]|].
  - apply packageRootTail_found.
    + unfold oneLine in *. rewrite sall_app in Hrest.
      by apply andb_true_iff in Hrest as [? _].
    + intros w1 a w2 ->.
      match goal with |- ?e = None => destruct e as [y|] eqn:E; [exfalso|done] end.
      apply packageRootEnd_inv in E as (a' & r & [= <- <-] & Ha & Hr).
      destruct Hr as [Hr|(suf' & kind' & Hsuf' & Hr)]; [by destruct w2|].
      assert (Hlen : (String.length suf' ≤ String.length suf)%nat).
      { apply (Hlongest suf' kind' Hsuf'). apply hasSuffix_spec.
        exists w1, a. split; [|done]. by rewrite sapp_assoc, sapp_cons, Hr. }
      apply (f_equal String.length) in Hr. rewrite slength_app in Hr.
      cbn [String.length] in Hr. rewrite !slength_app in Hr. cbn in Hr. lia.
    + by apply (packageRootEnd_suffix c suf kind).
  - done.
Qed.

(** The same on a file that ends with none of the known suffixes. *)
Lemma exec_packageRoot_plain (pkg rest : string) :
  sall segmentChar pkg = true → oneLine rest = true → endsInName rest = true →
  (∀ suf kind, (suf, kind) ∈ suffixKinds → hasSuffix rest suf = false) →
  ∃ m, JS.exec packageRoot ("types/" +:+ pkg +:+ "/" +:+ rest) = Some m ∧
       JS.capture (JS.m_captures m) 1 = Some pkg ∧
       JS.capture (JS.m_captures m) 2 = None.
Proof.
  intros Hpkg Hrest Hname Hnone. unfold endsInName in Hname.
  destruct (slast rest) as [c|] eqn:Elast; [|done].
  apply negb_true_iff in Hname. apply slast_split in Elast as (u & ->).
  eexists. split; [apply packageRoot_segment; [done|]|].
  - apply packageRootTail_found.
    + unfold oneLine in *. rewrite sall_app in Hrest.
      by apply andb_true_iff in Hrest as [? _].
    + intros w1 a w2 ->.
      match goal with |- ?e = None => destruct e as [y|] eqn:E; [exfalso|done] end.
      apply packageRootEnd_inv in E as (a' & r & [= <- <-] & Ha & Hr).
      destruct Hr as [Hr|(suf' & kind' & Hsuf' & Hr)]; [by destruct w2|].
      assert (Hhas : hasSuffix ((w1 +:+ String a w2) +:+ String c "") suf' = true).
      { apply hasSuffix_spec. exists w1, a. split; [|done].
        by rewrite sapp_assoc, sapp_cons, Hr. }
      by rewrite (Hnone suf' kind' Hsuf') in Hhas.
    + unfold packageRootEnd. cbn. rewrite Hname. cbn. reflexivity.
  - done.
Qed.

(** The classifier on a file of a package. *)
Lemma categorizeFile_of_package (H : Host) (pkg rest : string)
    (contents : M (option string)) (log : list FetchCall) :
  packageFile pkg rest = true →
  categorizeFile H ("types/" +:+ pkg +:+ "/" +:+ rest) contents log =
  match kindOfSuffix rest with
  | Some kind =>
      (Normal {| path := "types/" +:+ pkg +:+ "/" +:+ rest; kind := kind;
                 package := Some pkg |}, log)
  | None =>
      (let* ok := configOK H ("types/" +:+ pkg +:+ "/" +:+ rest) contents in
       ret {| path := "types/" +:+ pkg +:+ "/" +:+ rest;
              kind := if ok : bool then package_meta_ok else package_meta;
              package := Some pkg |}) log
  end.
Proof.
  unfold packageFile. intros [[Hpkg Hrest]%andb_true_iff Hname]%andb_true_iff.
  assert (Hknown : ∀ suf kind,
            (suf, kind) ∈ suffixKinds → hasSuffix rest suf = true →
            (∀ suf' kind', (suf', kind') ∈ suffixKinds → hasSuffix rest suf' = true →
                           (String.length suf' ≤ String.length suf)%nat) →
            categorizeFile H ("types/" +:+ pkg +:+ "/" +:+ rest) contents log =
            (Normal {| path := "types/" +:+ pkg +:+ "/" +:+ rest;
                       kind := kind; package := Some pkg |}, log)).
  { intros suf kind Hsuf Hhas Hlongest.
    destruct (exec_packageRoot_known pkg rest suf kind Hpkg Hrest Hsuf Hhas Hlongest)
      as (m & Hexec & H1 & H2).
    unfold categorizeFile. rewrite Hexec, H1, H2. cbn [default from_option id].
    unfold suffixKinds in Hsuf.
    repeat (apply elem_of_cons in Hsuf as [[= -> ->]|Hsuf]);
      [done | done | done | done | by apply elem_of_nil in Hsuf]. }
  assert (Helem : ∀ suf' kind', (suf', kind') ∈ suffixKinds →
            suf' = "d.ts" ∨ suf' = "ts" ∨ suf' = "tsx" ∨ suf' = "md").
  { unfold suffixKinds. intros suf' kind' Hsuf.
    repeat (apply elem_of_cons in Hsuf as [[= -> ->]|Hsuf]);
      [by left | by right; left | by right; right; left | by right; right; right
      | by apply elem_of_nil in Hsuf]. }
  unfold kindOfSuffix.
  destruct (hasSuffix rest "d.ts") eqn:E1;
    [|destruct (hasSuffix rest "tsx") eqn:E2;
      [|destruct (hasSuffix rest "ts") eqn:E3;
        [|destruct (hasSuffix rest "md") eqn:E4]]].
  - apply (Hknown "d.ts"); [apply list_elem_of_here | done |].
    intros suf' kind' Hsuf' _. apply suffixKinds_length in Hsuf'. cbn. lia.
  - rewrite orb_true_r.
    apply (Hknown "tsx");
      [do 2 apply list_elem_of_further; apply list_elem_of_here | done |].
    intros suf' kind' [->|[->|[->| ->]]]%Helem; cbn; try lia. congruence.
  - cbn [orb].
    apply (Hknown "ts");
      [apply list_elem_of_further; apply list_elem_of_here | done |].
    intros suf' kind' [->|[->|[->| ->]]]%Helem; cbn; try lia; congruence.
  - cbn [orb].
    apply (Hknown "md");
      [do 3 apply list_elem_of_further; apply list_elem_of_here | done |].
    intros suf' kind' [->|[->|[->| ->]]]%Helem; cbn; try lia; congruence.
  - cbn [orb].
    destruct (exec_packageRoot_plain pkg rest Hpkg Hrest Hname) as (m & Hexec & H1 & H2).
    { intros suf' kind' [->|[->|[->| ->]]]%Helem; done. }
    unfold categorizeFile. rewrite Hexec, H1, H2. reflexivity.
Qed.

(** X14. A file of a package is classified by the longest known suffix that
    its path ends with, whatever the content accessor is, which is not run;
    a file that ends with none is [package-meta-ok] or [package-meta] by
    what [configOK] says. *)
Theorem categorizeFile_kind (H : Host) (pkg rest : string)
    (contents : M (option string)) (log : list FetchCall) :
  packageFile pkg rest = true →
  let path := "types/" +:+ pkg +:+ "/" +:+ rest in
  categorizeFile H path contents log =
  match kindOfSuffix rest with
  | Some kind => (Normal {| path := path; kind := kind; package := Some pkg |}, log)
  | None =>
      (let* ok := configOK H path contents in
       ret {| path := path;
              kind := if ok : bool then package_meta_ok else package_meta;
              package := Some pkg |}) log
  end.
Proof. intros Hfile path. by apply categorizeFile_of_package. Qed.

(** ** The base name and the rules of [configOK] *)

Lemma matchAt_upToSlash_None (s : string) (pos : nat) :
  sall segmentChar s = true → JS.matchAt upToSlash pos s = None.
Proof.
  intros Hs. unfold JS.matchAt, upToSlash. cbn [JS.rmatch].
  apply starGreedy_none.
  - eapply sall_impl; [|exact Hs]. apply segmentChar_dot.
  - intros w1 [|b w2] ->; [done|]. apply sall_middle in Hs.
    cbn [JS.inClass]. by rewrite (segmentChar_slash b Hs).
Qed.

Lemma categorizeFile_kind_witness :
  categorizeFile Example.host "types/foo/.d.ts" Samples.unreachable [] =
  (Normal {| path := "types/foo/.d.ts"; kind := test; package := Some "foo" |}, []).
Proof.
  exact (categorizeFile_kind Example.host "foo" ".d.ts" Samples.unreachable [] eq_refl).
Defined.

(** The base name of a path without slash is the path. *)
Lemma basename_plain (name : string) :
  sall segmentChar name = true → basename name = name.
Proof.
  intros Hname. unfold basename, JS.replace_empty, JS.exec.
  enough (Hnone : ∀ pos, JS.execFrom upToSlash pos name = None) by (by rewrite Hnone).
  induction name as [|a name IH]; intros pos; cbn [JS.execFrom];
    rewrite matchAt_upToSlash_None by done; [done|].
  cbn in Hname. apply andb_true_iff in Hname as [_ Hname]. by apply IH.
Qed.

(** The base name of a path is what follows its last slash. *)
Lemma basename_dir (dir name : string) :
  oneLine dir = true → sall segmentChar name = true →
  basename (dir +:+ "/" +:+ name) = name.
Proof.
  intros Hdir Hname. unfold basename, JS.replace_empty, JS.exec.
  assert (Hexec : JS.matchAt upToSlash 0 (dir +:+ "/" +:+ name) =
            Some {| JS.m_start := 0;
                    JS.m_end := String.length (dir +:+ "/");
                    JS.m_captures := [] |}).
  { unfold JS.matchAt, upToSlash. cbn [JS.rmatch].
    apply starGreedy_through; [exact Hdir|].
    change ("/" +:+ name) with (String "/" name). cbn [JS.starGreedy JS.inClass].
    cbn [JS.lineTerminator Ascii.eqb Bool.eqb orb negb].
    rewrite starGreedy_none.
    - cbn [JS.inClass Ascii.eqb Bool.eqb]. do 3 f_equal.
      rewrite !slength_app. cbn. lia.
    - eapply sall_impl; [|exact Hname]. apply segmentChar_dot.
    - intros w1 [|b w2] ->; [done|]. apply sall_middle in Hname.
      cbn [JS.inClass]. by rewrite (segmentChar_slash b Hname). }
  destruct (dir +:+ "/" +:+ name) as [|a0 s0] eqn:Epath; [by destruct dir|].
  cbn [JS.execFrom]. rewrite Hexec. cbn [JS.m_start JS.m_end JS.stake].
  rewrite sapp_nil_l, <- Epath.
  replace (dir +:+ "/" +:+ name) with ((dir +:+ "/") +:+ name)
    by (by rewrite sapp_assoc).
  apply sdrop_app.
Qed.

(** X15. The base name that [configOK] looks up is the path itself when it
    has no slash, and else what follows its last slash. *)
Theorem basename_last (name : string) :
  sall segmentChar name = true →
  basename name = name ∧
  ∀ dir, oneLine dir = true → basename (dir +:+ "/" +:+ name) = name.
Proof.
  intros Hname. split; [by apply basename_plain|].
  intros dir Hdir. by apply basename_dir.
Qed.

Lemma basename_last_witness :
  basename "types/foo/v2/index.d.ts" = "index.d.ts".
Proof.
  exact (proj2 (basename_last "index.d.ts" eq_refl) "types/foo/v2" eq_refl).
Defined.

Lemma registered_true (H : Host) (name : string) :
  registered H name = true ↔ name = "OTHER_FILES.txt" ∨ name = "tslint.json".
Proof.
  unfold registered, configOK_rules. cbn [JS.Map_get].
  rewrite bool_decide_eq_true.
  destruct (String.eqb_spec "OTHER_FILES.txt" name) as [<-|Hne1].
  { split; [by left | by eexists]. }
  destruct (String.eqb_spec "tslint.json" name) as [<-|Hne2].
  { split; [by right | by eexists]. }
  split; [by intros [? ?] | by intros [->| ->]].
Qed.

(** [configOK] by the base name of the path. *)
Lemma configOK_run (H : Host) (path0 : string) (contents : M (option string))
    (log : list FetchCall) :
  configOK H path0 contents log =
  if registered H (basename path0) then
    match contents log with
    | (Throw e, log1) => (Throw e, log1)
    | (Normal None, log1) => (Normal false, log1)
    | (Normal (Some text), log1) =>
        (if String.eqb (basename path0) "tslint.json" then configOK_tslint H text
         else configOK_OTHER_FILES text, log1)
    end
  else (Normal false, log).
Proof.
  unfold configOK, registered. change (JS.replace_empty upToSlash path0) with (basename path0).
  unfold configOK_rules. cbn [JS.Map_get].
  destruct (String.eqb_spec "OTHER_FILES.txt" (basename path0)) as [<-|Hne1].
  { rewrite bool_decide_eq_true_2 by (by eexists). unfold bind, lift, ret.
    by destruct (contents log) as [[[text|]|e] log1]. }
  destruct (String.eqb_spec "tslint.json" (basename path0)) as [<-|Hne2].
  { rewrite bool_decide_eq_true_2 by (by eexists). unfold bind, lift, ret.
    by destruct (contents log) as [[[text|]|e] log1]. }
  rewrite bool_decide_eq_false_2 by (by intros [? ?]). done.
Qed.

(** A string is a name without slash, or a directory, a slash and such a
    name. *)
Lemma last_segment (s : string) :
  oneLine s = true →
  ∃ name, sall segmentChar name = true ∧
          (s = name ∨ ∃ dir, oneLine dir = true ∧ s = dir +:+ "/" +:+ name).
Proof.
  unfold oneLine. induction s as [|a s IH]; intros Hs.
  - exists "". split; [done | by left].
  - cbn in Hs. apply andb_true_iff in Hs as [Ha Hs].
    destruct (IH Hs) as (name & Hname & [->|(dir & Hdir & ->)]).
    + destruct (Ascii.eqb_spec a "/") as [->|Hne].
      * exists name. split; [done|]. right. by exists "".
      * exists (String a name). split; [|by left].
        cbn. rewrite Hname, andb_true_r. unfold segmentChar.
        apply andb_true_iff. split; [|done].
        apply negb_true_iff. by apply Ascii.eqb_neq.
    + exists name. split; [done|]. right. exists (String a dir). split; [|done].
      cbn. by rewrite Ha, Hdir.
Qed.

(** The base name of a file of a package is the last segment of its
    path. *)
Lemma basename_of_package (pkg rest : string) :
  packageFile pkg rest = true →
  ∃ name, basename ("types/" +:+ pkg +:+ "/" +:+ rest) = name ∧
          sall segmentChar name = true ∧
          (rest = name ∨ ∃ dir, rest = dir +:+ "/" +:+ name).
Proof.
  unfold packageFile. intros [[Hpkg Hrest]%andb_true_iff Hname]%andb_true_iff.
  assert (Hroot : oneLine ("types/" +:+ pkg) = true).
  { unfold oneLine. rewrite sall_app. apply andb_true_iff. split; [done|].
    eapply sall_impl; [|exact Hpkg]. apply segmentChar_dot. }
  destruct (last_segment rest Hrest) as (name & Hseg & [->|(dir & Hdir & ->)]);
    exists name; (split; [|split; [done|]]).
  - rewrite <- (basename_dir ("types/" +:+ pkg) name Hroot Hseg) at 2.
    by rewrite sapp_assoc.
  - by left.
  - assert (Hdirs : oneLine (("types/" +:+ pkg) +:+ "/" +:+ dir) = true).
    { unfold oneLine in *. by rewrite sall_app, Hroot. }
    rewrite <- (basename_dir _ name Hdirs Hseg) at 2.
    by rewrite !sapp_assoc.
  - right. by exists dir.
Qed.

Lemma kindOfSuffix_None_last (rest : string) (c : ascii) :
  slast rest = Some c → c ≠ "s"%char → c ≠ "x"%char → c ≠ "d"%char →
  kindOfSuffix rest = None.
Proof.
  intros Hlast Hs Hx Hd.
  assert (Hno : ∀ suf c', slast (String c' ("." +:+ suf)) ≠ Some c →
            hasSuffix rest suf = false).
  { intros suf c' Hne. destruct (hasSuffix rest suf) eqn:E; [exfalso|done].
    apply hasSuffix_spec in E as (u & c2 & -> & _).
    rewrite slast_app in Hlast. apply Hne. rewrite <- Hlast.
    by destruct suf. }
  unfold kindOfSuffix.
  rewrite (Hno "d.ts" "a"%char), (Hno "ts" "a"%char), (Hno "tsx" "a"%char),
    (Hno "md" "a"%char); [done | | | |]; intros Heq; vm_compute in Heq; congruence.
Qed.

(** A file of a package whose base name does not end like a known suffix
    has no known suffix. *)
Lemma kindOfSuffix_basename (pkg rest name : string) (c : ascii) :
  packageFile pkg rest = true →
  basename ("types/" +:+ pkg +:+ "/" +:+ rest) = name →
  slast name = Some c → c ≠ "s"%char → c ≠ "x"%char → c ≠ "d"%char →
  kindOfSuffix rest = None.
Proof.
  intros Hfile Hbase Hlast Hs Hx Hd.
  destruct (basename_of_package pkg rest Hfile) as (name' & Hb & _ & Hrest).
  rewrite Hb in Hbase. subst name'.
  destruct Hrest as [->|(dir & ->)]; apply (kindOfSuffix_None_last _ c); try done.
  destruct name as [|a v]; [done|].
  change ("/" +:+ String a v) with (String "/" (String a v)).
  by rewrite slast_app.
Qed.

(** X16. The lint configuration of a package, in any of its directories:
    it is [package-meta-ok] exactly when its content parses to a value that
    [JSON.stringify] writes as the recommended form, [package-meta] when it
    parses to another value or has no content, and the classifier throws
    what the accessor or [JSON.parse] throws. *)
Theorem categorizeFile_tslint (H : Host) (pkg rest : string)
    (contents : M (option string)) (log : list FetchCall) :
  packageFile pkg rest = true →
  let path := "types/" +:+ pkg +:+ "/" +:+ rest in
  basename path = "tslint.json" →
  categorizeFile H path contents log =
  match contents log with
  | (Throw e, log1) => (Throw e, log1)
  | (Normal None, log1) =>
      (Normal {| path := path; kind := package_meta; package := Some pkg |}, log1)
  | (Normal (Some text), log1) =>
      match JSON_parse H text with
      | Throw e => (Throw e, log1)
      | Normal v =>
          (Normal {| path := path;
                     kind := if String.eqb (JSON_stringify H v) recommendedTslint
                             then package_meta_ok else package_meta;
                     package := Some pkg |}, log1)
      end
  end.
Proof.
  intros Hfile path Hbase. subst path.
  rewrite categorizeFile_of_package by done.
  rewrite (kindOfSuffix_basename pkg rest "tslint.json" "n" Hfile Hbase) by done.
  unfold bind at 1. rewrite configOK_run, Hbase. cbn.
  destruct (contents log) as [[[text|]|e] log1]; [|done|done].
  unfold configOK_tslint, ret. by destruct (JSON_parse H text).
Qed.

Lemma categorizeFile_tslint_witness :
  categorizeFile Example.host "types/foo/v2/tslint.json" (ret (Some recommendedTslint)) [] =
  (Normal {| path := "types/foo/v2/tslint.json"; kind := package_meta_ok;
             package := Some "foo" |}, []).
Proof.
  exact (categorizeFile_tslint Example.host "foo" "v2/tslint.json"
           (ret (Some recommendedTslint)) [] eq_refl eq_refl).
Defined.

(** X17. A file of a package that has no known suffix and whose base name
    has no rule on [configOK] is [package-meta], whatever the content
    accessor is, which is not run.  The names that [configOK] has as a
    function object are left aside. *)
Theorem categorizeFile_unregistered (H : Host) (pkg rest : string)
    (contents : M (option string)) (log : list FetchCall) :
  packageFile pkg rest = true → kindOfSuffix rest = None →
  let path := "types/" +:+ pkg +:+ "/" +:+ rest in
  registered H (basename path) = false → basename path ∉ functionProperties →
  categorizeFile H path contents log =
  (Normal {| path := path; kind := package_meta; package := Some pkg |}, log).
Proof.
  intros Hfile Hkind path Hreg _. subst path.
  rewrite categorizeFile_of_package, Hkind by done.
  unfold bind. by rewrite configOK_run, Hreg.
Qed.

Lemma categorizeFile_unregistered_witness :
  categorizeFile Example.host "types/foo/package.json" Samples.unreachable [] =
  (Normal {| path := "types/foo/package.json"; kind := package_meta;
             package := Some "foo" |}, []).
Proof.
  refine (categorizeFile_unregistered Example.host "foo" "package.json"
            Samples.unreachable [] eq_refl eq_refl eq_refl _).
  apply (bool_decide_unpack _). vm_compute. exact I.
Defined.

(** ** The rule of [OTHER_FILES.txt] *)

(** A greedy star before the end of the input succeeds exactly on a run of
    its class. *)
Lemma starGreedy_end (c : JS.charset) (s : string) :
  ∀ pos cs start,
    is_Some (JS.starGreedy c pos s cs
               (fun pos' s' cs' =>
                  match s' with
                  | EmptyString =>
                      Some {| JS.m_start := start; JS.m_end := pos'; JS.m_captures := cs' |}
                  | String _ _ => None
                  end)) ↔
    sall (JS.inClass c) s = true.
Proof.
  induction s as [|a s IH]; intros pos cs start; cbn [JS.starGreedy sall].
  - split; [done | by eexists].
  - destruct (JS.inClass c a); cbn [andb].
    + rewrite <- (IH (S pos) cs start).
      destruct (JS.starGreedy c (S pos) s cs _); [done|].
      split; by intros [? ?].
    + split; [by intros [? ?] | done].
Qed.

(** The pattern of the parts made of dots. *)
Lemma allDots_spec (part : string) :
  is_Some (JS.exec allDots part) ↔ part ≠ "" ∧ dotsOnly part = true.
Proof.
  unfold allDots. rewrite exec_anchored. unfold JS.matchAt.
  cbn [JS.rmatch Nat.eqb]. destruct part as [|a s].
  - split; [by intros [? ?] | by intros [? _]].
  - cbn [JS.inClass dotsOnly sall]. destruct (Ascii.eqb a "."); cbn [andb].
    + rewrite starGreedy_end. cbn [JS.inClass]. unfold dotsOnly. split; [done | by intros [_ ?]].
    + split; [by intros [? ?] | by intros [_ ?]].
Qed.

(** The rule of [OTHER_FILES.txt] returns, and accepts the contents that
    list files. *)
Lemma configOK_OTHER_FILES_spec (contents : string) :
  ∃ b, configOK_OTHER_FILES contents = Normal b ∧ (b = true ↔ listedFiles contents).
Proof.
  eexists. split; [reflexivity|].
  unfold listedFiles. rewrite andb_true_iff, forallb_forall. split.
  - intros [Hlen Hlines]. split.
    + intros ->. by cbn in Hlen.
    + intros line Hline Hne part Hpart.
      specialize (Hlines line (proj1 (list_elem_of_In _ _) Hline)).
      apply orb_true_iff in Hlines as [->%String.eqb_eq|Hparts]; [done|].
      rewrite forallb_forall in Hparts.
      specialize (Hparts part (proj1 (list_elem_of_In _ _) Hpart)).
      apply andb_true_iff in Hparts as [Hplen Hdots].
      assert (Hpne : part ≠ "") by (intros ->; by cbn in Hplen).
      split; [done|]. apply negb_true_iff, bool_decide_eq_false in Hdots.
      rewrite allDots_spec in Hdots.
      destruct (dotsOnly part); [|done]. by destruct Hdots.
  - intros [Hne Hlines]. split.
    + destruct contents; [done|]. unfold JS.length. cbn [String.length].
      apply Z.ltb_lt. lia.
    + intros line Hline. apply list_elem_of_In in Hline.
      destruct (String.eqb_spec line "") as [->|Hlne]; [done|]. cbn [orb].
      apply forallb_forall. intros part Hpart. apply list_elem_of_In in Hpart.
      destruct (Hlines line Hline Hlne part Hpart) as [Hpne Hdots].
      apply andb_true_iff. split.
      * destruct part; [done|]. unfold JS.length. cbn [String.length].
        apply Z.ltb_lt. lia.
      * apply negb_true_iff, bool_decide_eq_false. rewrite allDots_spec.
        intros [_ Hd]. congruence.
Qed.

(** X18. The list of other files of a package, in any of its directories:
    it is [package-meta-ok] exactly when its content is not empty and has,
    on each line that is not empty, no part between slashes that is empty
    or made of dots; it is [package-meta] otherwise, and when it has no
    content; and the classifier throws what the accessor throws only. *)
Theorem categorizeFile_other_files (H : Host) (pkg rest : string) :
  packageFile pkg rest = true →
  let path := "types/" +:+ pkg +:+ "/" +:+ rest in
  basename path = "OTHER_FILES.txt" →
  ∃ accepted : string → bool,
    (∀ text, accepted text = true ↔ listedFiles text) ∧
    ∀ (contents : M (option string)) (log : list FetchCall),
      categorizeFile H path contents log =
      match contents log with
      | (Throw e, log1) => (Throw e, log1)
      | (Normal None, log1) =>
          (Normal {| path := path; kind := package_meta; package := Some pkg |}, log1)
      | (Normal (Some text), log1) =>
          (Normal {| path := path;
                     kind := if accepted text then package_meta_ok else package_meta;
                     package := Some pkg |}, log1)
      end.
Proof.
  intros Hfile path Hbase. subst path.
  exists (fun text => match configOK_OTHER_FILES text with
                      | Normal b => b
                      | Throw _ => false
                      end).
  split.
  - intros text. destruct (configOK_OTHER_FILES_spec text) as (b & -> & Hb). done.
  - intros contents log.
    rewrite categorizeFile_of_package by done.
    rewrite (kindOfSuffix_basename pkg rest "OTHER_FILES.txt" "t" Hfile Hbase) by done.
    unfold bind at 1. rewrite configOK_run, Hbase. cbn.
    by destruct (contents log) as [[[text|]|e] log1].
Qed.

Lemma categorizeFile_other_files_witness :
  categorizeFile Example.host "types/foo/OTHER_FILES.txt" (ret (Some "a/../b")) [] =
  (Normal {| path := "types/foo/OTHER_FILES.txt"; kind := package_meta;
             package := Some "foo" |}, []).
Proof.
  destruct (categorizeFile_other_files Example.host "foo" "OTHER_FILES.txt" eq_refl eq_refl)
    as (accepted & Hacc & Hrun).
  rewrite Hrun. cbn [ret].
  destruct (accepted "a/../b") eqn:E; [exfalso|reflexivity].
  apply Hacc in E as [_ Hlines].
  assert (Hline : "a/../b" ∈ JS.split "010" "a/../b") by (vm_compute; apply list_elem_of_here).
  assert (Hpart : ".." ∈ JS.split "/" "a/../b")
    by (vm_compute; apply list_elem_of_further, list_elem_of_here).
  by destruct (Hlines "a/../b" Hline ltac:(done) ".." Hpart) as [_ Hdots].
Defined.

(** ** What the classifier asks for and throws *)

(** The request that the classifier makes for a file, by how it classifies
    the file. *)
Lemma categorizeFile_log (H : Host) (fetchFile : FetchFile) (path0 p : string)
    (maxBytes : option Z) (log log' : list FetchCall) (f : FileInfo) :
  categorizeFile H path0 (callFetch fetchFile p maxBytes) log = (Normal f, log') →
  log' = (log ++ if readsContent H f then [(p, maxBytes)] else [])%list.
Proof.
  unfold categorizeFile, readsContent.
  destruct (JS.exec packageRoot path0) as [m|].
  - destruct (String.eqb _ "d.ts"); [intros [= <- <-]; cbn; by rewrite app_nil_r|].
    destruct (String.eqb _ "ts" || String.eqb _ "tsx");
      [intros [= <- <-]; cbn; by rewrite app_nil_r|].
    destruct (String.eqb _ "md"); [intros [= <- <-]; cbn; by rewrite app_nil_r|].
    unfold bind at 1. rewrite configOK_run.
    destruct (registered H (basename path0)) eqn:Hreg.
    + unfold callFetch.
      destruct (fetchFile p maxBytes) as [text|].
      * destruct (if String.eqb (basename path0) "tslint.json"
                  then configOK_tslint H text else configOK_OTHER_FILES text)
          as [[]|e]; [| |done]; intros [= <- <-]; cbn; by rewrite Hreg.
      * intros [= <- <-]. cbn. by rewrite Hreg.
    + intros [= <- <-]. cbn. by rewrite Hreg, app_nil_r.
  - intros [= <- <-]. cbn. by rewrite app_nil_r.
Qed.

(** X19. With a content accessor that returns, the classifier asks for the
    content of a file at most once, and only of a file whose base name has
    a rule on [configOK]; it throws only on a lint configuration that
    [JSON.parse] rejects, and throws what [JSON.parse] throws.  The names
    that [configOK] has as a function object are left aside. *)
Theorem categorizeFile_requests (H : Host) (fetchFile : FetchFile) (path0 p : string)
    (maxBytes : option Z) (log log' : list FetchCall) (c : Completion FileInfo) :
  basename path0 ∉ functionProperties →
  categorizeFile H path0 (callFetch fetchFile p maxBytes) log = (c, log') →
  (log' = log ∨
   log' = (log ++ [(p, maxBytes)])%list ∧ registered H (basename path0) = true) ∧
  (∀ e, c = Throw e →
        basename path0 = "tslint.json" ∧
        ∃ text, fetchFile p maxBytes = Some text ∧ JSON_parse H text = Throw e).
Proof.
  intros _. unfold categorizeFile.
  destruct (JS.exec packageRoot path0) as [m|].
  - destruct (String.eqb _ "d.ts"); [intros [= <- <-]; split; [by left | done]|].
    destruct (String.eqb _ "ts" || String.eqb _ "tsx");
      [intros [= <- <-]; split; [by left | done]|].
    destruct (String.eqb _ "md"); [intros [= <- <-]; split; [by left | done]|].
    unfold bind at 1. rewrite configOK_run.
    destruct (registered H (basename path0)) eqn:Hreg.
    + unfold callFetch.
      destruct (fetchFile p maxBytes) as [text|] eqn:Hfetch.
      * destruct (String.eqb_spec (basename path0) "tslint.json") as [Hbase|Hbase].
        -- unfold configOK_tslint.
           destruct (JSON_parse H text) as [v|e] eqn:Hparse;
             intros [= <- <-]; (split; [by right|]); [done|].
           intros e' [= <-]. split; [done|]. by exists text.
        -- destruct (configOK_OTHER_FILES_spec text) as (b & -> & _).
           intros [= <- <-]. split; [by right | done].
      * intros [= <- <-]. split; [by right | done].
    + intros [= <- <-]. split; [by left | done].
  - intros [= <- <-]. split; [by left | done].
Qed.

Lemma categorizeFile_requests_witness :
  basename "types/foo/tslint.json" = "tslint.json" ∧
  ∃ text, Example.fetchFile "h2:types/foo/tslint.json" None = Some text ∧
          JSON_parse Example.host text = Throw {| message := "Unexpected end of JSON input" |}.
Proof.
  assert (Hrun : categorizeFile Example.host "types/foo/tslint.json"
                   (callFetch Example.fetchFile "h2:types/foo/tslint.json" None) [] =
            (Throw {| message := "Unexpected end of JSON input" |},
             [("h2:types/foo/tslint.json", None)]))
    by (vm_compute; reflexivity).
  assert (Hname : basename "types/foo/tslint.json" ∉ functionProperties)
    by (apply (bool_decide_unpack _); vm_compute; exact I).
  exact (proj2 (categorizeFile_requests Example.host Example.fetchFile
                  "types/foo/tslint.json" "h2:types/foo/tslint.json" None [] _ _
                  Hname Hrun) _ eq_refl).
Defined.

(** ** The head commit *)

Lemma filter_head_find {A} (P : A → bool) (l : list A) :
  head (List.filter P l) = List.find P l.
Proof.
  induction l as [|a l IH]; [done|]. cbn. by destruct (P a).
Qed.

Lemma getHeadCommit_Some (pr : PullRequest) (c : Commit) :
  getHeadCommit pr = Some c ↔
  ∃ pre node post,
    commits_nodes pr = Some (pre ++ Some node :: post)%list ∧
    commit node = c ∧ oid c = headRefOid pr ∧
    ∀ n, Some n ∈ pre → oid (commit n) ≠ headRefOid pr.
Proof.
  unfold getHeadCommit.
  set (P := fun c : option CommitNode =>
              match c with
              | Some c => String.eqb (oid (commit c)) (headRefOid pr)
              | None => false
              end).
  destruct (commits_nodes pr) as [nodes|]; [|split; [done | by intros (? & ? & ? & ? & _)]].
  assert (Hhead : match List.filter P nodes with
                  | Some c :: _ => Some (commit c)
                  | _ => None
                  end = (List.find P nodes ≫= id) ≫= (fun n => Some (commit n))).
  { rewrite <- filter_head_find. by destruct (List.filter P nodes) as [|[n|] l]. }
  rewrite Hhead. split.
  - destruct (List.find P nodes) as [[node|]|] eqn:Efind; [|done|done].
    intros [= <-]. apply find_Some_split in Efind as (pre & post & -> & Hnode & Hpre).
    exists pre, node, post. split_and!; [done | done | by apply String.eqb_eq |].
    intros n Hn Heq. specialize (Hpre _ Hn). cbn in Hpre. by rewrite Heq, String.eqb_refl in Hpre.
  - intros (pre & node & post & [= ->] & <- & Hoid & Hpre).
    assert (Hfind : List.find P (pre ++ Some node :: post) = Some (Some node)).
    { apply find_Some_split. exists pre, post. split_and!; [done | by apply String.eqb_eq |].
      intros [n|] Hn; [|done]. cbn. apply String.eqb_neq. by apply Hpre. }
    by rewrite Hfind.
Qed.

(** X20. The head commit is the commit of the first node whose commit has
    the object id of the head reference; there is none when no node has
    it. *)
Theorem getHeadCommit_first (pr : PullRequest) (c : Commit) :
  getHeadCommit pr = Some c ↔
  ∃ pre node post,
    commits_nodes pr = Some (pre ++ Some node :: post)%list ∧
    commit node = c ∧ oid c = headRefOid pr ∧
    ∀ n, Some n ∈ pre → oid (commit n) ≠ headRefOid pr.
Proof. apply getHeadCommit_Some. Qed.

(** ** The [info] result *)

(** An [info] result comes from an open pull request that is not a draft,
    and is assembled from its classified files and resolved owners. *)
Lemma deriveStateForPR_Info_checked (H : Host) (info : PRQueryResult)
    (fetchFile : FetchFile) (getDownloads : option (list string → list (string * Z)))
    (getNow : Z) (log log' : list FetchCall) (i : PrInfo) :
  deriveStateForPR H info fetchFile getDownloads getNow log = (Normal (Info i), log') →
  ∃ prInfo author headCommit files log1 ownerInfo,
    repository info ≫= pullRequest = Some prInfo ∧
    pr_author prInfo = Some author ∧
    getHeadCommit prInfo = Some headCommit ∧
    state prInfo = OPEN ∧ isDraft prInfo = false ∧
    categorizeFiles H prInfo headCommit fetchFile log = (Normal files, log1) ∧
    getPackagesTouched files ≠ [] ∧
    getOwnersOfPackages H (getPackagesTouched files) fetchFile log1 =
      (Normal ownerInfo, log') ∧
    oi_error ownerInfo = None ∧
    i = assembleInfo H prInfo author headCommit getDownloads getNow files
          (getPackagesTouched files) (oi_anyPackageIsNew ownerInfo)
          (oi_allOwners ownerInfo).
Proof.
  intros Hrun.
  destruct (repository info ≫= pullRequest) as [prInfo|] eqn:Hpr;
    [|unfold deriveStateForPR in Hrun; by rewrite Hpr in Hrun].
  destruct (pr_author prInfo) as [author|] eqn:Hauthor;
    [|unfold deriveStateForPR in Hrun; by rewrite Hpr, Hauthor in Hrun].
  destruct (getHeadCommit prInfo) as [headCommit|] eqn:Hhead;
    [|unfold deriveStateForPR in Hrun; by rewrite Hpr, Hauthor, Hhead in Hrun].
  destruct (decide (state prInfo = OPEN)) as [Hstate|Hstate];
    [|unfold deriveStateForPR in Hrun; rewrite Hpr, Hauthor, Hhead in Hrun;
      by rewrite bool_decide_eq_false_2 in Hrun].
  destruct (isDraft prInfo) eqn:Hdraft;
    [unfold deriveStateForPR in Hrun; rewrite Hpr, Hauthor, Hhead, Hdraft in Hrun;
     by rewrite bool_decide_eq_true_2 in Hrun|].
  rewrite (deriveStateForPR_active H info fetchFile getDownloads getNow
             prInfo author headCommit log Hpr Hauthor Hhead Hstate Hdraft) in Hrun.
  destruct (categorizeFiles H prInfo headCommit fetchFile log)
    as [[files|e] log1] eqn:Hfiles; [|done].
  destruct (getPackagesTouched files) as [|p ps] eqn:Hpackages; [done|].
  cbn [List.length Nat.eqb] in Hrun.
  destruct (getOwnersOfPackages H (p :: ps) fetchFile log1)
    as [[ownerInfo|e] log2] eqn:Howners; [|done].
  destruct (oi_error ownerInfo) eqn:Herr; [done|].
  injection Hrun as <- <-.
  exists prInfo, author, headCommit, files, log1, ownerInfo.
  rewrite Hpackages. by split_and!.
Qed.

(** X21. An [info] result is given only for a pull request that is open
    and not a draft, that has an author, and among whose commits is the
    head commit; it carries their number, login and object ids. *)
Theorem deriveStateForPR_info_checked (H : Host) (info : PRQueryResult)
    (fetchFile : FetchFile) (getDownloads : option (list string → list (string * Z)))
    (getNow : Z) (log log' : list FetchCall) (i : PrInfo) :
  deriveStateForPR H info fetchFile getDownloads getNow log = (Normal (Info i), log') →
  ∃ prInfo a node,
    repository info ≫= pullRequest = Some prInfo ∧
    state prInfo = OPEN ∧ isDraft prInfo = false ∧
    pr_author prInfo = Some a ∧ author i = login a ∧
    pr_number i = number prInfo ∧
    Some node ∈ default [] (commits_nodes prInfo) ∧
    headCommitOid i = headRefOid prInfo ∧
    headCommitOid i = oid (commit node) ∧
    headCommitAbbrOid i = abbreviatedOid (commit node) ∧
    lastPushDate i = Date_new H (pushedDate (commit node)).
Proof.
  intros (prInfo & a & c & files & log1 & ownerInfo & Hpr & Ha & Hc & Hopen & Hdraft &
          _ & _ & _ & _ & ->)%deriveStateForPR_Info_checked.
  apply getHeadCommit_Some in Hc as (pre & node & post & Hnodes & <- & Hoid & _).
  exists prInfo, a, node. rewrite Hnodes. cbn. split_and!; try done.
  rewrite elem_of_app. right. apply list_elem_of_here.
Qed.

Lemma deriveStateForPR_info_checked_witness :
  Example.run Example.ordinary =
    (Normal (Info Example.ordinaryInfo), [("master:types/foo/index.d.ts", Some 10240)]) ∧
  state Example.ordinary = OPEN ∧ isDraft Example.ordinary = false ∧
  headCommitOid Example.ordinaryInfo = headRefOid Example.ordinary.
Proof.
  assert (Hrun : Example.run Example.ordinary =
            (Normal (Info Example.ordinaryInfo),
             [("master:types/foo/index.d.ts", Some 10240)]))
    by (vm_compute; reflexivity).
  split; [exact Hrun|].
  destruct (deriveStateForPR_info_checked Example.host (Example.snapshot Example.ordinary)
              Example.fetchFile None 100000 [] _ Example.ordinaryInfo Hrun)
    as (prInfo & a & node & [= <-] & Hopen & Hdraft & _ & _ & _ & _ & Hoid & _).
  done.
Defined.

(** The classification of the changed files, when it completes: the files
    classified are the changed files in their order, each with the shape
    that the classifier gives, and the requests made are those for the
    files whose content was read. *)
Lemma categorizeFiles_inv (H : Host) (fetchFile : FetchFile) (rev : string)
    (nodes : list FileNode) :
  ∀ log files log',
    Promise_all
      (map (fun f => categorizeFile H (fn_path f)
                       (callFetch fetchFile (rev +:+ ":" +:+ fn_path f) None)) nodes) log
    = (Normal files, log') →
    map path files = map fn_path nodes ∧
    (∀ f, f ∈ files →
       (package f = None ↔ kind f = infrastructure) ∧
       ∀ pkg, package f = Some pkg →
         sall segmentChar pkg = true ∧
         ∃ rest, endsInName rest = true ∧ path f = "types/" +:+ pkg +:+ "/" +:+ rest) ∧
    log' = (log ++ map (fun f => (rev +:+ ":" +:+ path f, None))
                     (List.filter (readsContent H) files))%list.
Proof.
  induction nodes as [|node nodes IH]; intros log files log'.
  - intros [= <- <-]. split_and!; [done | by intros f ?%elem_of_nil | by rewrite app_nil_r].
  - cbn [map Promise_all].
    destruct (categorizeFile H (fn_path node) _ log) as [c log1] eqn:E1.
    destruct (Promise_all _ log1) as [cs log2] eqn:E2.
    destruct c as [f|e]; [|done]. destruct cs as [fs|e]; [|done].
    intros [= <- <-]. apply IH in E2 as (Hpaths & Hshapes & ->).
    pose proof (categorizeFile_log _ _ _ _ _ _ _ _ E1) as ->.
    apply categorizeFile_shape in E1 as (Hpath & Hnone & Hsome).
    split_and!.
    + cbn. by rewrite Hpath, Hpaths.
    + intros f' [->|Hf']%elem_of_cons; [|by apply Hshapes].
      split; [done|]. rewrite Hpath. apply Hsome.
    + cbn [List.filter]. rewrite <- app_assoc. f_equal.
      destruct (readsContent H f); [|done]. cbn. by rewrite Hpath.
Qed.

Lemma elem_of_noNulls {T} (arr : option (list (option T))) (x : T) :
  x ∈ noNulls arr ↔ ∃ l, arr = Some l ∧ Some x ∈ l.
Proof.
  unfold noNulls. destruct arr as [l|].
  - rewrite list_elem_of_omap. split.
    + intros ([y|] & Hy & [= ->]). by exists l.
    + intros (l' & [= <-] & Hx). by exists (Some x).
  - split; [by intros ?%elem_of_nil | by intros (? & ? & _)].
Qed.

(** X22. In an [info] result the files are the changed files of the pull
    request, in their order; the packages are distinct, there is at least
    one, they are the packages of the files, and each is the first
    directory under [types/] of a changed file whose path goes on after it
    and does not end with a slash. *)
Theorem deriveStateForPR_info_files (H : Host) (info : PRQueryResult)
    (fetchFile : FetchFile) (getDownloads : option (list string → list (string * Z)))
    (getNow : Z) (log log' : list FetchCall) (i : PrInfo) :
  deriveStateForPR H info fetchFile getDownloads getNow log = (Normal (Info i), log') →
  ∃ prInfo,
    repository info ≫= pullRequest = Some prInfo ∧
    map path (files i) = map fn_path (noNulls (files_nodes prInfo)) ∧
    packages i ≠ [] ∧ NoDup (packages i) ∧
    (∀ p, p ∈ packages i ↔ ∃ f, f ∈ files i ∧ package f = Some p) ∧
    (∀ p, p ∈ packages i →
       sall segmentChar p = true ∧
       ∃ nodes node rest,
         files_nodes prInfo = Some nodes ∧ Some node ∈ nodes ∧
         endsInName rest = true ∧ fn_path node = "types/" +:+ p +:+ "/" +:+ rest).
Proof.
  intros (prInfo & a & c & fs & log1 & ownerInfo & Hpr & _ & _ & _ & _ &
          Hfiles & Hne & _ & _ & ->)%deriveStateForPR_Info_checked.
  unfold categorizeFiles in Hfiles.
  apply categorizeFiles_inv in Hfiles as (Hpaths & Hshapes & _).
  destruct (getPackagesTouched_spec fs) as [Hnd Hpk].
  exists prInfo. cbn. split_and!; try done.
  intros p (f & Hf & Hp)%Hpk.
  destruct (Hshapes f Hf) as [_ Hsome].
  destruct (Hsome p Hp) as (Hseg & rest & Hrest & Hpath).
  split; [done|].
  assert (Hin : path f ∈ map fn_path (noNulls (files_nodes prInfo))).
  { rewrite <- Hpaths. apply list_elem_of_fmap. by exists f. }
  apply list_elem_of_fmap in Hin as (node & Hnode & (nodes & Hnodes & Hin)%elem_of_noNulls).
  exists nodes, node, rest. split_and!; try done. by rewrite <- Hnode.
Qed.

Lemma deriveStateForPR_info_files_witness :
  Example.run Example.ordinary =
    (Normal (Info Example.ordinaryInfo), [("master:types/foo/index.d.ts", Some 10240)]) ∧
  map path (files Example.ordinaryInfo) = ["types/foo/index.d.ts"; "types/foo/foo-tests.ts"] ∧
  NoDup (packages Example.ordinaryInfo).
Proof.
  assert (Hrun : Example.run Example.ordinary =
            (Normal (Info Example.ordinaryInfo),
             [("master:types/foo/index.d.ts", Some 10240)]))
    by (vm_compute; reflexivity).
  split; [exact Hrun|].
  destruct (deriveStateForPR_info_files Example.host (Example.snapshot Example.ordinary)
              Example.fetchFile None 100000 [] _ Example.ordinaryInfo Hrun)
    as (prInfo & [= <-] & Hpaths & _ & Hnd & _).
  split; [exact Hpaths | exact Hnd].
Defined.

(** X23. The requests made for an [info] result are, in this order: for
    the changed files in their order, the content at the head commit of
    those classified [package-meta] or [package-meta-ok] whose base name
    has a rule on [configOK]; then the header of each package in the order
    of [packages].  The names that [configOK] has as a function object are
    left aside. *)
Theorem deriveStateForPR_info_requests (H : Host) (info : PRQueryResult)
    (fetchFile : FetchFile) (getDownloads : option (list string → list (string * Z)))
    (getNow : Z) (log log' : list FetchCall) (i : PrInfo) :
  deriveStateForPR H info fetchFile getDownloads getNow log = (Normal (Info i), log') →
  (∀ f, f ∈ files i → basename (path f) ∉ functionProperties) →
  log' = (log
          ++ map (fun f => (headCommitOid i +:+ ":" +:+ path f, None))
               (List.filter (readsContent H) (files i))
          ++ map ownersCall (packages i))%list.
Proof.
  intros (prInfo & a & c & fs & log1 & ownerInfo & _ & _ & _ & _ & _ &
          Hfiles & _ & Howners & Herr & ->)%deriveStateForPR_Info_checked _.
  unfold categorizeFiles in Hfiles.
  apply categorizeFiles_inv in Hfiles as (_ & _ & ->).
  destruct (getOwnersOfPackages_loop_inv H fetchFile (getPackagesTouched fs) [] false
              _ ownerInfo log' Howners NoDup_nil_2) as (_ & _ & n & -> & Hn).
  cbn. rewrite (Hn Herr), firstn_all. by rewrite <- app_assoc.
Qed.

Lemma deriveStateForPR_info_requests_witness :
  Example.run Samples.configured =
    (Normal (Info Samples.configuredInfo),
     [("h2:types/foo/OTHER_FILES.txt", None); ("master:types/foo/index.d.ts", Some 10240)]) ∧
  [("h2:types/foo/OTHER_FILES.txt", None); ("master:types/foo/index.d.ts", Some 10240)] =
  ([] ++ map (fun f => (headCommitOid Samples.configuredInfo +:+ ":" +:+ path f, None))
           (List.filter (readsContent Example.host) (files Samples.configuredInfo))
      ++ map ownersCall (packages Samples.configuredInfo))%list.
Proof.
  assert (Hrun : Example.run Samples.configured =
            (Normal (Info Samples.configuredInfo),
             [("h2:types/foo/OTHER_FILES.txt", None);
              ("master:types/foo/index.d.ts", Some 10240)]))
    by (vm_compute; reflexivity).
  split; [exact Hrun|].
  apply (deriveStateForPR_info_requests Example.host (Example.snapshot Samples.configured)
           Example.fetchFile None 100000 [] _ Samples.configuredInfo Hrun).
  intros f Hf. vm_compute in Hf.
  repeat (apply elem_of_cons in Hf as [->|Hf];
          [apply (bool_decide_unpack _); vm_compute; exact I|]).
  by apply elem_of_nil in Hf.
Defined.

(** X24. The flags of an [info] result that are read off the pull request:
    [hasDismissedReview] holds exactly when a review is dismissed,
    [mergeIsRequested] exactly when a comment by the author of the pull
    request starts with "ready to merge" once trimmed and put in lower
    case, and [authorIsOwner] exactly when one of the owners is the author,
    letter case apart. *)
Theorem deriveStateForPR_info_flags (H : Host) (info : PRQueryResult)
    (fetchFile : FetchFile) (getDownloads : option (list string → list (string * Z)))
    (getNow : Z) (log log' : list FetchCall) (i : PrInfo) :
  deriveStateForPR H info fetchFile getDownloads getNow log = (Normal (Info i), log') →
  ∃ prInfo,
    repository info ≫= pullRequest = Some prInfo ∧
    (hasDismissedReview i = true ↔
     ∃ r, r ∈ noNulls (reviews_nodes prInfo) ∧ r_state r = DISMISSED) ∧
    (mergeIsRequested i = true ↔
     ∃ comment a, comment ∈ noNulls (comments_nodes prInfo) ∧
                  c_author comment = Some a ∧ login a = author i ∧
                  JS.startsWith (toLowerCase H (trim H (c_body comment)))
                    "ready to merge" = true) ∧
    (authorIsOwner i = true ↔
     ∃ o, o ∈ owners i ∧ toLowerCase H o = toLowerCase H (author i)).
Proof.
  intros (prInfo & a & c & fs & log1 & ownerInfo & Hpr & Ha & _ & _ & _ &
          _ & _ & _ & _ & ->)%deriveStateForPR_Info_checked.
  exists prInfo. cbn. split_and!; [done | | |].
  - rewrite partition_get_filter.
    destruct (List.filter _ (noNulls (reviews_nodes prInfo))) as [|r l] eqn:E.
    + split; [done|]. intros (r & Hr & Hstate).
      assert (Hin : In r (List.filter (fun el => bool_decide (r_state el = DISMISSED))
                            (noNulls (reviews_nodes prInfo)))).
      { apply filter_In. split; [by apply list_elem_of_In | by apply bool_decide_eq_true]. }
      by rewrite E in Hin.
    + split; [intros _|done].
      assert (Hin : In r (List.filter (fun el => bool_decide (r_state el = DISMISSED))
                            (noNulls (reviews_nodes prInfo)))) by (rewrite E; by left).
      apply filter_In in Hin as [Hin Hstate]. exists r.
      split; [by apply list_elem_of_In | by apply bool_decide_eq_true in Hstate].
  - unfold authorSaysReadyToMerge. rewrite Ha. cbn [fmap option_fmap option_map].
    destruct (comments_nodes prInfo) as [nodes|]; cbn [noNulls].
    + rewrite existsb_exists. split.
      * intros ([comment|] & Hin & Hc); [|done].
        apply andb_true_iff in Hc as [Hlogin Hbody].
        apply bool_decide_eq_true in Hlogin.
        destruct (c_author comment) as [a'|] eqn:Ea'; [|done].
        injection Hlogin as Hlogin. exists comment, a'. split_and!; try done.
        apply list_elem_of_omap. exists (Some comment).
        split; [by apply list_elem_of_In | done].
      * intros (comment & a' & ([y|] & Hy & [= ->])%list_elem_of_omap & Ea' & Hlogin & Hbody).
        exists (Some comment). split; [by apply list_elem_of_In|].
        rewrite Ea'. cbn. rewrite Hlogin, Hbody.
        by rewrite bool_decide_eq_true_2.
    + split; [done|]. by intros (? & ? & ?%elem_of_nil & _).
  - unfold isOwner. rewrite existsb_exists. split.
    + intros (o & Ho & Heq%String.eqb_eq). exists o. split; [by apply list_elem_of_In | done].
    + intros (o & Ho & Heq). exists o. split; [by apply list_elem_of_In | by apply String.eqb_eq].
Qed.

Lemma deriveStateForPR_info_flags_witness :
  deriveStateForPR Example.host (Example.snapshot Samples.flagged) Example.fetchFile
    None 100000 [] =
    (Normal (Info Samples.flaggedInfo), [("master:types/foo/index.d.ts", Some 10240)]) ∧
  hasDismissedReview Samples.flaggedInfo = true ∧
  mergeIsRequested Samples.flaggedInfo = true ∧
  authorIsOwner Samples.flaggedInfo = true.
Proof.
  assert (Hrun : deriveStateForPR Example.host (Example.snapshot Samples.flagged)
                   Example.fetchFile None 100000 [] =
            (Normal (Info Samples.flaggedInfo),
             [("master:types/foo/index.d.ts", Some 10240)]))
    by (vm_compute; reflexivity).
  split; [exact Hrun|].
  destruct (deriveStateForPR_info_flags Example.host (Example.snapshot Samples.flagged)
              Example.fetchFile None 100000 [] _ Samples.flaggedInfo Hrun)
    as (prInfo & [= <-] & Hdismissed & Hmerge & Howner).
  split_and!.
  - apply Hdismissed. eexists. split; [vm_compute; apply list_elem_of_here | done].
  - apply Hmerge. eexists _, {| login := "Bob" |}.
    split_and!; [vm_compute; apply list_elem_of_here | done | done | done].
  - apply Howner. exists "bob". split; [|done].
    vm_compute. apply list_elem_of_further, list_elem_of_here.
Defined.

(** ** What the derivation throws *)

Lemma categorizeFile_Throw (H : Host) (fetchFile : FetchFile) (path0 p : string)
    (maxBytes : option Z) (log log' : list FetchCall) (e : exn) :
  categorizeFile H path0 (callFetch fetchFile p maxBytes) log = (Throw e, log') →
  basename path0 = "tslint.json" ∧
  ∃ text, fetchFile p maxBytes = Some text ∧ JSON_parse H text = Throw e.
Proof.
  unfold categorizeFile.
  destruct (JS.exec packageRoot path0) as [m|]; [|done].
  destruct (String.eqb _ "d.ts"); [done|].
  destruct (String.eqb _ "ts" || String.eqb _ "tsx"); [done|].
  destruct (String.eqb _ "md"); [done|].
  unfold bind at 1. rewrite configOK_run.
  destruct (registered H (basename path0)); [|done].
  unfold callFetch. destruct (fetchFile p maxBytes) as [text|]; [|done].
  destruct (String.eqb_spec (basename path0) "tslint.json") as [Hbase|Hbase].
  - unfold configOK_tslint. destruct (JSON_parse H text) as [v|e'] eqn:Hparse; [done|].
    intros [= <- <-]. split; [done|]. by exists text.
  - by destruct (configOK_OTHER_FILES_spec text) as (b & -> & _).
Qed.

Lemma Promise_all_Throw {A} (ms : list (M A)) :
  ∀ log log' e,
    Promise_all ms log = (Throw e, log') →
    ∃ m log0 log1, m ∈ ms ∧ m log0 = (Throw e, log1).
Proof.
  induction ms as [|m ms IH]; intros log log' e; [done|].
  cbn [Promise_all].
  destruct (m log) as [c log1] eqn:E1.
  destruct (Promise_all ms log1) as [cs log2] eqn:E2.
  destruct c as [a|e1].
  - destruct cs as [l|e2]; [done|]. intros [= <- <-].
    apply IH in E2 as (m' & log0 & log3 & Hm' & Hrun).
    exists m', log0, log3. split; [by apply list_elem_of_further | done].
  - intros [= <- <-]. exists m, log, log1. split; [apply list_elem_of_here | done].
Qed.

(** X25. Provided that the collaborators return (the content accessor,
    [getDownloads] or [getMonthlyDownloadCount], and the clock with its
    [toISOString], which the derivation awaits or calls without a catch and
    which are functions that return here), the derivation throws only when
    one of the changed files is a lint configuration whose content at the
    head commit [JSON.parse] rejects, and it throws what [JSON.parse]
    throws.  The names that [configOK] has as a function object are left
    aside. *)
Theorem deriveStateForPR_throws (H : Host) (info : PRQueryResult)
    (fetchFile : FetchFile) (getDownloads : option (list string → list (string * Z)))
    (getNow : Z) (log log' : list FetchCall) (e : exn) :
  deriveStateForPR H info fetchFile getDownloads getNow log = (Throw e, log') →
  (∀ prInfo node, repository info ≫= pullRequest = Some prInfo →
                  node ∈ noNulls (files_nodes prInfo) →
                  basename (fn_path node) ∉ functionProperties) →
  ∃ prInfo c node text,
    repository info ≫= pullRequest = Some prInfo ∧
    getHeadCommit prInfo = Some c ∧
    node ∈ noNulls (files_nodes prInfo) ∧
    basename (fn_path node) = "tslint.json" ∧
    fetchFile (oid c +:+ ":" +:+ fn_path node) None = Some text ∧
    JSON_parse H text = Throw e.
Proof.
  intros Hrun _.
  destruct (repository info ≫= pullRequest) as [prInfo|] eqn:Hpr;
    [|unfold deriveStateForPR in Hrun; by rewrite Hpr in Hrun].
  destruct (pr_author prInfo) as [author|] eqn:Hauthor;
    [|unfold deriveStateForPR in Hrun; by rewrite Hpr, Hauthor in Hrun].
  destruct (getHeadCommit prInfo) as [headCommit|] eqn:Hhead;
    [|unfold deriveStateForPR in Hrun; by rewrite Hpr, Hauthor, Hhead in Hrun].
  destruct (decide (state prInfo = OPEN)) as [Hstate|Hstate];
    [|unfold deriveStateForPR in Hrun; rewrite Hpr, Hauthor, Hhead in Hrun;
      by rewrite bool_decide_eq_false_2 in Hrun].
  destruct (isDraft prInfo) eqn:Hdraft;
    [unfold deriveStateForPR in Hrun; rewrite Hpr, Hauthor, Hhead, Hdraft in Hrun;
     by rewrite bool_decide_eq_true_2 in Hrun|].
  rewrite (deriveStateForPR_active H info fetchFile getDownloads getNow
             prInfo author headCommit log Hpr Hauthor Hhead Hstate Hdraft) in Hrun.
  destruct (categorizeFiles H prInfo headCommit fetchFile log)
    as [[files|e'] log1] eqn:Hfiles.
  - destruct (List.length (getPackagesTouched files) =? 0)%nat; [done|].
    destruct (getOwnersOfPackages_loop_total H fetchFile (getPackagesTouched files)
                [] false log1) as (ownerInfo & log2 & Howners).
    unfold getOwnersOfPackages in Hrun. by rewrite Howners in Hrun.
  - injection Hrun as <- <-. unfold categorizeFiles in Hfiles.
    apply Promise_all_Throw in Hfiles
      as (m & log0 & log2 & (node & -> & Hnode)%list_elem_of_fmap & Hthrow).
    apply categorizeFile_Throw in Hthrow as (Hbase & text & Hfetch & Hparse).
    by exists prInfo, headCommit, node, text.
Qed.

Lemma deriveStateForPR_throws_witness :
  Example.run Samples.lintCut =
    (Throw {| message := "Unexpected end of JSON input" |},
     [("h2:types/foo/tslint.json", None)]) ∧
  ∃ c node text,
    getHeadCommit Samples.lintCut = Some c ∧
    node ∈ noNulls (files_nodes Samples.lintCut) ∧
    basename (fn_path node) = "tslint.json" ∧
    Example.fetchFile (oid c +:+ ":" +:+ fn_path node) None = Some text ∧
    JSON_parse Example.host text = Throw {| message := "Unexpected end of JSON input" |}.
Proof.
  assert (Hrun : Example.run Samples.lintCut =
            (Throw {| message := "Unexpected end of JSON input" |},
             [("h2:types/foo/tslint.json", None)]))
    by (vm_compute; reflexivity).
  split; [exact Hrun|].
  destruct (deriveStateForPR_throws Example.host (Example.snapshot Samples.lintCut)
              Example.fetchFile None 100000 [] _ _ Hrun)
    as (prInfo & c & node & text & [= <-] & Hc & Hnode & Hbase & Hfetch & Hparse).
  - intros prInfo node [= <-] Hnode. vm_compute in Hnode.
    apply elem_of_cons in Hnode as [->|Hnode]; [|by apply elem_of_nil in Hnode].
    apply (bool_decide_unpack _). vm_compute. exact I.
  - by exists c, node, text.
Defined.

(** ** The project board *)

(** X26. The cards returned are those of the first column named
    "Recently Merged": the function returns exactly when the result of the
    query has no [errors], has a project, and the project has such a
    column; otherwise it throws. *)
Theorem getRecentlyUpdatedPRProjectBoardCards_first_column (H : Host)
    (results : ProjectQueryResult H) (cards : option (list (option Card))) :
  getRecentlyUpdatedPRProjectBoardCards H results = Normal cards ↔
  errors results = None ∧
  ∃ repo proj pre col post,
    pq_repository results = Some repo ∧ project repo = Some proj ∧
    columns_nodes proj = Some (pre ++ Some col :: post)%list ∧
    column_name col = "Recently Merged" ∧
    (∀ c, Some c ∈ pre → column_name c ≠ "Recently Merged") ∧
    cards = cards_nodes col.
Proof.
  unfold getRecentlyUpdatedPRProjectBoardCards.
  set (P := fun c : option ProjectColumn =>
              match c with
              | Some c => String.eqb (column_name c) "Recently Merged"
              | None => false
              end).
  split.
  - destruct (errors results); [done|].
    destruct (pq_repository results) as [repo|]; [|done]. cbn [mbind option_bind].
    destruct (project repo) as [proj|] eqn:Eproj; [|done].
    destruct (columns_nodes proj) as [nodes|] eqn:Enodes; [|done].
    destruct (List.find P nodes) as [[col|]|] eqn:Efind; [|done|done].
    intros [= <-]. split; [done|].
    apply find_Some_split in Efind as (pre & post & -> & Hcol & Hpre).
    exists repo, proj, pre, col, post. split_and!; try done.
    + by apply String.eqb_eq.
    + intros c Hc Hname. specialize (Hpre _ Hc). cbn in Hpre.
      by rewrite Hname in Hpre.
  - intros (-> & repo & proj & pre & col & post & -> & Hproj & Hcols & Hname & Hpre & ->).
    cbn [mbind option_bind]. rewrite Hproj, Hcols.
    assert (Hfind : List.find P (pre ++ Some col :: post) = Some (Some col)).
    { apply find_Some_split. exists pre, post. split_and!; [done | |].
      - cbn. by rewrite Hname.
      - intros [c|] Hc; [|done]. cbn. apply String.eqb_neq. by apply Hpre. }
    by rewrite Hfind.
Qed.

(** ** The checks of the derivation, and what follows them *)

(** The lint configuration of a package whose content [JSON.parse]
    rejects: the classifier throws what [JSON.parse] throws, after the
    request for the content. *)
Lemma categorizeFile_lint_Throw (H : Host) (fetchFile : FetchFile)
    (pkg rest p text : string) (e : exn) (log : list FetchCall) :
  packageFile pkg rest = true →
  basename ("types/" +:+ pkg +:+ "/" +:+ rest) = "tslint.json" →
  fetchFile p None = Some text →
  JSON_parse H text = Throw e →
  categorizeFile H ("types/" +:+ pkg +:+ "/" +:+ rest) (callFetch fetchFile p None) log =
  (Throw e, (log ++ [(p, None)])%list).
Proof.
  intros Hfile Hbase Hfetch Hparse.
  rewrite categorizeFile_of_package by done.
  rewrite (kindOfSuffix_basename pkg rest "tslint.json" "n" Hfile Hbase) by done.
  unfold bind at 1. rewrite configOK_run, Hbase. cbn.
  unfold callFetch. rewrite Hfetch. unfold configOK_tslint. by rewrite Hparse.
Qed.

(** [Promise.all] rejects as soon as one of the promises does. *)
Lemma Promise_all_member_Throw {A} (ms : list (M A)) (m : M A) :
  m ∈ ms →
  (∀ log, ∃ e log', m log = (Throw e, log')) →
  ∀ log, ∃ e log', Promise_all ms log = (Throw e, log').
Proof.
  intros Hm Hthrow. induction ms as [|m0 ms IH]; intros log.
  - by apply elem_of_nil in Hm.
  - cbn [Promise_all]. destruct (m0 log) as [c log1] eqn:E1.
    apply elem_of_cons in Hm as [<-|Hm].
    + destruct (Hthrow log) as (e & log' & Hrun). rewrite Hrun in E1.
      injection E1 as <- <-.
      destruct (Promise_all ms log') as [cs log2]. by eexists _, _.
    + destruct (IH Hm log1) as (e & log2 & ->).
      destruct c; by eexists _, _.
Qed.

(** C1 (the code departs from it). The first five checks are hard stops in
    the order of the claim, and nothing is requested before them: no pull
    request gives [fail]; a missing author gives [error]; a head commit
    that is not among the commits gives [error]; a state other than open
    gives [remove]; a draft gives [remove].  But a pull request that passes
    them does not always get one of the three outcomes that are left: when
    one of its changed files is the lint configuration of a package and
    [JSON.parse] rejects its content at the head commit, the derivation
    throws, and there is no outcome. *)
Theorem deriveStateForPR_checks_then_rejects (H : Host) (info : PRQueryResult)
    (fetchFile : FetchFile) (getDownloads : option (list string → list (string * Z)))
    (getNow : Z) (log : list FetchCall) :
  let out := deriveStateForPR H info fetchFile getDownloads getNow log in
  (repository info ≫= pullRequest = None →
     out = (Normal (BotFail "No PR with this number exists"), log)) ∧
  (∀ prInfo, repository info ≫= pullRequest = Some prInfo →
     (pr_author prInfo = None →
        out = (Normal (BotError (number prInfo) "PR author does not exist" None), log)) ∧
     (∀ author, pr_author prInfo = Some author →
        ((∀ nodes c, commits_nodes prInfo = Some nodes → Some c ∈ nodes →
                     oid (commit c) ≠ headRefOid prInfo) →
           out = (Normal (BotError (number prInfo) "No head commit found"
                            (Some (login author))), log)) ∧
        (∀ headCommit, getHeadCommit prInfo = Some headCommit →
           (state prInfo ≠ OPEN →
              out = (Normal (BotEnsureRemovedFromProject (number prInfo)
                               "PR is not active"), log)) ∧
           (state prInfo = OPEN → isDraft prInfo = true →
              out = (Normal (BotEnsureRemovedFromProject (number prInfo)
                               "PR is a draft"), log)) ∧
           (isDraft prInfo = true →
              ∃ message,
                out = (Normal (BotEnsureRemovedFromProject (number prInfo) message), log)) ∧
           (state prInfo = OPEN → isDraft prInfo = false →
              ∀ node pkg rest text e,
                node ∈ noNulls (files_nodes prInfo) →
                fn_path node = "types/" +:+ pkg +:+ "/" +:+ rest →
                packageFile pkg rest = true →
                basename (fn_path node) = "tslint.json" →
                fetchFile (oid headCommit +:+ ":" +:+ fn_path node) None = Some text →
                JSON_parse H text = Throw e →
                ∃ e' log', out = (Throw e', log'))))).
Proof.
  intros out. split.
  { intros Hpr. subst out. unfold deriveStateForPR. by rewrite Hpr. }
  intros prInfo Hpr. split.
  { intros Hauthor. subst out. unfold deriveStateForPR. by rewrite Hpr, Hauthor. }
  intros author Hauthor. split.
  { intros Hhead%getHeadCommit_None. subst out. unfold deriveStateForPR.
    by rewrite Hpr, Hauthor, Hhead. }
  intros headCommit Hhead.
  assert (Hclosed : state prInfo ≠ OPEN →
            out = (Normal (BotEnsureRemovedFromProject (number prInfo)
                             "PR is not active"), log)).
  { intros Hstate. subst out. unfold deriveStateForPR.
    rewrite Hpr, Hauthor, Hhead. by rewrite bool_decide_eq_false_2. }
  assert (Hdraft : state prInfo = OPEN → isDraft prInfo = true →
            out = (Normal (BotEnsureRemovedFromProject (number prInfo)
                             "PR is a draft"), log)).
  { intros Hstate Hd. subst out. unfold deriveStateForPR.
    rewrite Hpr, Hauthor, Hhead, Hd. by rewrite bool_decide_eq_true_2. }
  split_and!; [done | done | |].
  { intros Hd. destruct (decide (state prInfo = OPEN)); eauto. }
  intros Hstate Hd node pkg rest text e Hnode Hpath Hfile Hbase Hfetch Hparse.
  assert (Hout := deriveStateForPR_active H info fetchFile getDownloads getNow
                    prInfo author headCommit log Hpr Hauthor Hhead Hstate Hd).
  fold out in Hout.
  destruct (Promise_all_member_Throw
              (map (fun f => categorizeFile H (fn_path f)
                               (callFetch fetchFile (oid headCommit +:+ ":" +:+ fn_path f)
                                  None))
                   (noNulls (files_nodes prInfo)))
              (categorizeFile H (fn_path node)
                 (callFetch fetchFile (oid headCommit +:+ ":" +:+ fn_path node) None)))
    with (log := log) as (e' & log' & Hfiles).
  - apply list_elem_of_fmap. by exists node.
  - intros log0. exists e, (log0 ++ [(oid headCommit +:+ ":" +:+ fn_path node, None)])%list.
    rewrite Hpath in Hbase, Hfetch |- *.
    by apply (categorizeFile_lint_Throw H fetchFile pkg rest _ text e log0).
  - exists e', log'. rewrite Hout. unfold categorizeFiles. by rewrite Hfiles.
Qed.

Lemma deriveStateForPR_checks_then_rejects_witness :
  Example.run (Example.pr None OPEN true ["types/foo/index.d.ts"] [] []) =
    (Normal (BotError 42 "PR author does not exist" None), []) ∧
  Example.run (Example.pr Example.dana OPEN true ["types/foo/index.d.ts"] [] []) =
    (Normal (BotEnsureRemovedFromProject 42 "PR is a draft"), []) ∧
  ∃ e log, Example.run Samples.lintCut = (Throw e, log).
Proof.
  split_and!.
  - pose (p := Example.pr None OPEN true ["types/foo/index.d.ts"] [] []).
    apply (proj1 (proj2 (deriveStateForPR_checks_then_rejects Example.host
                           (Example.snapshot p) Example.fetchFile None 100000 [])
                    p eq_refl)).
    reflexivity.
  - pose (p := Example.pr Example.dana OPEN true ["types/foo/index.d.ts"] [] []).
    apply (proj1 (proj2 (proj2 (proj2 (proj2 (deriveStateForPR_checks_then_rejects
             Example.host (Example.snapshot p) Example.fetchFile None 100000 [])
             p eq_refl) {| login := "dana" |} eq_refl) Example.h2 eq_refl)));
      reflexivity.
  - apply (proj2 (proj2 (proj2 (proj2 (proj2 (proj2 (deriveStateForPR_checks_then_rejects
             Example.host (Example.snapshot Samples.lintCut) Example.fetchFile None
             100000 []) Samples.lintCut eq_refl) {| login := "dana" |} eq_refl)
             Example.h2 eq_refl))) eq_refl eq_refl
             {| fn_path := "types/foo/tslint.json" |} "foo" "tslint.json" "{"
             {| message := "Unexpected end of JSON input" |});
      try reflexivity.
    vm_compute. apply list_elem_of_here.
Defined.

(** Among packages of which one has a header that throws, there is a first
    one. *)
Lemma first_throw (H : Host) (fetchFile : FetchFile) (packages : list string) :
  (∃ q e, q ∈ packages ∧ ownersOf H fetchFile q = Throw e) →
  ∃ pre p post e,
    packages = (pre ++ p :: post)%list ∧
    (∀ q, q ∈ pre → ∀ e', ownersOf H fetchFile q ≠ Throw e') ∧
    ownersOf H fetchFile p = Throw e.
Proof.
  induction packages as [|p packages IH]; intros (q & e & Hq & Hthrow).
  - by apply elem_of_nil in Hq.
  - destruct (ownersOf H fetchFile p) as [o|e0] eqn:Ep.
    + apply elem_of_cons in Hq as [->|Hq]; [congruence|].
      destruct IH as (pre & p' & post & e' & -> & Hpre & Hp'); [by exists q, e|].
      exists (p :: pre), p', post, e'. split_and!; [done | | done].
      intros q' [->|Hq']%elem_of_cons e''; [congruence | by apply Hpre].
    + exists [], p, packages, e0. split_and!; [done | | done].
      by intros q' ?%elem_of_nil.
Qed.

(** X27. For a pull request that has passed the five checks and whose
    changed files are classified without a throw, the outcome is decided by
    the packages that the classified files have: [no_packages] when no file
    has a package; [error], with the message of the header parser after
    "error parsing owners: ", when the header of one of these packages does
    not parse; and [info] with these files when every header parses or is
    absent, the download counts and the clock being taken to return. *)
Theorem deriveStateForPR_later_outcomes (H : Host) (info : PRQueryResult)
    (fetchFile : FetchFile) (getDownloads : option (list string → list (string * Z)))
    (getNow : Z) (log log1 : list FetchCall) (prInfo : PullRequest) (author : Actor)
    (headCommit : Commit) (classified : list FileInfo) :
  repository info ≫= pullRequest = Some prInfo →
  pr_author prInfo = Some author →
  getHeadCommit prInfo = Some headCommit →
  state prInfo = OPEN → isDraft prInfo = false →
  categorizeFiles H prInfo headCommit fetchFile log = (Normal classified, log1) →
  let out := deriveStateForPR H info fetchFile getDownloads getNow log in
  let touched q := ∃ f, f ∈ classified ∧ package f = Some q in
  ((∀ q, ¬ touched q) →
     out = (Normal (BotNoPackages (number prInfo)), log1)) ∧
  ((∃ q e, touched q ∧ ownersOf H fetchFile q = Throw e) →
     ∃ q e log2,
       touched q ∧ ownersOf H fetchFile q = Throw e ∧
       out = (Normal (BotError (number prInfo)
                        ("error parsing owners: " +:+ message e)
                        (Some (login author))), log2)) ∧
  ((∃ q, touched q) →
   (∀ q, touched q → ∀ e, ownersOf H fetchFile q ≠ Throw e) →
     ∃ i log2, out = (Normal (Info i), log2) ∧ files i = classified).
Proof.
  intros Hpr Hauthor Hhead Hstate Hdraft Hfiles out touched.
  assert (Hout := deriveStateForPR_active H info fetchFile getDownloads getNow
                    prInfo author headCommit log Hpr Hauthor Hhead Hstate Hdraft).
  fold out in Hout. rewrite Hfiles in Hout.
  destruct (getPackagesTouched_spec classified) as [_ Hpk].
  split_and!.
  - intros Hnone.
    destruct (getPackagesTouched classified) as [|p l] eqn:E; [done|].
    destruct (Hnone p). apply Hpk. apply list_elem_of_here.
  - intros (q & e & Hq & Hthrow).
    destruct (first_throw H fetchFile (getPackagesTouched classified))
      as (pre & p & post & e' & Hsplit & Hpre & Hp).
    { exists q, e. split; [by apply Hpk | done]. }
    unfold getOwnersOfPackages in Hout. rewrite Hsplit in Hout.
    rewrite (getOwnersOfPackages_loop_throw H fetchFile pre p post e' Hpre Hp) in Hout.
    exists p, e'. eexists. split_and!; [|done|].
    + apply Hpk. rewrite Hsplit, elem_of_app. right. apply list_elem_of_here.
    + rewrite Hout. by destruct pre.
  - intros (q & Hq) Hok.
    unfold getOwnersOfPackages in Hout.
    rewrite getOwnersOfPackages_loop_ok in Hout
      by (intros p Hp; apply Hok; by apply Hpk).
    apply Hpk in Hq.
    destruct (getPackagesTouched classified) as [|p l] eqn:E;
      [by apply elem_of_nil in Hq|].
    cbn [List.length Nat.eqb oi_error] in Hout.
    eexists _, _. split; [exact Hout | done].
Qed.

Lemma deriveStateForPR_later_outcomes_witness :
  ∃ i log2, Example.run Example.ordinary = (Normal (Info i), log2) ∧
            map path (files i) = ["types/foo/index.d.ts"; "types/foo/foo-tests.ts"].
Proof.
  destruct (proj2 (proj2 (deriveStateForPR_later_outcomes Example.host
              (Example.snapshot Example.ordinary) Example.fetchFile None 100000 [] []
              Example.ordinary {| login := "dana" |} Example.h2
              [{| path := "types/foo/index.d.ts"; kind := definition;
                  package := Some "foo" |};
               {| path := "types/foo/foo-tests.ts"; kind := test;
                  package := Some "foo" |}]
              eq_refl eq_refl eq_refl eq_refl eq_refl eq_refl)))
    as (i & log2 & Hrun & Hfiles).
  - exists "foo", {| path := "types/foo/index.d.ts"; kind := definition;
                     package := Some "foo" |}.
    split; [apply list_elem_of_here | done].
  - intros q (f & Hf & Hq) e.
    repeat (apply elem_of_cons in Hf as [->|Hf]; [injection Hq as <-; by vm_compute|]).
    by apply elem_of_nil in Hf.
  - exists i, log2. split; [exact Hrun | by rewrite Hfiles].
Defined.
